(** * Shift-Sync: shift identities, CalDAV sync (Go CLI) and EventKit sync (iOS app)

    Shallow embedding of
    - [src/shift_sync_go/main.go]: [makeShiftUID], [combineDateTime], the row
      handling of [parseShifts], [listShiftEventUIDs], [syncShiftsToCalDAV];
    - [src/unnamed/part_003] ([CalendarService]): [syncShifts],
      [deduplicateShiftEvents], [preferredEvent], [eventQualityScore],
      [extractShiftUID], [createEvent], [updateEvent], [needsUpdate].

    Instants are modelled as wall-clock minutes ([Z]) in the local zone, with
    the proleptic Gregorian calendar of Go's [time] package and no daylight
    saving shifts (the tool runs in Japan time). *)

From Stdlib Require Import ZArith List String Ascii Bool Lia Permutation.
Import ListNotations.
Open Scope string_scope.
Open Scope Z_scope.

(** ** String helpers (Go's [strings] package, byte level) *)
Module Str.

Fixpoint rev_app (s acc : string) : string :=
  match s with
  | EmptyString => acc
  | String c s' => rev_app s' (String c acc)
  end.

(** [strings.HasPrefix] *)
Fixpoint has_prefix (p s : string) : bool :=
  match p, s with
  | EmptyString, _ => true
  | String c p', String d s' => Ascii.eqb c d && has_prefix p' s'
  | String _ _, EmptyString => false
  end.

(** [strings.HasSuffix] *)
Definition has_suffix (suf s : string) : bool :=
  has_prefix (rev_app suf "") (rev_app s "").

(** [strings.TrimSuffix] *)
Definition trim_suffix (s suf : string) : string :=
  if has_suffix suf s then substring 0 (length s - length suf) s else s.

(** the remainder of [s] after the first occurrence of [pat] *)
Fixpoint after_first (pat s : string) : option string :=
  if has_prefix pat s then Some (substring (length pat) (length s - length pat) s)
  else match s with
       | EmptyString => None
       | String _ s' => after_first pat s'
       end.

(** [strings.Contains] *)
Definition contains (s pat : string) : bool :=
  match after_first pat s with Some _ => true | None => false end.

(** [strings.SplitN(s, sep, 2)] for a one-byte separator *)
Fixpoint split2 (sep : ascii) (s : string) : string * option string :=
  match s with
  | EmptyString => (EmptyString, None)
  | String c s' =>
      if Ascii.eqb c sep then (EmptyString, Some s')
      else let '(a, b) := split2 sep s' in (String c a, b)
  end.

Definition is_space (c : ascii) : bool :=
  let n := nat_of_ascii c in
  (Nat.eqb n 32 || Nat.eqb n 9 || Nat.eqb n 10 || Nat.eqb n 11 || Nat.eqb n 12
   || Nat.eqb n 13)%bool.

Fixpoint trim_left (s : string) : string :=
  match s with
  | String c s' => if is_space c then trim_left s' else s
  | EmptyString => EmptyString
  end.

(** [strings.TrimSpace] (ASCII white space) *)
Definition trim_space (s : string) : string :=
  rev_app (trim_left (rev_app (trim_left s) "")) "".

Definition byte_of (c : ascii) : Z := Z.of_nat (nat_of_ascii c).
Fixpoint bytes (s : string) : list Z :=
  match s with EmptyString => [] | String c s' => byte_of c :: bytes s' end.

End Str.

(** ** Decimal formatting and parsing (Go's [appendInt] and [strconv.Atoi]) *)
Module Dec.

Definition digit (n : Z) : ascii := ascii_of_nat (Z.to_nat (48 + n)).

Fixpoint digits_fuel (fuel : nat) (n : Z) (acc : string) : string :=
  match fuel with
  | O => acc
  | S f =>
      let acc' := String (digit (n mod 10)) acc in
      if n <? 10 then acc' else digits_fuel f (n / 10) acc'
  end.

(** decimal digits of a non-negative number *)
Definition digits (n : Z) : string := digits_fuel (S (Z.to_nat (Z.log2 n))) n "".

Definition zeros (k : nat) : string := string_of_list_ascii (repeat "0"%char k).

(** Go's [appendInt(b, x, width)]: a minus sign for negatives, then the
    digits padded with zeros to [width]. *)
Definition fmt_int (x : Z) (width : nat) : string :=
  let d := digits (Z.abs x) in
  let p := zeros (width - length d) ++ d in
  if x <? 0 then "-" ++ p else p.

Definition digit_val (c : ascii) : option Z :=
  let v := Z.of_nat (nat_of_ascii c) - 48 in
  if (0 <=? v) && (v <=? 9) then Some v else None.

Fixpoint parse_digits (s : string) (acc : Z) : option Z :=
  match s with
  | EmptyString => Some acc
  | String c s' =>
      match digit_val c with
      | Some v => parse_digits s' (acc * 10 + v)
      | None => None
      end
  end.

(** [strconv.Atoi]: optional sign, then at least one digit *)
Definition atoi (s : string) : option Z :=
  match s with
  | EmptyString => None
  | String c s' =>
      if Ascii.eqb c "-" then
        match s' with EmptyString => None | _ => option_map Z.opp (parse_digits s' 0) end
      else if Ascii.eqb c "+" then
        match s' with EmptyString => None | _ => parse_digits s' 0 end
      else parse_digits s 0
  end.

End Dec.

(** ** Go's [time] package at minute precision *)
Module GoTime.

(** day-of-era of a (year-of-era, month, day) triple *)
Definition doe_of_civil (yoe m d : Z) : Z :=
  let doy := (153 * (m + (if 2 <? m then -3 else 9)) + 2) / 5 + d - 1 in
  yoe * 365 + yoe / 4 - yoe / 100 + doy.

(** days since 1970-01-01 of a civil date (proleptic Gregorian) *)
Definition days_from_civil (y m d : Z) : Z :=
  let y' := if m <=? 2 then y - 1 else y in
  let era := y' / 400 in
  let yoe := y' - era * 400 in
  era * 146097 + doe_of_civil yoe m d - 719468.

(** (year-of-era, month, day) of a day-of-era *)
Definition civil_of_doe (doe : Z) : Z * Z * Z :=
  let yoe := (doe - doe / 1460 + doe / 36524 - doe / 146096) / 365 in
  let doy := doe - (365 * yoe + yoe / 4 - yoe / 100) in
  let mp := (5 * doy + 2) / 153 in
  let d := doy - (153 * mp + 2) / 5 + 1 in
  let m := if mp <? 10 then mp + 3 else mp - 9 in
  (yoe, m, d).

Definition civil_from_days (z : Z) : Z * Z * Z :=
  let z' := z + 719468 in
  let era := z' / 146097 in
  let doe := z' mod 146097 in
  let '(yoe, m, d) := civil_of_doe doe in
  (yoe + era * 400 + (if m <=? 2 then 1 else 0), m, d).

(** [time.Date(year, month, day, hour, min, 0, 0, time.Local)], with Go's
    normalisation of out-of-range months, days, hours and minutes *)
Definition date (year month day hour min : Z) : Z :=
  let y := year + (month - 1) / 12 in
  let m := (month - 1) mod 12 + 1 in
  (days_from_civil y m 1 + (day - 1)) * 1440 + hour * 60 + min.

Definition civil (t : Z) : Z * Z * Z := civil_from_days (t / 1440).
Definition year_of (t : Z) : Z := fst (fst (civil t)).

(** [t.Format("20060102")] *)
Definition fmt_date (t : Z) : string :=
  let '(y, m, d) := civil t in
  Dec.fmt_int y 4 ++ Dec.fmt_int m 2 ++ Dec.fmt_int d 2.

(** [t.Format("1504")] *)
Definition fmt_hm (t : Z) : string :=
  let mins := t mod 1440 in
  Dec.fmt_int (mins / 60) 2 ++ Dec.fmt_int (mins mod 60) 2.

(** [t.Format("20060102T1504")] *)
Definition fmt_minute (t : Z) : string := fmt_date t ++ "T" ++ fmt_hm t.

End GoTime.

(** ** SHA-1 ([crypto/sha1.Sum]) over bytes held as [Z] in [0, 256) *)
Module Sha1.

Definition mask32 : Z := 2 ^ 32 - 1.
Definition w32 (x : Z) : Z := Z.land x mask32.
Definition rotl (n x : Z) : Z := w32 (Z.lor (Z.shiftl x n) (Z.shiftr x (32 - n))).
Definition add32 (x y : Z) : Z := w32 (x + y).

(** big-endian bytes of a [k]-byte number *)
Fixpoint be_bytes (k : nat) (x : Z) : list Z :=
  match k with
  | O => []
  | S k' => (be_bytes k' (Z.shiftr x 8) ++ [Z.land x 255])%list
  end.

Definition pad (msg : list Z) : list Z :=
  let len := Z.of_nat (List.length msg) in
  let k := Z.to_nat ((55 - len) mod 64) in
  (msg ++ [128] ++ repeat 0 k ++ be_bytes 8 (8 * len))%list.

Fixpoint words (bs : list Z) : list Z :=
  match bs with
  | b0 :: b1 :: b2 :: b3 :: rest =>
      (b0 * 2 ^ 24 + b1 * 2 ^ 16 + b2 * 2 ^ 8 + b3) :: words rest
  | _ => []
  end.

Fixpoint blocks (fuel : nat) (bs : list Z) : list (list Z) :=
  match fuel with
  | O => []
  | S f =>
      match bs with
      | [] => []
      | _ => firstn 64 bs :: blocks f (skipn 64 bs)
      end
  end.

(** message schedule: [w] holds w_{t-1}, ..., w_0 (newest first) *)
Fixpoint schedule (n : nat) (w : list Z) : list Z :=
  match n with
  | O => w
  | S n' =>
      let x := Z.lxor (Z.lxor (nth 2 w 0) (nth 7 w 0))
                      (Z.lxor (nth 13 w 0) (nth 15 w 0)) in
      schedule n' (rotl 1 x :: w)
  end.

Definition f_k (t : nat) (b c d : Z) : Z * Z :=
  if (t <? 20)%nat then (Z.lor (Z.land b c) (Z.land (Z.lxor b mask32) d), 1518500249)
  else if (t <? 40)%nat then (Z.lxor (Z.lxor b c) d, 1859775393)
  else if (t <? 60)%nat then
    (Z.lor (Z.lor (Z.land b c) (Z.land b d)) (Z.land c d), 2400959708)
  else (Z.lxor (Z.lxor b c) d, 3395469782).

Definition round (st : Z * Z * Z * Z * Z) (tw : nat * Z) : Z * Z * Z * Z * Z :=
  let '(a, b, c, d, e) := st in
  let '(t, wt) := tw in
  let '(f, k) := f_k t b c d in
  let temp := add32 (add32 (add32 (add32 (rotl 5 a) f) e) k) wt in
  (temp, a, rotl 30 b, c, d).

Definition compress (h : Z * Z * Z * Z * Z) (block : list Z) : Z * Z * Z * Z * Z :=
  let w := rev (schedule 64 (rev (words block))) in
  let '(a, b, c, d, e) :=
    fold_left round (combine (seq 0 80) w) h in
  let '(h0, h1, h2, h3, h4) := h in
  (add32 h0 a, add32 h1 b, add32 h2 c, add32 h3 d, add32 h4 e).

Definition init : Z * Z * Z * Z * Z :=
  (1732584193, 4023233417, 2562383102, 271733878, 3285377520).

Definition sum (msg : list Z) : list Z :=
  let p := pad msg in
  let '(h0, h1, h2, h3, h4) := fold_left compress (blocks (List.length p) p) init in
  (be_bytes 4 h0 ++ be_bytes 4 h1 ++ be_bytes 4 h2 ++ be_bytes 4 h3 ++ be_bytes 4 h4)%list.

Definition hex_digit (n : Z) : ascii :=
  if n <? 10 then ascii_of_nat (Z.to_nat (48 + n)) else ascii_of_nat (Z.to_nat (87 + n)).

(** [hex.EncodeToString] *)
Fixpoint hex (bs : list Z) : string :=
  match bs with
  | [] => EmptyString
  | b :: rest => String (hex_digit (b / 16)) (String (hex_digit (b mod 16)) (hex rest))
  end.

End Sha1.

(** ** Shifts and their identity ([main.go]) *)
Module GoMain.

(** [type shift struct] *)
Record shift := mkShift {
  Title : string;
  Start : Z;
  End : Z;
  Location : string;
  Memo : string
}.

(** [makeShiftUID] *)
Definition makeShiftUID (s : shift) : string :=
  let key := GoTime.fmt_minute (Start s) ++ "-" ++ GoTime.fmt_minute (End s) ++ "-"
             ++ Location s in
  let hash := substring 0 8 (Sha1.hex (Sha1.sum (Str.bytes key))) in
  "shift-" ++ GoTime.fmt_date (Start s) ++ "-" ++ GoTime.fmt_hm (Start s) ++ "-"
  ++ GoTime.fmt_hm (End s) ++ "-" ++ hash.

End GoMain.

(** ** Row handling of [parseShifts] and [combineDateTime] ([main.go]) *)
Module GoParse.
Import GoMain.

(** [strings.SplitN(s, sep, 2)] for a non-empty separator: the part before
    the first [sep] and, when [sep] occurs, the part after it *)
Fixpoint splitn2 (sep s : string) : string * option string :=
  if Str.has_prefix sep s
  then (EmptyString, Some (substring (length sep) (length s - length sep) s))
  else match s with
       | EmptyString => (EmptyString, None)
       | String c s' => let '(a, b) := splitn2 sep s' in (String c a, b)
       end.

(** [strings.Split(s, sep)] for a non-empty separator *)
Fixpoint split_fuel (fuel : nat) (sep s : string) : list string :=
  match fuel with
  | O => [s]
  | S f =>
      match splitn2 sep s with
      | (a, Some rest) => a :: split_fuel f sep rest
      | (a, None) => [a]
      end
  end.
Definition split (sep s : string) : list string := split_fuel (length s) sep s.

(** [combineDateTime] *)
Definition combineDateTime (year month day : Z) (hhmm : string) : option Z :=
  match split ":" hhmm with
  | [h; m] =>
      match Dec.atoi h, Dec.atoi m with
      | Some hour, Some min => Some (GoTime.date year month day hour min)
      | _, _ => None
      end
  | _ => None
  end.

Definition black_circle : string := "●".
Definition baito : string := "バイト".

(** the body of the [Each] callback of [parseShifts] for one non-header row,
    given the texts of its [td.shiftDate], [td.shiftMisName] and
    [td.shiftTime] cells *)
Definition parseRow (year : Z) (dateCell shopCell timeCell : string) : option shift :=
  let dateText := Str.trim_space dateCell in
  let shopText := Str.trim_space shopCell in
  let timeText := Str.trim_space timeCell in
  if (String.eqb dateText "" || String.eqb shopText "" || String.eqb timeText "")%bool
  then None
  else if negb (Str.contains timeText black_circle) || negb (Str.contains timeText "-")
  then None
  else
    match snd (splitn2 black_circle timeText) with
    | None => None
    | Some timePart =>
        match splitn2 "-" timePart with
        | (_, None) => None
        | (s0, Some s1) =>
            let startStr := Str.trim_space s0 in
            let endStr := Str.trim_space s1 in
            let dateMain := fst (splitn2 (String "010" EmptyString) dateText) in
            let dateMain := fst (splitn2 "(" dateMain) in
            match splitn2 "/" dateMain with
            | (_, None) => None
            | (p0, Some p1) =>
                match Dec.atoi (Str.trim_space p0), Dec.atoi (Str.trim_space p1) with
                | Some m, Some d =>
                    match combineDateTime year m d startStr,
                          combineDateTime year m d endStr with
                    | Some startDT, Some endDT =>
                        if startDT =? endDT then None
                        else Some (mkShift baito startDT endDT shopText "")
                    | _, _ => None
                    end
                | _, _ => None
                end
            end
        end
    end.

(** the [Each] loop: row 0 is the header, every other row goes through
    [parseRow] *)
Definition parseRows (year : Z) (rows : list (string * string * string)) : list shift :=
  match rows with
  | [] => []
  | _ :: body =>
      flat_map (fun '(d, s, t) =>
                  match parseRow year d s t with Some sh => [sh] | None => [] end) body
  end.

End GoParse.

(** ** CalDAV listing and sync of the Go CLI ([main.go]) *)
Module GoCalDAV.
Import GoMain.

(** the prefix of [s] before the first byte [c] *)
Fixpoint upto_char (c : ascii) (s : string) : string :=
  match s with
  | EmptyString => EmptyString
  | String d s' => if Ascii.eqb c d then EmptyString else String d (upto_char c s')
  end.

(** the suffix of [s] from the first byte [c] on ([""] when absent) *)
Fixpoint from_char (c : ascii) (s : string) : string :=
  match s with
  | EmptyString => EmptyString
  | String d s' => if Ascii.eqb c d then s else from_char c s'
  end.

(** the last byte-separated segment of [s] *)
Fixpoint last_segment (c : ascii) (s acc : string) : string :=
  match s with
  | EmptyString => acc
  | String d s' =>
      if Ascii.eqb c d then last_segment c s' EmptyString
      else last_segment c s' (acc ++ String d EmptyString)
  end.

(** [strings.TrimRight(s, "/")] *)
Definition trim_right_slash (s : string) : string :=
  Str.rev_app
    ((fix drop (r : string) : string :=
        match r with
        | String "/" r' => drop r'
        | _ => r
        end) (Str.rev_app s "")) "".

(** [path.Base] *)
Definition path_base (p : string) : string :=
  if String.eqb p "" then "."
  else let p' := trim_right_slash p in
       if String.eqb p' "" then "/" else last_segment "/" p' "".

(** scheme and host of an absolute URL ([scheme://host]) *)
Definition url_origin (u : string) : string :=
  match Str.after_first "://" u with
  | Some rest => substring 0 (length u - length rest) u ++ upto_char "/" rest
  | None => ""
  end.

(** [url.Parse(u).Path] for URLs without query, fragment or escapes *)
Definition url_path (u : string) : string :=
  let p := match Str.after_first "://" u with
           | Some rest => from_char "/" rest
           | None => u
           end in
  upto_char "#" (upto_char "?" p).

(** [resolveHref]: absolute URLs are kept, server paths are resolved
    against the origin of the PROPFIND URL *)
Definition resolveHref (base href : string) : string :=
  if Str.contains href "://" then href
  else if Str.has_prefix "/" href then url_origin base ++ href
  else url_origin base ++ url_path base ++ href.

(** one [<d:response>] of the PROPFIND answer *)
Record response := mkResponse { Href : string; IsCalendar : bool }.

(** the per-response filter of [listShiftEventUIDs] *)
Definition response_uid (base : string) (r : response) : option string :=
  let href := Str.trim_space (Href r) in
  if String.eqb href "" then None
  else if IsCalendar r then None
  else
    let name := path_base (url_path (resolveHref base href)) in
    if negb (Str.has_prefix "shift-" name) || negb (Str.has_suffix ".ics" name)
    then None
    else Some (Str.trim_suffix name ".ics").

(** insertion into the [map[string]struct{}] *)
Definition set_add (u : string) (m : list string) : list string :=
  if existsb (String.eqb u) m then m else (m ++ [u])%list.

Definition uids_of (base : string) (rs : list response) : list string :=
  fold_left (fun m r => match response_uid base r with
                        | Some u => set_add u m
                        | None => m
                        end) rs [].

(** The CalDAV collection behind [calendarURL]: resources keyed by URL, each
    holding the shift its [buildSingleEventICAL] body was built from. *)
Record server := mkServer {
  resources : list (string * shift);
  propfind_fails : bool   (** transport or auth failure of PROPFIND *)
}.

(** the PROPFIND (Depth 1) answer: the collection itself, then its members *)
Definition propfind_responses (calendarURL : string) (sv : server) : list response :=
  mkResponse (url_path calendarURL) true
  :: map (fun r => mkResponse (url_path (fst r)) false) (resources sv).

(** [listShiftEventUIDs]: [None] is the returned error *)
Definition listShiftEventUIDs (calendarURL : string) (sv : server) : option (list string) :=
  if propfind_fails sv then None
  else Some (uids_of calendarURL (propfind_responses calendarURL sv)).

(** result of [client.Do]: a transport error or an HTTP status *)
Inductive http_result := HttpErr | Status (code : Z).

Inductive method := DELETE | PUT.

(** what the run prints *)
Inductive logline :=
| LListErr
| LReq (m : method) (url : string)
| LHttpErr
| LStatusErr (code : Z)
| LOk (code : Z).

Record state := mkState { srv : server; log : list logline }.

Section Sync.
(** the network: the answer to each request *)
Variable net : method -> string -> http_result.

Definition remove_res (url : string) (sv : server) : server :=
  mkServer (filter (fun r => negb (String.eqb (fst r) url)) (resources sv))
           (propfind_fails sv).

Definition put_res (url : string) (s : shift) (sv : server) : server :=
  let rs := resources sv in
  mkServer (if existsb (fun r => String.eqb (fst r) url) rs
            then map (fun r => if String.eqb (fst r) url then (url, s) else r) rs
            else (rs ++ [(url, s)])%list)
           (propfind_fails sv).

Definition emit (l : logline) (st : state) : state :=
  mkState (srv st) (log st ++ [l])%list.

(** one iteration of the DELETE loop *)
Definition delete_one (base : string) (st : state) (uid : string) : state :=
  let eventURL := base ++ "/" ++ uid ++ ".ics" in
  let st := emit (LReq DELETE eventURL) st in
  match net DELETE eventURL with
  | HttpErr => emit LHttpErr st
  | Status code =>
      if negb (code =? 200) && negb (code =? 204) && negb (code =? 404)
      then emit (LStatusErr code) st
      else emit (LOk code) (mkState (remove_res eventURL (srv st)) (log st))
  end.

(** one iteration of the PUT loop *)
Definition put_one (base : string) (st : state) (entry : string * shift) : state :=
  let '(uid, s) := entry in
  let eventURL := base ++ "/" ++ uid ++ ".ics" in
  let st := emit (LReq PUT eventURL) st in
  match net PUT eventURL with
  | HttpErr => emit LHttpErr st
  | Status code =>
      if negb (code =? 200) && negb (code =? 201) && negb (code =? 204)
      then emit (LStatusErr code) st
      else emit (LOk code) (mkState (put_res eventURL s (srv st)) (log st))
  end.

(** the [desiredSet] loop: drops [Start = End] and repeated identities *)
Definition desired_entries (shifts : list shift) : list (string * shift) :=
  fold_left (fun acc s =>
               if Start s =? End s then acc
               else let uid := makeShiftUID s in
                    if existsb (fun e => String.eqb (fst e) uid) acc then acc
                    else (acc ++ [(uid, s)])%list) shifts [].

(** [syncShiftsToCalDAV]: the returned [option string] is the error *)
Definition syncShiftsToCalDAV (shifts : list shift) (calendarURL : string)
    (st : state) : option string * state :=
  if negb (Str.has_prefix "http" calendarURL)
  then (Some ("calendar_url が変やで: " ++ calendarURL), st)
  else
    let base := trim_right_slash calendarURL in
    let desiredShifts := desired_entries shifts in
    let desiredSet := map fst desiredShifts in
    let '(existingUIDs, st) :=
      match listShiftEventUIDs calendarURL (srv st) with
      | Some u => (u, st)
      | None => ([], emit LListErr st)
      end in
    let toDelete := filter (fun u => negb (existsb (String.eqb u) desiredSet))
                           existingUIDs in
    let st := fold_left (delete_one base) toDelete st in
    let st := fold_left (put_one base) desiredShifts st in
    (None, st).

End Sync.

End GoCalDAV.

(** ** EventKit sync of the iOS app ([CalendarService], part_003) *)
Module CalendarService.

(** [struct Shift] *)
Record Shift := mkShift {
  uid : string;
  title : string;
  start : Z;
  end_ : Z;
  location : string;
  memo : string
}.

(** an [EKEvent] object; [ev_id] is its object identity ([===]) *)
Record EKEvent := mkEvent {
  ev_id : nat;
  ev_title : option string;
  startDate : Z;
  endDate : Z;
  ev_location : option string;
  notes : option string;
  lastModifiedDate : option Z
}.

(** [struct SyncResult] *)
Record SyncResult := mkResult {
  added : Z;
  updated : Z;
  deleted : Z;
  addedShifts : list Shift;
  updatedShifts : list Shift;
  deletedShifts : list Shift
}.

Definition emptyResult : SyncResult := mkResult 0 0 0 [] [] [].

(** the calls that write to the [EKEventStore] *)
Inductive write := WRemove (e : EKEvent) | WSave (e : EKEvent).

(** the events of the synced calendar, the next fresh object identity,
    and the write calls issued so far *)
Record store := mkStore {
  events : list EKEvent;
  next_id : nat;
  writes : list write
}.

(** a computation that may throw out of a [try] *)
Inductive outcome (A : Type) :=
| Done (a : A) (s : store)
| Thrown (w : write) (s : store).
Arguments Done {A}. Arguments Thrown {A}.

Definition M (A : Type) := store -> outcome A.

Definition ret {A} (a : A) : M A := fun s => Done a s.
Definition bind {A B} (m : M A) (k : A -> M B) : M B :=
  fun s => match m s with
           | Done a s' => k a s'
           | Thrown w s' => Thrown w s'
           end.

Notation "x <- m ;; k" := (bind m (fun x => k))
  (at level 61, m at next level, right associativity).

Fixpoint foldM {A B} (f : A -> B -> M A) (l : list B) (a : A) : M A :=
  match l with
  | [] => ret a
  | b :: l' => bind (f a b) (foldM f l')
  end.

Definition opt_eqb (x : option string) (y : string) : bool :=
  match x with Some x' => String.eqb x' y | None => false end.

Definition marker : string := "shift-uid:".
Definition newline : string := String "010" EmptyString.

Definition upto_newline (s : string) : string := fst (GoParse.splitn2 newline s).

(** [extractShiftUID] *)
Definition extractShiftUID (e : EKEvent) : option string :=
  match notes e with
  | None => None
  | Some n =>
      match Str.after_first marker n with
      | Some remaining => Some (upto_newline remaining)
      | None => None
      end
  end.

Definition has_uid (u : string) (e : EKEvent) : bool :=
  match extractShiftUID e with Some u' => String.eqb u' u | None => false end.

(** the [notes] written by [createEvent] *)
Definition shift_notes (sh : Shift) : string :=
  if String.eqb (memo sh) "" then marker ++ uid sh
  else marker ++ uid sh ++ newline ++ memo sh.

Section Store.
(** which write calls throw *)
Variable fails : write -> bool.

Definition issue (w : write) (apply : store -> store) : M unit :=
  fun s =>
    let s := mkStore (events s) (next_id s) (writes s ++ [w])%list in
    if fails w then Thrown w s else Done tt (apply s).

(** [eventStore.remove(e, span: .thisEvent)] *)
Definition remove (e : EKEvent) : M unit :=
  issue (WRemove e) (fun s =>
    mkStore (filter (fun x => negb (Nat.eqb (ev_id x) (ev_id e))) (events s))
            (next_id s) (writes s)).

Definition stamp (now : Z) (e : EKEvent) : EKEvent :=
  mkEvent (ev_id e) (ev_title e) (startDate e) (endDate e) (ev_location e) (notes e)
          (Some now).

(** [eventStore.save(e, span: .thisEvent)] at time [now] *)
Definition save (now : Z) (e : EKEvent) : M unit :=
  issue (WSave e) (fun s =>
    let e' := stamp now e in
    mkStore (if existsb (fun x => Nat.eqb (ev_id x) (ev_id e)) (events s)
             then map (fun x => if Nat.eqb (ev_id x) (ev_id e) then e' else x) (events s)
             else (events s ++ [e'])%list)
            (next_id s) (writes s)).
End Store.

(** the state of an object: as last saved, or as fetched when gone *)
Definition current (e : EKEvent) : M EKEvent :=
  fun s => Done (match find (fun x => Nat.eqb (ev_id x) (ev_id e)) (events s) with
                 | Some x => x
                 | None => e
                 end) s.

(** [eventStore.predicateForEvents] overlap test *)
Definition in_window (searchStart searchEnd : Z) (e : EKEvent) : bool :=
  (startDate e <? searchEnd) && (searchStart <? endDate e).

Definition has_marker (e : EKEvent) : bool :=
  match notes e with Some n => Str.contains n marker | None => false end.

(** [getExistingShiftEvents(in:startDate:endDate:)] *)
Definition getExistingShiftEvents (searchStart searchEnd : Z) : M (list EKEvent) :=
  fun s => Done (filter (fun e => in_window searchStart searchEnd e && has_marker e)
                        (events s)) s.

(** [Date.distantPast], 0001-01-01 00:00 *)
Definition distantPast : Z := -1035593280.

(** [eventQualityScore] *)
Definition eventQualityScore (e : EKEvent) : Z :=
  (match ev_title e with Some t => if String.eqb t "" then 0 else 1 | None => 0 end)
  + (match ev_location e with Some l => if String.eqb l "" then 0 else 1 | None => 0 end)
  + (if startDate e <? endDate e then 1 else 0).

Definition modified (e : EKEvent) : Z :=
  match lastModifiedDate e with Some t => t | None => distantPast end.

(** [preferredEvent(lhs, comparedTo: rhs)] *)
Definition preferredEvent (lhs rhs : EKEvent) : EKEvent :=
  let lm := modified lhs in
  let rm := modified rhs in
  if negb (lm =? rm) then (if rm <? lm then lhs else rhs)
  else
    let ls := eventQualityScore lhs in
    let rs := eventQualityScore rhs in
    if negb (ls =? rs) then (if rs <=? ls then lhs else rhs)
    else if startDate lhs <=? startDate rhs then lhs else rhs.

(** [selectedByUID] as an association list, in insertion order *)
Fixpoint lookup (u : string) (m : list (string * EKEvent)) : option EKEvent :=
  match m with
  | [] => None
  | (k, v) :: m' => if String.eqb k u then Some v else lookup u m'
  end.

Fixpoint assign (u : string) (v : EKEvent) (m : list (string * EKEvent))
    : list (string * EKEvent) :=
  match m with
  | [] => [(u, v)]
  | (k, w) :: m' => if String.eqb k u then (k, v) :: m' else (k, w) :: assign u v m'
  end.

(** one iteration of the selection loop of [deduplicateShiftEvents] *)
Definition dedup_step (acc : list (string * EKEvent) * list EKEvent) (event : EKEvent)
    : list (string * EKEvent) * list EKEvent :=
  let '(selected, duplicates) := acc in
  match extractShiftUID event with
  | None => acc
  | Some u =>
      match lookup u selected with
      | Some existing =>
          let preferred := preferredEvent existing event in
          let obsolete := if Nat.eqb (ev_id preferred) (ev_id existing) then event
                          else existing in
          (assign u preferred selected, (duplicates ++ [obsolete])%list)
      | None => (assign u event selected, duplicates)
      end
  end.

Definition dedup_select (evs : list EKEvent) : list (string * EKEvent) * list EKEvent :=
  fold_left dedup_step evs ([], []).

Fixpoint insert_by_start (e : EKEvent) (l : list EKEvent) : list EKEvent :=
  match l with
  | [] => [e]
  | x :: l' => if startDate e <? startDate x then e :: l else x :: insert_by_start e l'
  end.

(** [sorted { $0.startDate < $1.startDate }] (stable) *)
Definition sort_by_start (l : list EKEvent) : list EKEvent :=
  fold_left (fun acc e => insert_by_start e acc) l [].

Section Sync.
Variable fails : write -> bool.

(** [deduplicateShiftEvents] *)
Definition deduplicateShiftEvents (evs : list EKEvent) : M (list EKEvent) :=
  let '(selected, duplicatesToDelete) := dedup_select evs in
  _ <- foldM (fun _ d => remove fails d) duplicatesToDelete tt ;;
  ret (sort_by_start (map snd selected)).

(** [needsUpdate] *)
Definition needsUpdate (e : EKEvent) (sh : Shift) : bool :=
  negb (opt_eqb (ev_title e) (title sh)) || negb (startDate e =? start sh)
  || negb (endDate e =? end_ sh) || negb (opt_eqb (ev_location e) (location sh)).

(** [updateEvent] *)
Definition updateEvent (e : EKEvent) (sh : Shift) : EKEvent :=
  mkEvent (ev_id e) (Some (title sh)) (start sh) (end_ sh) (Some (location sh))
          (notes e) (lastModifiedDate e).

(** [createEvent]: a fresh, unsaved object *)
Definition createEvent (sh : Shift) : M EKEvent :=
  fun s => Done (mkEvent (next_id s) (Some (title sh)) (start sh) (end_ sh)
                         (Some (location sh)) (Some (shift_notes sh)) None)
                (mkStore (events s) (S (next_id s)) (writes s)).

Definition deleted_shift (e : EKEvent) (u : string) : Shift :=
  mkShift u (match ev_title e with Some t => t | None => "" end)
          (startDate e) (endDate e)
          (match ev_location e with Some l => l | None => "" end) "".

(** the [toDelete] filter *)
Definition to_delete (now : Z) (desiredUIDs : list string) (existing : list EKEvent)
    : list EKEvent :=
  filter (fun event =>
            match extractShiftUID event with
            | None => false
            | Some u => if endDate event <? now then false
                        else negb (existsb (String.eqb u) desiredUIDs)
            end) existing.

(** one iteration of the delete loop *)
Definition delete_one (r : SyncResult) (event : EKEvent) : M SyncResult :=
  let ds := match extractShiftUID event with
            | Some u => (deletedShifts r ++ [deleted_shift event u])%list
            | None => deletedShifts r
            end in
  _ <- remove fails event ;;
  ret (mkResult (added r) (updated r) (deleted r + 1) (addedShifts r)
                (updatedShifts r) ds).

(** one iteration of the add/update loop *)
Definition upsert_one (now : Z) (existingEvents : list EKEvent)
    (existingUIDs : list string) (r : SyncResult) (sh : Shift) : M SyncResult :=
  if existsb (String.eqb (uid sh)) existingUIDs then
    match find (has_uid (uid sh)) existingEvents with
    | Some existingEvent =>
        e <- current existingEvent ;;
        if needsUpdate e sh then
          _ <- save fails now (updateEvent e sh) ;;
          ret (mkResult (added r) (updated r + 1) (deleted r) (addedShifts r)
                        (updatedShifts r ++ [sh])%list (deletedShifts r))
        else ret r
    | None => ret r
    end
  else
    e <- createEvent sh ;;
    _ <- save fails now e ;;
    ret (mkResult (added r + 1) (updated r) (deleted r) (addedShifts r ++ [sh])%list
                  (updatedShifts r) (deletedShifts r)).

(** [syncShifts(_:to:searchStart:searchEnd:)], [now] being [Date()] *)
Definition syncShifts (shifts : list Shift) (searchStart searchEnd now : Z)
    : M SyncResult :=
  fetched <- getExistingShiftEvents searchStart searchEnd ;;
  existingEvents <- deduplicateShiftEvents fetched ;;
  let existingUIDs := flat_map (fun e => match extractShiftUID e with
                                         | Some u => [u] | None => [] end)
                               existingEvents in
  let desiredUIDs := map uid shifts in
  let toDelete := to_delete now desiredUIDs existingEvents in
  r <- foldM delete_one toDelete emptyResult ;;
  r <- foldM (upsert_one now existingEvents existingUIDs) shifts r ;;
  again <- getExistingShiftEvents searchStart searchEnd ;;
  _ <- deduplicateShiftEvents again ;;
  ret r.

End Sync.

End CalendarService.

(** ** iCalendar body of one shift ([main.go]: [formatDT], [escapeICalText],
    [buildSingleEventICAL]) *)
Module GoICal.
Import GoMain.

Definition CR : ascii := "013".
Definition LF : ascii := "010".
Definition crlf : string := String CR (String LF EmptyString).

(** [formatDT]: [t.Format("20060102T150405")]; instants are whole minutes *)
Definition formatDT (t : Z) : string := GoTime.fmt_minute t ++ "00".

(** what [strings.NewReplacer("\\", "\\\\", ";", "\;", ",", "\\,", "\n", "\\n")]
    writes for one byte (every old string is one byte, so the replacer works
    byte by byte) *)
Definition escape_byte (c : ascii) : string :=
  if Ascii.eqb c "\"%char then "\\"
  else if Ascii.eqb c ";"%char then "\;"
  else if Ascii.eqb c ","%char then "\,"
  else if Ascii.eqb c LF then "\n"
  else String c EmptyString.

(** [escapeICalText] *)
Fixpoint escapeICalText (text : string) : string :=
  match text with
  | EmptyString => EmptyString
  | String c rest => escape_byte c ++ escapeICalText rest
  end.

(** [buildSingleEventICAL]: the strings written to the builder, in order *)
Definition ical_writes (s : shift) (uid : string) : list string :=
  ["BEGIN:VCALENDAR" ++ crlf;
   "VERSION:2.0" ++ crlf;
   "PRODID:-//Inazumi Shift Sync//JP" ++ crlf;
   "BEGIN:VEVENT" ++ crlf;
   "UID:" ++ uid ++ crlf;
   "DTSTART:" ++ formatDT (Start s) ++ crlf;
   "DTEND:" ++ formatDT (End s) ++ crlf;
   "SUMMARY:" ++ escapeICalText (Title s) ++ crlf]
  ++ (if negb (String.eqb (Location s) "")
      then ["LOCATION:" ++ escapeICalText (Location s) ++ crlf] else [])
  ++ (if negb (String.eqb (Memo s) "")
      then ["DESCRIPTION:" ++ escapeICalText (Memo s) ++ crlf] else [])
  ++ ["END:VEVENT" ++ crlf;
      "END:VCALENDAR" ++ crlf].

Definition buildSingleEventICAL (s : shift) (uid : string) : string :=
  fold_right String.append EmptyString (ical_writes s uid).

End GoICal.

(** ** Month arithmetic and the month range of [-list] ([main.go]) *)
Module GoMonths.

(** [type yearMonth struct] *)
Record yearMonth := mkYM { Year : Z; Month : Z }.

(** the (year, month) [time.Date] normalises an out-of-range month to *)
Definition norm_month (y m : Z) : yearMonth :=
  mkYM (y + (m - 1) / 12) ((m - 1) mod 12 + 1).

(** [addMonths]: [time.Date(ym.Year, ym.Month, 1, 0, 0, 0, 0, time.UTC)],
    then [AddDate(0, add, 0)], which rebuilds the date with [month + add].
    Go computes with [int] (64 bits) and a [time.Time] holds about
    [2.9 * 10^11] years either way; this model uses unbounded [Z], so it
    follows Go only while the values stay well inside those ranges. *)
Definition addMonths (ym : yearMonth) (add : Z) : yearMonth :=
  let t := norm_month (Year ym) (Month ym) in
  norm_month (Year t) (Month t + add).

(** [compareYearMonth] *)
Definition compareYearMonth (a b : yearMonth) : Z :=
  if negb (Year a =? Year b) then (if Year a <? Year b then -1 else 1)
  else if Month a <? Month b then -1
  else if Month b <? Month a then 1
  else 0.

Definition is_digit (c : ascii) : bool :=
  Nat.leb 48 (nat_of_ascii c) && Nat.leb (nat_of_ascii c) 57.
Definition dval (c : ascii) : Z := Z.of_nat (nat_of_ascii c) - 48.

(** one ASCII digit at the head of [s] *)
Definition digit1 (s : string) : option (Z * string) :=
  match s with
  | String c s' => if is_digit c then Some (dval c, s') else None
  | EmptyString => None
  end.

(** four ASCII digits at the head of [s] and their decimal value *)
Definition digits4 (s : string) : option (Z * string) :=
  match digit1 s with
  | Some (a, s1) =>
      match digit1 s1 with
      | Some (b, s2) =>
          match digit1 s2 with
          | Some (c, s3) =>
              match digit1 s3 with
              | Some (d, s4) => Some (a * 1000 + b * 100 + c * 10 + d, s4)
              | None => None
              end
          | None => None
          end
      | None => None
      end
  | None => None
  end.

Fixpoint drop_prefix (p s : string) : option string :=
  match p, s with
  | EmptyString, _ => Some s
  | String c p', String d s' => if Ascii.eqb c d then drop_prefix p' s' else None
  | String _ _, EmptyString => None
  end.

(** [parseYYYYMM]: [time.Parse("2006-01", s)].  [2006] takes four bytes whose
    first is a digit and reads them with [atoi], so all four must be digits;
    [-] is matched literally; [01] needs exactly two digits, in 1..12; no
    text may follow. *)
Definition parseYYYYMM (s : string) : option yearMonth :=
  match digits4 s with
  | None => None
  | Some (year, r) =>
      match drop_prefix "-" r with
      | None => None
      | Some r =>
          match digit1 r with
          | None => None
          | Some (a, r1) =>
              match digit1 r1 with
              | None => None
              | Some (b, r2) =>
                  let month := a * 10 + b in
                  if (month <=? 0) || (12 <? month) then None
                  else if String.eqb r2 "" then Some (mkYM year month) else None
              end
          end
      end
  end.

(** the errors [buildMonthRange] returns *)
Inductive month_error := FromInvalid | ToInvalid | FromAfterTo | TooWide.

Definition maxMonths : nat := 12.

(** the [for ym := from; ; ym = addMonths(ym, 1)] loop; its length check
    stops it after [maxMonths + 1] rounds, before the fuel runs out *)
Fixpoint month_loop (fuel : nat) (to ym : yearMonth) (list : Datatypes.list yearMonth)
    : Datatypes.list yearMonth + month_error :=
  let list := (list ++ [ym])%list in
  if compareYearMonth ym to =? 0 then inl list
  else if (maxMonths <? List.length list)%nat then inr TooWide
  else match fuel with
       | O => inr TooWide
       | S f => month_loop f to (addMonths ym 1) list
       end.

(** [time.Now()]'s year and month *)
Definition current_month (now : Z) : yearMonth :=
  let '(y, m, _) := GoTime.civil now in mkYM y m.

(** [buildMonthRange(fromStr, toStr)] at time [now] *)
Definition buildMonthRange (now : Z) (fromStr toStr : string)
    : list yearMonth + month_error :=
  let cur := current_month now in
  if String.eqb fromStr "" && String.eqb toStr "" then inl [cur; addMonths cur 1]
  else
    let bounds : yearMonth * yearMonth + month_error :=
      if negb (String.eqb fromStr "") && negb (String.eqb toStr "") then
        match parseYYYYMM fromStr with
        | None => inr FromInvalid
        | Some from =>
            match parseYYYYMM toStr with
            | None => inr ToInvalid
            | Some to => inl (from, to)
            end
        end
      else if negb (String.eqb fromStr "") then
        match parseYYYYMM fromStr with
        | None => inr FromInvalid
        | Some from => inl (from, addMonths from 1)
        end
      else
        match parseYYYYMM toStr with
        | None => inr ToInvalid
        | Some to => inl (cur, to)
        end in
    match bounds with
    | inr e => inr e
    | inl (from, to) =>
        if 0 <? compareYearMonth from to then inr FromAfterTo
        else month_loop (S maxMonths) to from []
    end.

End GoMonths.

(** ** Menu choices and the page header year ([main.go]) *)
Module GoCLI.
Import GoMonths.

(** [parseChoice(text, max, allowZero)]; [scanned] is the integer
    [fmt.Sscanf(text, "%d", &idx)] stored, [None] when it stored none *)
Definition parseChoice (scanned : option Z) (max : Z) (allowZero : bool) : option Z :=
  let idx := match scanned with Some i => i | None => -1 end in
  if allowZero && (idx =? 0) then Some (-1)
  else if (idx <? 1) || (max <? idx) then None
  else Some (idx - 1).

Definition nen : string := "年".
Definition tsuki : string := "月".

(** a match of [(\d{4})年(\d{1,2})月] starting at the head of [s]: the greedy
    [\d{1,2}] tries two digits first, then one *)
Definition match_kanji (s : string) : option (Z * Z) :=
  match digits4 s with
  | None => None
  | Some (y, r) =>
      match drop_prefix nen r with
      | None => None
      | Some r =>
          match digit1 r with
          | None => None
          | Some (a, r1) =>
              match (match digit1 r1 with
                     | Some (b, r2) =>
                         match drop_prefix tsuki r2 with
                         | Some _ => Some (a * 10 + b)
                         | None => None
                         end
                     | None => None
                     end) with
              | Some m => Some (y, m)
              | None =>
                  match drop_prefix tsuki r1 with
                  | Some _ => Some (y, a)
                  | None => None
                  end
              end
          end
      end
  end.

(** a match of [(\d{4})-(\d{1,2})] starting at the head of [s] *)
Definition match_dash (s : string) : option (Z * Z) :=
  match digits4 s with
  | None => None
  | Some (y, r) =>
      match drop_prefix "-" r with
      | None => None
      | Some r =>
          match digit1 r with
          | None => None
          | Some (a, r1) =>
              match digit1 r1 with
              | Some (b, _) => Some (y, a * 10 + b)
              | None => Some (y, a)
              end
          end
      end
  end.

(** [FindStringSubmatch]: the leftmost match (a match starts at an ASCII digit,
    so byte and rune positions agree) *)
Fixpoint find_first (f : string -> option (Z * Z)) (s : string) : option (Z * Z) :=
  match f s with
  | Some r => Some r
  | None => match s with
            | EmptyString => None
            | String _ s' => find_first f s'
            end
  end.

(** [parseYearMonth] *)
Definition parseYearMonth (text : string) : Z * Z :=
  match find_first match_kanji text with
  | Some r => r
  | None => match find_first match_dash text with
            | Some r => r
            | None => (0, 0)
            end
  end.

(** the year [parseShifts] builds its dates in, from the [h3.btn-block]
    header text, at time [now] *)
Definition parseShifts_year (now : Z) (header : string) : Z :=
  let '(y, _) := parseYearMonth (Str.trim_space header) in
  if negb (y =? 0) then y else GoTime.year_of now.

End GoCLI.

(** ** Result summaries, sync window and bulk delete of the iOS app
    ([SyncResult], [defaultSyncRange], [deleteAllShiftEvents] in part_003,
    [fetchCurrentAndNextMonthShifts] and the Google event body in part_005) *)
Module AppSide.
Import CalendarService.

(** [parts.joined(separator: sep)] *)
Definition join (sep : string) (parts : list string) : string :=
  match parts with
  | [] => EmptyString
  | p :: ps => fold_left (fun acc x => acc ++ sep ++ x) ps p
  end.

(** ["\(n)"] for an [Int] *)
Definition show_int (n : Z) : string := Dec.fmt_int n 0.

(** [SyncResult.hasChanges] *)
Definition hasChanges (r : SyncResult) : bool :=
  (0 <? added r) || (0 <? updated r) || (0 <? deleted r).

Definition no_change : string := "変更なし".

(** [SyncResult.summary] *)
Definition summary (r : SyncResult) : string :=
  let part (n : Z) (label : string) : Datatypes.list string :=
    if 0 <? n then [label ++ show_int n ++ "件"] else [] in
  let parts := List.app (part (added r) "追加: ")
                 (List.app (part (updated r) "更新: ") (part (deleted r) "削除: ")) in
  match parts with
  | [] => no_change
  | _ => join ", " parts
  end.

(** [calendar.date(from: calendar.dateComponents([.year, .month], from: now))] *)
Definition startOfMonth (now : Z) : Z :=
  let '(y, m, _) := GoTime.civil now in GoTime.date y m 1 0 0.

(** [futureChanges] *)
Definition futureChanges (now : Z) (r : SyncResult) : list Shift * list Shift * list Shift :=
  let som := startOfMonth now in
  (filter (fun sh => som <=? start sh) (addedShifts r),
   filter (fun sh => som <=? start sh) (updatedShifts r),
   filter (fun sh => som <=? start sh) (deletedShifts r)).

Definition nonempty {A} (l : list A) : bool := match l with [] => false | _ => true end.

(** [hasNotifiableChanges] *)
Definition hasNotifiableChanges (now : Z) (r : SyncResult) : bool :=
  let '(fa, fu, fd) := futureChanges now r in
  if nonempty fa || nonempty fu || nonempty fd then true
  else if nonempty (addedShifts r) || nonempty (updatedShifts r)
          || nonempty (deletedShifts r) then false
  else hasChanges r.

(** the number of days of month [m] of year [y] *)
Definition days_in_month (y m : Z) : Z :=
  let n := GoMonths.norm_month y (m + 1) in
  GoTime.days_from_civil (GoMonths.Year n) (GoMonths.Month n) 1
  - GoTime.days_from_civil y m 1.

(** [calendar.date(byAdding: .month, value: k, to: t)]: same day and time of
    day [k] months on, the day clamped to the length of the target month
    (which has at least 28 days) *)
Definition addingMonths (k t : Z) : Z :=
  let '(y, m, d) := GoTime.civil t in
  let n := GoMonths.norm_month y (m + k) in
  let y' := GoMonths.Year n in
  let m' := GoMonths.Month n in
  let d' := if d <=? 28 then d else Z.min d (days_in_month y' m') in
  GoTime.date y' m' d' 0 0 + t mod 1440.

(** [defaultSyncRange] at time [now] *)
Definition defaultSyncRange (now : Z) : Z * Z :=
  let startOfThisMonth := startOfMonth now in
  (addingMonths (-1) startOfThisMonth, addingMonths 2 startOfThisMonth).

(** the (year, month) pages [fetchCurrentAndNextMonthShifts] fetches, in order *)
Definition fetch_months (now : Z) : list (Z * Z) :=
  let '(thisYear, thisMonth, _) := GoTime.civil now in
  let prevMonth := if thisMonth =? 1 then 12 else thisMonth - 1 in
  let prevYear := if thisMonth =? 1 then thisYear - 1 else thisYear in
  let nextMonth := if thisMonth =? 12 then 1 else thisMonth + 1 in
  let nextYear := if thisMonth =? 12 then thisYear + 1 else thisYear in
  [(prevYear, prevMonth); (thisYear, thisMonth); (nextYear, nextMonth)].

(** [deleteAllShiftEvents(from:searchStart:searchEnd:)] *)
Definition deleteAllShiftEvents (fails : write -> bool) (searchStart searchEnd : Z)
    : M unit :=
  evs <- getExistingShiftEvents searchStart searchEnd ;;
  foldM (fun _ e => remove fails e) evs tt.

(** [struct GoogleEvent] (the fields the sync reads) *)
Record GoogleEvent := mkGoogleEvent {
  g_id : string;
  g_summary : option string;
  g_description : option string
}.

(** [GoogleCalendarService.extractShiftUID] *)
Definition extractShiftUID_google (e : GoogleEvent) : option string :=
  match g_description e with
  | None => None
  | Some d =>
      match Str.after_first marker d with
      | Some remaining => Some (upto_newline remaining)
      | None => None
      end
  end.

(** the [description] of [createEventBody(for:)] *)
Definition eventBody_description (sh : Shift) : string :=
  marker ++ uid sh ++ (if String.eqb (memo sh) "" then "" else newline ++ memo sh).

End AppSide.

(** ** The app's notification text and sync history *)

Module AppNotify.
Import CalendarService AppSide.

Section Formatting.
(** the [DateFormatter] outputs behind [Shift.dateString], [Shift.dayOfWeek]
    and [Shift.timeRangeString]; they depend on the device's time zone *)
Variables (dateString dayOfWeek timeRangeString : Shift -> string).

(** ["<icon> \(dateString)(\(dayOfWeek)) \(timeRangeString)"] *)
Definition shift_line (icon : string) (sh : Shift) : string :=
  icon ++ " " ++ dateString sh ++ "(" ++ dayOfWeek sh ++ ") " ++ timeRangeString sh.

(** the "追加" block of [detailedSummary]: one line per shift for up to two
    shifts, one summary line otherwise *)
Definition added_lines (fa : list Shift) : list string :=
  match fa with
  | [] => []
  | first :: _ =>
      if Nat.leb (List.length fa) 2 then map (shift_line "🆕") fa
      else ["🆕 " ++ show_int (Z.of_nat (List.length fa)) ++ "件追加 ("
            ++ dateString first ++ "〜" ++ dateString (last fa first) ++ ")"]
  end.

(** [SyncResult.detailedSummary]; the model reads the clock once for the
    three reads of [futureChanges] *)
Definition detailedSummary (now : Z) (r : SyncResult) : string :=
  let '(fa, fu, fd) := futureChanges now r in
  let lines := List.app (added_lines fa)
                 (List.app (map (shift_line "📝") fu) (map (shift_line "🗑️") fd)) in
  match lines with
  | [] => no_change
  | _ => join newline lines
  end.

(** [SyncResult.notificationBody] *)
Definition notificationBody (now : Z) (r : SyncResult) : string :=
  let detailed := detailedSummary now r in
  if negb (String.eqb detailed no_change) then detailed
  else if hasNotifiableChanges now r then summary r
  else no_change.
End Formatting.

(** [SyncSource] *)
Inductive SyncSource := manual | background | automation.

(** [SyncResultSummary] *)
Record SyncResultSummary := mkSummary { s_added : Z; s_updated : Z; s_deleted : Z }.

(** [SyncResultSummary.hasChanges] *)
Definition summary_hasChanges (s : SyncResultSummary) : bool :=
  (0 <? s_added s) || (0 <? s_updated s) || (0 <? s_deleted s).

(** [SyncResultSummary.shortDescription] *)
Definition shortDescription (s : SyncResultSummary) : string :=
  if negb (summary_hasChanges s) then no_change
  else
    let part (n : Z) (label : string) : Datatypes.list string :=
      if 0 <? n then [label ++ show_int n] else [] in
    join " " (List.app (part (s_added s) "+")
               (List.app (part (s_updated s) "↻") (part (s_deleted s) "-"))).

(** [SyncLogEntry]; the [UUID] is a number *)
Record SyncLogEntry := mkLogEntry {
  le_id : Z;
  le_date : Z;
  le_source : SyncSource;
  le_result : SyncResultSummary;
  le_success : bool;
  le_errorMessage : option string
}.

(** [SyncLogEntry.success]; [id] and [date] are the defaults [UUID()] and [Date()] *)
Definition success (id date : Z) (source : SyncSource) (a u d : Z) : SyncLogEntry :=
  mkLogEntry id date source (mkSummary a u d) true None.

(** [SyncLogEntry.failure]; [msg] is [error.localizedDescription] *)
Definition failure (id date : Z) (source : SyncSource) (msg : string) : SyncLogEntry :=
  mkLogEntry id date source (mkSummary 0 0 0) false (Some msg).

Section History.
(** [entries.sorted { $0.date > $1.date }] of the standard library *)
Variable sortByDateDesc : list SyncLogEntry -> list SyncLogEntry.

Definition maxEntries : nat := 20.

(** [getHistory]: the stored value is [None] when the key is missing or its
    data does not decode *)
Definition getHistory (stored : option (list SyncLogEntry)) : list SyncLogEntry :=
  match stored with
  | None => []
  | Some entries => sortByDateDesc entries
  end.

(** [addEntry]; [saveEntries] stores the list (encoding these records does not fail) *)
Definition addEntry (entry : SyncLogEntry) (stored : option (list SyncLogEntry))
    : option (list SyncLogEntry) :=
  let entries := entry :: getHistory stored in
  Some (if Nat.ltb maxEntries (List.length entries) then firstn maxEntries entries
        else entries).

(** [logSuccess] *)
Definition logSuccess (id date : Z) (source : SyncSource) (result : SyncResult)
    (stored : option (list SyncLogEntry)) : option (list SyncLogEntry) :=
  addEntry (success id date source (added result) (updated result) (deleted result)) stored.

(** [logFailure] *)
Definition logFailure (id date : Z) (source : SyncSource) (msg : string)
    (stored : option (list SyncLogEntry)) : option (list SyncLogEntry) :=
  addEntry (failure id date source msg) stored.
End History.

End AppNotify.

(** ** The Go tool's delete-all mode *)

Module GoDelete.
Import GoMain GoCalDAV.
(** how [deleteShiftEventsFromCalendar] ends: the listing failed, it found
    nothing to delete, or it sent its DELETE requests *)
Inductive delete_outcome := ListFailed | NoneFound | DeletesSent.

(** [deleteShiftEventsFromCalendar]: the two early returns are [ListFailed]
    and [NoneFound]; otherwise one DELETE per listed identity *)
Definition deleteShiftEventsFromCalendar (net : method -> string -> http_result)
    (calendarURL : string) (st : state) : delete_outcome * state :=
  match listShiftEventUIDs calendarURL (srv st) with
  | None => (ListFailed, st)
  | Some [] => (NoneFound, st)
  | Some uids =>
      let base := trim_right_slash calendarURL in
      (DeletesSent, fold_left (delete_one net base) uids st)
  end.
End GoDelete.

(** ** Sample inputs used by the proofs *)
Module Fixtures.
Import CalendarService.

(** three calendar events, two of them carrying the identifier [shift-a] *)
Definition ev_a_old : EKEvent :=
  mkEvent 1 (Some "バイト") 29141640 29142120 (Some "StoreA")
          (Some (marker ++ "shift-a")) (Some 100).
Definition ev_a_new : EKEvent :=
  mkEvent 2 (Some "バイト") 29141640 29142120 (Some "StoreA")
          (Some (marker ++ "shift-a")) (Some 200).
Definition ev_b : EKEvent :=
  mkEvent 3 (Some "バイト") 29143080 29143560 (Some "StoreA")
          (Some (marker ++ "shift-b")) None.
Definition dup_events : list EKEvent := [ev_a_old; ev_b; ev_a_new].

(** a Go shift on 2025-06-01 10:00-18:00, and the same shift starting one minute later *)
Definition shift_a : GoMain.shift :=
  GoMain.mkShift "バイト" (GoTime.date 2025 6 1 10 0) (GoTime.date 2025 6 1 18 0) "StoreA" "".
Definition shift_a_later : GoMain.shift :=
  GoMain.mkShift "バイト" (GoTime.date 2025 6 1 10 1) (GoTime.date 2025 6 1 18 0) "StoreA" "".
(** the calendar URL of the sample runs, split as [scheme://host path trail];
    the host is an iCloud partition host with an explicit port *)
Definition cal_scheme : string := "https".
Definition cal_host : string := "p42-caldav.icloud.com:443".
Definition cal_path : string := "/123/calendars/home".
Definition cal_trail : string := "/".
End Fixtures.

(** ** Finite checks evaluated by the proofs *)
Module Checks.

Definition opt_Zeqb (a b : option Z) : bool :=
  match a, b with
  | Some x, Some y => x =? y
  | None, None => true
  | _, _ => false
  end.

(** [f i && f (i+1) && ... ] over [fuel] consecutive integers *)
Fixpoint forall_from (f : Z -> bool) (i : Z) (fuel : nat) : bool :=
  match fuel with
  | O => true
  | S k => f i && forall_from f (i + 1) k
  end.

(** [appendInt(b, x, w)] gives [w] digits that read back as [x] *)
Definition reads_back (w : nat) (x : Z) : bool :=
  Nat.eqb (String.length (Dec.fmt_int x w)) w
  && opt_Zeqb (Dec.parse_digits (Dec.fmt_int x w) 0) (Some x).

Definition two_digits_ok : bool := forall_from (reads_back 2) 0 100.
Definition four_digits_ok : bool := forall_from (reads_back 4) 0 (Z.to_nat 10000).

(** [civil_of_doe] lands in range and [doe_of_civil] undoes it *)
Definition civil_ok (doe : Z) : bool :=
  let '(yoe, m, d) := GoTime.civil_of_doe doe in
  (GoTime.doe_of_civil yoe m d =? doe) && (0 <=? yoe) && (yoe <? 400)
  && (1 <=? m) && (m <=? 12) && (1 <=? d) && (d <=? 31).

Definition civil_roundtrip_ok : bool := forall_from civil_ok 0 (Z.to_nat 146097).

(** every byte of [s] satisfies [f] *)
Fixpoint all_chars (f : ascii -> bool) (s : string) : bool :=
  match s with
  | EmptyString => true
  | String c s' => f c && all_chars f s'
  end.

Definition not_char (x c : ascii) : bool := negb (Ascii.eqb x c).

(** the bytes [makeShiftUID] is made of: digits, lower-case letters and ['-'] *)
Definition uid_char (c : ascii) : bool :=
  let n := nat_of_ascii c in
  (Nat.leb 48 n && Nat.leb n 57) || (Nat.leb 97 n && Nat.leb n 122) || Nat.eqb n 45.

(** a [calendar_url] of the shape [scheme://host/path] with an optional final
    slash; the host may carry a port ([host:443]); no query, fragment or
    escapes *)
Definition url_shape_ok (scheme host path trail : string) : bool :=
  (String.eqb scheme "http" || String.eqb scheme "https")
  && negb (String.eqb host "")
  && all_chars (fun c => not_char "/" c && not_char "?" c && not_char "#" c) host
  && all_chars (fun c => not_char ":" c && not_char "?" c && not_char "#" c) path
  && (String.eqb path "" || Str.has_prefix "/" path)
  && negb (Str.has_suffix "/" path)
  && (String.eqb trail "" || String.eqb trail "/").

(** a byte of a resource file name that [url.Parse] keeps as it is and
    [strings.TrimSpace] does not strip: no separator, no escape, no space *)
Definition name_char (c : ascii) : bool :=
  not_char "/" c && not_char "?" c && not_char "#" c && not_char "%" c
  && negb (Str.is_space c).

(** a non-empty file name of a resource in the collection *)
Definition name_ok (name : string) : bool :=
  negb (String.eqb name "") && all_chars name_char name.

(** the answers the Go run accepts: 200, 204 or 404 for a DELETE, 200, 201
    or 204 for a PUT *)
Definition status_ok (m : GoCalDAV.method) (code : Z) : bool :=
  match m with
  | GoCalDAV.DELETE => (code =? 200) || (code =? 204) || (code =? 404)
  | GoCalDAV.PUT => (code =? 200) || (code =? 201) || (code =? 204)
  end.

(** the line the Go run prints for the answer to a request *)
Definition answer_line (m : GoCalDAV.method) (r : GoCalDAV.http_result) : GoCalDAV.logline :=
  match r with
  | GoCalDAV.HttpErr => GoCalDAV.LHttpErr
  | GoCalDAV.Status code => if status_ok m code then GoCalDAV.LOk code
                            else GoCalDAV.LStatusErr code
  end.

(** what the Go run prints for a sequence of requests: each request, then
    the line for its answer *)
Definition call_log (net : GoCalDAV.method -> string -> GoCalDAV.http_result)
    (calls : list (GoCalDAV.method * string)) : list GoCalDAV.logline :=
  flat_map (fun c => [GoCalDAV.LReq (fst c) (snd c); answer_line (fst c) (net (fst c) (snd c))])
           calls.

(** the requests a Go run printed, in order *)
Definition requests (l : list GoCalDAV.logline) : list (GoCalDAV.method * string) :=
  flat_map (fun x => match x with GoCalDAV.LReq m u => [(m, u)] | _ => [] end) l.

(** the URL the Go run uses for an identifier *)
Definition event_url (base uid : string) : string := base ++ "/" ++ uid ++ ".ics".

End Checks.


(** ** Predicates on EventKit stores and events used by the proofs *)
Module EventKitChecks.
Import CalendarService.

(** [w] is at least as preferred as [e]: later modification, then higher
    quality score, then earlier (or equal) start *)
Definition pref_ge (w e : EKEvent) : Prop :=
  modified e < modified w
  \/ (modified e = modified w
      /\ (eventQualityScore e < eventQualityScore w
          \/ (eventQualityScore e = eventQualityScore w /\ startDate w <= startDate e))).

Definition managed (e : EKEvent) : bool :=
  match extractShiftUID e with Some _ => true | None => false end.

Definition managed_uids (l : list EKEvent) : list string :=
  flat_map (fun e => match extractShiftUID e with Some u => [u] | None => [] end) l.

(** what the selection loop keeps after a prefix [p] of the events *)
Definition sel_inv (p : list EKEvent) (acc : list (string * EKEvent) * list EKEvent) : Prop :=
  let '(sel, dups) := acc in
  NoDup (map fst sel)
  /\ (forall u w, In (u, w) sel -> extractShiftUID w = Some u /\ In w p)
  /\ (forall e u, In e p -> extractShiftUID e = Some u ->
        exists w, lookup u sel = Some w /\ pref_ge w e)
  /\ Permutation (map snd sel ++ dups) (filter managed p).

(** an EventKit computation either completes after write calls that all
    succeeded, or throws at its first failing write call, the last one issued *)
Definition stops_at_failure (fails : write -> bool) {A}
    (m : M A) : Prop :=
  forall s, exists ws, Forall (fun w => fails w = false) ws
    /\ match m s with
       | Done _ s' => writes s' = (writes s ++ ws)%list
       | Thrown w s' =>
           fails w = true /\ writes s' = (writes s ++ ws ++ [w])%list
       end.

(** the events [getExistingShiftEvents] returns: in the window, with a marker *)
Definition inwm (searchStart searchEnd : Z) (e : EKEvent) : bool :=
  in_window searchStart searchEnd e && has_marker e.

(** [e] needs no update for any desired shift carrying the identifier [u] *)
Definition matches_uid (shifts : list Shift) (u : string)
    (e : EKEvent) : Prop :=
  forall sh, In sh shifts -> uid sh = u -> needsUpdate e sh = false.

(** desired shifts sharing an identifier have the same title, times and location *)
Definition same_content_per_uid (shifts : list Shift) : Prop :=
  forall sh sh', In sh shifts -> In sh' shifts -> uid sh = uid sh' ->
    title sh = title sh'
    /\ start sh = start sh'
    /\ end_ sh = end_ sh'
    /\ location sh = location sh'.

(** what holds of the store while the add/update loop of a run, which
    started from the deduplicated events [existing], has processed the
    shifts [P]: distinct object ids below [next_id]; each event in the
    window carries a desired identifier or has ended before [now]; the
    events carrying a processed identifier match its shifts, and there is
    one; an identifier of [existing] names the single event in the window
    with the object id found for it; an identifier that is not one of
    [existing] is carried only by events of processed shifts *)
Definition run_inv (shifts : list Shift) (sS sE now : Z) (existing : list EKEvent)
    (P : list Shift) (s : store) : Prop :=
  NoDup (map ev_id (events s))
  /\ Forall (fun e => (ev_id e < next_id s)%nat) (events s)
  /\ (forall e, In e (filter (inwm sS sE) (events s)) ->
        exists u, extractShiftUID e = Some u /\ (In u (map uid shifts) \/ endDate e < now))
  /\ (forall e u, In e (filter (inwm sS sE) (events s)) -> extractShiftUID e = Some u ->
        In u (map uid P) -> matches_uid shifts u e)
  /\ (forall u, In u (map uid P) ->
        exists e, In e (filter (inwm sS sE) (events s)) /\ extractShiftUID e = Some u)
  /\ (forall u e0, In u (map uid shifts) -> find (has_uid u) existing = Some e0 ->
        exists x, find (fun y => Nat.eqb (ev_id y) (ev_id e0)) (events s) = Some x
                  /\ In x (filter (inwm sS sE) (events s)) /\ extractShiftUID x = Some u
                  /\ (forall y, In y (filter (inwm sS sE) (events s)) ->
                        extractShiftUID y = Some u -> y = x))
  /\ (forall e u, In e (filter (inwm sS sE) (events s)) -> extractShiftUID e = Some u ->
        ~ In u (managed_uids existing) -> In u (map uid P)).

(** the events of [l]-ids removed from a store *)
Definition not_in_ids (l : list EKEvent) (x : EKEvent) : bool :=
  negb (existsb (fun d => Nat.eqb (ev_id x) (ev_id d)) l).

End EventKitChecks.

(** ** Sample inputs of the two sync paths *)
Module GoSamples.
Import GoMain GoCalDAV.

Definition cal : string := "https://caldav.icloud.com/123/calendars/home/".
Definition all_ok (code : Z) : method -> string -> http_result := fun _ _ => Status code.

Definition june1 : shift :=
  mkShift GoParse.baito (GoTime.date 2025 6 1 10 0) (GoTime.date 2025 6 1 18 0) "StoreA" "".
Definition june20 : shift :=
  mkShift GoParse.baito (GoTime.date 2025 6 20 10 0) (GoTime.date 2025 6 20 18 0) "StoreA" "".

Definition url_of (s : shift) : string :=
  "https://caldav.icloud.com/123/calendars/home/" ++ makeShiftUID s ++ ".ics".

Definition at_store (loc : string) : shift :=
  mkShift GoParse.baito (GoTime.date 2025 6 1 10 0) (GoTime.date 2025 6 1 18 0) loc "".

Definition sample_rows : list (string * string * string) :=
  [("日付", "店舗", "時間"); ("5/10(土)", "StoreA", "●10:00-18:00");
   ("5/11(日)", "StoreA", "●10:00-10:00")].

End GoSamples.

Module EventKitSamples.
Import CalendarService.

(** the identity of a Go-made shift with a memo, on an empty store *)
Definition sample_shift : Shift :=
  mkShift "shift-20250601-1000-1800-7e82a0ca" "バイト" 29114520 29115000 "Store35188"
          "bring apron".

Definition never : write -> bool := fun _ => false.

Definition sh : Shift :=
  mkShift "shift-20250620-1000-1800-4c1f0a2e" "バイト" 29141640 29142120 "StoreA" "".

Definition is_save (w : write) : bool := match w with WSave _ => true | _ => false end.

(** an upcoming event of this tool whose shift is no longer scraped *)
Definition stale : EKEvent :=
  mkEvent 7 (Some "バイト") 29150000 29150480 (Some "StoreB")
          (Some "shift-uid:shift-20250626-1320-2120-00000000") (Some 29000000).

Definition remove_fails (w : write) : bool :=
  match w with WRemove _ => true | WSave _ => false end.

End EventKitSamples.

(** ** Reading back what the code writes *)
Module Readers.
Import GoMain GoICal GoMonths.

(** undo an iCalendar TEXT escape: a backslash keeps the byte after it, with
    [\n] read as a line feed *)
Fixpoint unescape (s : string) : string :=
  match s with
  | EmptyString => EmptyString
  | String c s' =>
      if Ascii.eqb c "\"%char then
        match s' with
        | EmptyString => String c EmptyString
        | String d s'' =>
            (if Ascii.eqb d "n"%char then String LF EmptyString else String d EmptyString)
            ++ unescape s''
        end
      else String c (unescape s')
  end.

(** split a byte string into its CRLF-terminated lines ([acc] holds the line
    read so far; an unterminated rest is a last line) *)
Fixpoint lines_of (acc s : string) : list string :=
  match s with
  | EmptyString => if String.eqb acc "" then [] else [acc]
  | String c s' =>
      if Ascii.eqb c CR then
        match s' with
        | String d s'' =>
            if Ascii.eqb d LF then acc :: lines_of "" s''
            else lines_of (acc ++ String c "") s'
        | EmptyString => lines_of (acc ++ String c "") s'
        end
      else lines_of (acc ++ String c "") s'
  end.

(** the lines of the event body, as the writes of [buildSingleEventICAL] list them *)
Definition ical_lines (s : shift) (uid : string) : list string :=
  ["BEGIN:VCALENDAR"; "VERSION:2.0"; "PRODID:-//Inazumi Shift Sync//JP"; "BEGIN:VEVENT";
   "UID:" ++ uid;
   "DTSTART:" ++ formatDT (Start s);
   "DTEND:" ++ formatDT (End s);
   "SUMMARY:" ++ escapeICalText (Title s)]
  ++ (if negb (String.eqb (Location s) "")
      then ["LOCATION:" ++ escapeICalText (Location s)] else [])
  ++ (if negb (String.eqb (Memo s) "")
      then ["DESCRIPTION:" ++ escapeICalText (Memo s)] else [])
  ++ ["END:VEVENT"; "END:VCALENDAR"].

(** months counted from January of year 0 *)
Definition ym_index (ym : yearMonth) : Z := Year ym * 12 + (Month ym - 1).
Definition of_index (i : Z) : yearMonth := mkYM (i / 12) (i mod 12 + 1).

(** the months from [f] to [t], when [f] is not after [t] *)
Definition months_from (f : yearMonth) (n : nat) : list yearMonth :=
  map (fun k => of_index (ym_index f + Z.of_nat k)) (seq 0 n).

(** the answer of the month range: the consecutive months from [f] to [t] when
    they are at most [maxMonths + 1], an error otherwise *)
Definition range_spec (f t : yearMonth) : list yearMonth + month_error :=
  let n := ym_index t - ym_index f in
  if n <? 0 then inr FromAfterTo
  else if Z.of_nat maxMonths <? n then inr TooWide
  else inl (months_from f (Z.to_nat n + 1)).

Definition valid_month (ym : yearMonth) : Prop := 1 <= Month ym <= 12.

(** [civil_of_doe] reads the first day of every month of year-of-era [yoe] back *)
Definition month_start_ok (yoe : Z) : bool :=
  Checks.forall_from
    (fun m => let doe := GoTime.doe_of_civil yoe m 1 in
              (0 <=? doe) && (doe <? 146097)
              && (let '(a, b, c) := GoTime.civil_of_doe doe in
                  (a =? yoe) && (b =? m) && (c =? 1))) 1 12.

(** the first day of a month, 00:00 *)
Definition month_start (ym : yearMonth) : Z := GoTime.date (Year ym) (Month ym) 1 0 0.

(** no ASCII digit in [s] *)
Definition no_digit (s : string) : bool := Checks.all_chars (fun c => negb (is_digit c)) s.

(** [Dec.fmt_int x 4] is four digits whose value is [x] *)
Definition four_shape (x : Z) : bool :=
  match Dec.fmt_int x 4 with
  | String a (String b (String c (String d EmptyString))) =>
      is_digit a && is_digit b && is_digit c && is_digit d
      && (dval a * 1000 + dval b * 100 + dval c * 10 + dval d =? x)
  | _ => false
  end.

(** [Dec.fmt_int x 2] is two digits whose value is [x] *)
Definition two_shape (x : Z) : bool :=
  match Dec.fmt_int x 2 with
  | String a (String b EmptyString) => is_digit a && is_digit b && (dval a * 10 + dval b =? x)
  | _ => false
  end.

(** [Dec.fmt_int x 1] is one digit whose value is [x] *)
Definition one_shape (x : Z) : bool :=
  match Dec.fmt_int x 1 with
  | String a EmptyString => is_digit a && (dval a =? x)
  | _ => false
  end.

End Readers.

(** ** Predicates and steps used by the proofs *)

Module ProofDefs.
Import GoMain GoCalDAV Checks.

(** one iteration of the [desiredSet] loop *)
Definition step (acc : list (string * shift)) (s : shift) : list (string * shift) :=
  if Start s =? End s then acc
  else if existsb (fun e => String.eqb (fst e) (makeShiftUID s)) acc then acc
  else (acc ++ [(makeShiftUID s, s)])%list.

(** every resource of the collection sits at [base/uid.ics] for an identifier
    of this tool *)
Definition tool_only (base : string) (sv : server) : Prop :=
  forall r, In r (resources sv) ->
  exists u, Str.has_prefix "shift-" u = true /\ all_chars uid_char u = true
            /\ fst r = event_url base u.

(** the counters of a result match its lists of shifts *)
Definition counted (r : CalendarService.SyncResult) : Prop :=
  CalendarService.added r = Z.of_nat (List.length (CalendarService.addedShifts r))
  /\ CalendarService.updated r = Z.of_nat (List.length (CalendarService.updatedShifts r))
  /\ CalendarService.deleted r = Z.of_nat (List.length (CalendarService.deletedShifts r)).

End ProofDefs.

Module SortDefs.
Import AppNotify.
(** a sort by date, newest first (insertion sort) *)
Fixpoint insert_by_date (e : SyncLogEntry) (l : list SyncLogEntry) : list SyncLogEntry :=
  match l with
  | [] => [e]
  | x :: l' => if le_date x <? le_date e then e :: l else x :: insert_by_date e l'
  end.
Definition sort_by_date (l : list SyncLogEntry) : list SyncLogEntry :=
  fold_right insert_by_date [] l.
End SortDefs.

(** * Proofs *)

(** ** String facts *)
Module StrFacts.

Lemma length_app (a b : string) : length (a ++ b) = (length a + length b)%nat.
Proof. induction a; simpl; auto. Qed.

Lemma substring_0_full (b : string) : substring 0 (length b) b = b.
Proof. induction b; simpl; congruence. Qed.

Lemma substring_app (a b : string) :
  substring (length a) (length (a ++ b) - length a) (a ++ b) = b.
Proof.
  rewrite length_app.
  replace (length a + length b - length a)%nat with (length b) by lia.
  induction a; simpl; [apply substring_0_full | exact IHa].
Qed.

Lemma has_prefix_app (p x : string) : Str.has_prefix p (p ++ x) = true.
Proof. induction p; simpl; auto. rewrite Ascii.eqb_refl; exact IHp. Qed.

Lemma after_first_eq (pat s : string) :
  Str.after_first pat s =
  if Str.has_prefix pat s
  then Some (substring (length pat) (length s - length pat) s)
  else match s with
       | EmptyString => None
       | String _ s' => Str.after_first pat s'
       end.
Proof. destruct s; reflexivity. Qed.

Lemma after_first_app (p x : string) : Str.after_first p (p ++ x) = Some x.
Proof.
  rewrite after_first_eq, has_prefix_app. f_equal. apply substring_app.
Qed.


Lemma contains_cons_nl (c : ascii) (s : string) :
  Str.contains (String c s) CalendarService.newline = false ->
  c <> "010"%char /\ Str.contains s CalendarService.newline = false.
Proof.
  unfold Str.contains. rewrite after_first_eq.
  change (Str.has_prefix CalendarService.newline (String c s)) with (Ascii.eqb "010" c && true)%bool.
  destruct (Ascii.eqb "010" c) eqn:E; cbn [andb]; [discriminate|].
  intros H; split; [|exact H].
  intros ->. rewrite Ascii.eqb_refl in E. discriminate.
Qed.

Lemma splitn2_nl_app (id r : string) :
  Str.contains id CalendarService.newline = false ->
  fst (GoParse.splitn2 CalendarService.newline (id ++ r)) = id ++ fst (GoParse.splitn2 CalendarService.newline r).
Proof.
  induction id as [|c id IH]; intros H; [reflexivity|].
  destruct (contains_cons_nl c id H) as [Hc Hid].
  cbn [String.append]. unfold GoParse.splitn2; fold GoParse.splitn2.
  change (Str.has_prefix CalendarService.newline (String c (id ++ r))) with (Ascii.eqb "010" c && true)%bool.
  destruct (Ascii.eqb "010" c) eqn:E.
  - apply Ascii.eqb_eq in E. congruence.
  - cbn [andb]. destruct (GoParse.splitn2 CalendarService.newline (id ++ r)) as [a b] eqn:Es.
    specialize (IH Hid). simpl in IH |- *. f_equal. exact IH.
Qed.

Lemma string_app_nil (s : string) : s ++ "" = s.
Proof. induction s; simpl; congruence. Qed.

Lemma str_app_assoc (a b c : string) : (a ++ b) ++ c = a ++ b ++ c.
Proof. induction a; simpl; congruence. Qed.

Lemma str_app_inj_l (a a' b b' : string) :
  length a = length a' -> a ++ b = a' ++ b' -> a = a' /\ b = b'.
Proof.
  revert a'. induction a as [|c a IH]; intros [|c' a'] Hl He; simpl in *;
    try discriminate; [auto|].
  injection He as -> He. destruct (IH a' ltac:(congruence) He) as [-> ->]. auto.
Qed.

Lemma str_app_inj_r (a a' b b' : string) :
  length b = length b' -> a ++ b = a' ++ b' -> a = a' /\ b = b'.
Proof.
  intros Hl He. apply str_app_inj_l; [|exact He].
  apply (f_equal length) in He. rewrite !length_app in He. lia.
Qed.

End StrFacts.

(** ** Identity marker of the EventKit notes *)
Module MarkerProofs.
Import CalendarService StrFacts.
Import EventKitSamples.

(** C8: the identity written into the notes by [createEvent] is read back
    by [extractShiftUID], with or without a memo after it, for every
    identity without a line break; an event whose notes carry no
    [shift-uid:] marker yields no identity. *)
Theorem extractShiftUID_roundtrip (sh : Shift) (s s' : store) (e : EKEvent) :
  Str.contains (uid sh) newline = false ->
  createEvent sh s = Done e s' ->
  extractShiftUID e = Some (uid sh)
  /\ (forall e0 : EKEvent, has_marker e0 = false -> extractShiftUID e0 = None).
Proof.
  intros Hnl Hc. split.
  - unfold createEvent in Hc. injection Hc as <- _.
    unfold extractShiftUID. cbn [notes]. unfold shift_notes.
    destruct (String.eqb (memo sh) "").
    + rewrite after_first_app. unfold upto_newline.
      pose proof (splitn2_nl_app (uid sh) "" Hnl) as P.
      rewrite string_app_nil in P. rewrite P.
      change (fst (GoParse.splitn2 newline "")) with "". rewrite string_app_nil.
      reflexivity.
    + rewrite after_first_app. unfold upto_newline.
      rewrite (splitn2_nl_app (uid sh) _ Hnl).
      change (fst (GoParse.splitn2 newline (newline ++ memo sh))) with "".
      rewrite string_app_nil. reflexivity.
  - intros e0. unfold has_marker, extractShiftUID.
    destruct (notes e0) as [n|]; [|reflexivity].
    unfold Str.contains. destruct (Str.after_first marker n); [discriminate|reflexivity].
Qed.

Lemma extractShiftUID_roundtrip_witness :
  Str.contains (uid sample_shift) newline = false
  /\ extractShiftUID (mkEvent 0 (Some "バイト") 29114520 29115000 (Some "Store35188")
                        (Some (shift_notes sample_shift)) None)
     = Some (uid sample_shift).
Proof.
  split; [vm_compute; reflexivity|].
  apply (extractShiftUID_roundtrip sample_shift (mkStore [] 0 []) (mkStore [] 1 [])).
  - vm_compute; reflexivity.
  - reflexivity.
Defined.

End MarkerProofs.

Ltac break_match_in H :=
  match type of H with
  | context [match ?x with _ => _ end] => destruct x eqn:?
  end.

(** ** The row parser *)
Module ParseProofs.
Import GoMain GoParse.
Import GoSamples.

Lemma parseRow_start_neq_end (year : Z) (d s t : string) (sh : shift) :
  parseRow year d s t = Some sh -> Start sh <> End sh.
Proof.
  unfold parseRow. intros H.
  repeat (break_match_in H; try discriminate).
  injection H as <-. simpl. apply Z.eqb_neq. assumption.
Qed.

(** C9 (as the code has it): every record of [parseShifts] has distinct
    start and end; rows whose start equals their end are dropped. *)
Theorem parseRows_start_neq_end (year : Z) (rows : list (string * string * string))
    (sh : shift) :
  In sh (parseRows year rows) -> Start sh <> End sh.
Proof.
  destruct rows as [|hd body]; simpl; [contradiction|].
  intros Hin. apply in_flat_map in Hin as [[[d s] t] [_ Hin]].
  destruct (parseRow year d s t) as [sh'|] eqn:E; [|contradiction].
  destruct Hin as [<-|[]]. exact (parseRow_start_neq_end year d s t sh' E).
Qed.

Lemma parseRows_start_neq_end_witness :
  parseRows 2025 sample_rows
  = [mkShift baito (GoTime.date 2025 5 10 10 0) (GoTime.date 2025 5 10 18 0) "StoreA" ""]
  /\ Start (mkShift baito (GoTime.date 2025 5 10 10 0) (GoTime.date 2025 5 10 18 0)
                    "StoreA" "")
     <> End (mkShift baito (GoTime.date 2025 5 10 10 0) (GoTime.date 2025 5 10 18 0)
                     "StoreA" "").
Proof.
  split; [vm_compute; reflexivity|].
  apply (parseRows_start_neq_end 2025 sample_rows). vm_compute. left. reflexivity.
Defined.

(** C9 fails: an overnight row puts its end on the same date, before its
    start, and the record is emitted. *)
Lemma parseRows_overnight_end_before_start :
  exists sh, In sh (parseRows 2025 [("日付", "店舗", "時間");
                                     ("5/10(土)", "StoreA", "●22:00-02:00")])
             /\ End sh < Start sh.
Proof.
  exists (mkShift baito (GoTime.date 2025 5 10 22 0) (GoTime.date 2025 5 10 2 0)
                  "StoreA" "").
  split; [vm_compute; left; reflexivity | vm_compute; reflexivity].
Qed.

End ParseProofs.

(** ** Identities: a concrete collision of the truncated hash *)
Module IdentityCollision.
Import GoMain.
Import GoSamples.

(** C6 fails: two shifts at different locations share one identity, as the
    first 8 hex digits of the SHA-1 of their keys agree ([7e82a0ca]). *)
Lemma makeShiftUID_location_collision :
  Location (at_store "Store35188") <> Location (at_store "Store146832")
  /\ makeShiftUID (at_store "Store35188") = makeShiftUID (at_store "Store146832")
  /\ makeShiftUID (at_store "Store35188") = "shift-20250601-1000-1800-7e82a0ca".
Proof.
  split; [simpl; discriminate|].
  split; vm_compute; reflexivity.
Qed.

End IdentityCollision.

(** ** Concrete runs of the two sync paths *)
Module SyncRuns.
Import GoMain GoCalDAV.
Import GoSamples.

(** C2 fails on the Go CLI: a shift that ended on 2025-06-01 18:00 and is no
    longer scraped is deleted by a run on 2025-06-02. *)
Lemma caldav_deletes_past_event :
  let now := GoTime.date 2025 6 2 0 0 in
  let st0 := mkState (mkServer [(url_of june1, june1)] false) [] in
  let '(err, st) := syncShiftsToCalDAV (all_ok 204) [] cal st0 in
  End june1 < now /\ err = None /\ resources (srv st) = []
  /\ In (LReq DELETE (url_of june1)) (log st).
Proof. vm_compute. repeat split; auto. Qed.

(** C3 fails on the Go CLI: when PROPFIND fails, the run logs the error,
    plans against an empty existing set, PUTs the desired shift and returns
    no error. *)
Lemma caldav_list_failure_still_writes :
  let st0 := mkState (mkServer [] true) [] in
  let '(err, st) := syncShiftsToCalDAV (all_ok 201) [june20] cal st0 in
  err = None /\ resources (srv st) = [(url_of june20, june20)]
  /\ log st = [LListErr; LReq PUT (url_of june20); LOk 201].
Proof. vm_compute. repeat split; auto. Qed.

End SyncRuns.

Module EventKitRuns.
Import CalendarService.
Import EventKitSamples.

(** C7 on the EventKit path: the same shift listed twice on an empty
    calendar is created twice ([added = 2], two saves of new events); only
    the closing deduplication removes one of them. *)
Lemma eventkit_duplicate_rows_created_twice :
  match syncShifts never [sh; sh] 29000000 29300000 29100000 (mkStore [] 0 []) with
  | Done r s =>
      added r = 2
      /\ List.length (filter is_save (writes s)) = 2%nat
      /\ List.length (events s) = 1%nat
  | Thrown _ _ => False
  end.
Proof. vm_compute. repeat split; reflexivity. Qed.

(** C4 fails on the EventKit path: the failing delete of [stale] throws out
    of [syncShifts]; the desired shift is never saved and no [SyncResult]
    is returned. *)
Lemma eventkit_failed_delete_aborts_run :
  match syncShifts remove_fails [sh] 29000000 29300000 29100000 (mkStore [stale] 8 []) with
  | Thrown (WRemove e) s => e = stale /\ existsb is_save (writes s) = false
  | _ => False
  end.
Proof. vm_compute. split; reflexivity. Qed.

End EventKitRuns.

(** ** The deduplication pass *)
Module DedupProofs.
Import CalendarService EventKitChecks.


Lemma pref_ge_refl (e : EKEvent) : pref_ge e e.
Proof. right. split; [reflexivity|]. right. lia. Qed.

Lemma pref_ge_trans (a b c : EKEvent) : pref_ge a b -> pref_ge b c -> pref_ge a c.
Proof. unfold pref_ge. lia. Qed.

Lemma preferredEvent_cases (l r : EKEvent) :
  (preferredEvent l r = l \/ preferredEvent l r = r)
  /\ pref_ge (preferredEvent l r) l /\ pref_ge (preferredEvent l r) r.
Proof.
  unfold preferredEvent, pref_ge.
  destruct (modified l =? modified r) eqn:E1; simpl.
  - apply Z.eqb_eq in E1.
    destruct (eventQualityScore l =? eventQualityScore r) eqn:E2; simpl.
    + apply Z.eqb_eq in E2.
      destruct (startDate l <=? startDate r) eqn:E3;
        [apply Z.leb_le in E3 | apply Z.leb_gt in E3]; (split; [auto | split; lia]).
    + apply Z.eqb_neq in E2.
      destruct (eventQualityScore r <=? eventQualityScore l) eqn:E3;
        [apply Z.leb_le in E3 | apply Z.leb_gt in E3]; (split; [auto | split; lia]).
  - apply Z.eqb_neq in E1.
    destruct (modified r <? modified l) eqn:E3;
      [apply Z.ltb_lt in E3 | apply Z.ltb_ge in E3]; (split; [auto | split; lia]).
Qed.

Lemma lookup_assign_same (u : string) (v : EKEvent) (m : list (string * EKEvent)) :
  lookup u (assign u v m) = Some v.
Proof.
  induction m as [|[k w] m IH]; simpl.
  - rewrite String.eqb_refl. reflexivity.
  - destruct (String.eqb k u) eqn:E; simpl; rewrite E; [reflexivity | exact IH].
Qed.

Lemma lookup_assign_other (u u' : string) (v : EKEvent) (m : list (string * EKEvent)) :
  u' <> u -> lookup u' (assign u v m) = lookup u' m.
Proof.
  intros Hne. induction m as [|[k w] m IH]; simpl.
  - destruct (String.eqb u u') eqn:E; [apply String.eqb_eq in E; congruence|reflexivity].
  - destruct (String.eqb k u) eqn:E; simpl.
    + apply String.eqb_eq in E. subst k.
      destruct (String.eqb u u') eqn:E'; [apply String.eqb_eq in E'; congruence|].
      reflexivity.
    + destruct (String.eqb k u'); [reflexivity | exact IH].
Qed.

Lemma lookup_in (u : string) (w : EKEvent) (m : list (string * EKEvent)) :
  lookup u m = Some w -> In (u, w) m.
Proof.
  induction m as [|[k x] m IH]; simpl; [discriminate|].
  destruct (String.eqb k u) eqn:E.
  - apply String.eqb_eq in E. intros [=]. subst. left. reflexivity.
  - intros H. right. exact (IH H).
Qed.

Lemma in_lookup (u : string) (w : EKEvent) (m : list (string * EKEvent)) :
  NoDup (map fst m) -> In (u, w) m -> lookup u m = Some w.
Proof.
  induction m as [|[k x] m IH]; simpl; [contradiction|].
  intros Hnd Hin. inversion Hnd as [|? ? Hk Hnd']; subst.
  destruct (String.eqb k u) eqn:E.
  - apply String.eqb_eq in E. subst k.
    destruct Hin as [[=]|Hin]; [subst; reflexivity|].
    exfalso. apply Hk. change u with (fst (u, w)). apply in_map. exact Hin.
  - destruct Hin as [[=]|Hin]; [subst; rewrite String.eqb_refl in E; discriminate|].
    exact (IH Hnd' Hin).
Qed.

Lemma lookup_none_notin (u : string) (m : list (string * EKEvent)) :
  lookup u m = None -> ~ In u (map fst m).
Proof.
  induction m as [|[k x] m IH]; simpl; [auto|].
  destruct (String.eqb k u) eqn:E; [discriminate|].
  intros H [->|Hin]; [rewrite String.eqb_refl in E; discriminate | exact (IH H Hin)].
Qed.

Lemma map_fst_assign_new (u : string) (v : EKEvent) (m : list (string * EKEvent)) :
  lookup u m = None -> map fst (assign u v m) = (map fst m ++ [u])%list.
Proof.
  induction m as [|[k x] m IH]; simpl; [reflexivity|].
  destruct (String.eqb k u) eqn:E; [discriminate|].
  intros H. simpl. f_equal. exact (IH H).
Qed.

Lemma map_snd_assign_new (u : string) (v : EKEvent) (m : list (string * EKEvent)) :
  lookup u m = None -> map snd (assign u v m) = (map snd m ++ [v])%list.
Proof.
  induction m as [|[k x] m IH]; simpl; [reflexivity|].
  destruct (String.eqb k u) eqn:E; [discriminate|].
  intros H. simpl. f_equal. exact (IH H).
Qed.

Lemma map_fst_assign_old (u : string) (v : EKEvent) (m : list (string * EKEvent)) :
  lookup u m <> None -> map fst (assign u v m) = map fst m.
Proof.
  induction m as [|[k x] m IH]; simpl; [contradiction|].
  destruct (String.eqb k u) eqn:E; simpl.
  - apply String.eqb_eq in E. subst. reflexivity.
  - intros H. f_equal. exact (IH H).
Qed.

Lemma perm_assign_old (u : string) (v ex : EKEvent) (m : list (string * EKEvent)) :
  lookup u m = Some ex ->
  Permutation (v :: map snd m) (ex :: map snd (assign u v m)).
Proof.
  induction m as [|[k x] m IH]; simpl; [discriminate|].
  destruct (String.eqb k u) eqn:E; simpl.
  - intros [=]. subst. apply perm_swap.
  - intros H. eapply perm_trans; [apply perm_swap|].
    eapply perm_trans; [apply perm_skip, IH, H|]. apply perm_swap.
Qed.

Lemma in_assign (u k : string) (v w : EKEvent) (m : list (string * EKEvent)) :
  In (k, w) (assign u v m) -> (k = u /\ w = v) \/ In (k, w) m.
Proof.
  induction m as [|[k' x] m IH]; simpl.
  - intros [[=]|[]]. left. auto.
  - destruct (String.eqb k' u) eqn:E; simpl.
    + apply String.eqb_eq in E. subst k'.
      intros [[=]|H]; [subst; left; auto | right; right; exact H].
    + intros [[=]|H]; [subst; right; left; reflexivity|].
      destruct (IH H) as [H'|H']; [left; exact H' | right; right; exact H'].
Qed.



Lemma sel_inv_nil : sel_inv [] ([], []).
Proof.
  repeat split; simpl; try constructor; try contradiction.
Qed.

Lemma sel_inv_step (p : list EKEvent) (acc : list (string * EKEvent) * list EKEvent)
    (e : EKEvent) :
  (forall x, In x p -> ev_id x <> ev_id e) ->
  sel_inv p acc -> sel_inv (p ++ [e]) (dedup_step acc e).
Proof.
  destruct acc as [sel dups]. intros Hid (Hnd & Hsel & Hbest & Hperm).
  unfold dedup_step.
  destruct (extractShiftUID e) as [u|] eqn:Eu.
  2:{ refine (conj _ (conj _ (conj _ _))).
      - exact Hnd.
      - intros u1 w1 Hin. destruct (Hsel u1 w1 Hin). split; [assumption|].
        apply in_or_app. left. assumption.
      - intros e0 u0 Hin He0. apply in_app_or in Hin as [Hin|[<-|[]]].
        + exact (Hbest e0 u0 Hin He0).
        + congruence.
      - rewrite filter_app. simpl. unfold managed at 2. rewrite Eu.
        rewrite app_nil_r. exact Hperm. }
  destruct (lookup u sel) as [ex|] eqn:El.
  - destruct (preferredEvent_cases ex e) as [Hpe [Hgex Hge]].
    set (pv := preferredEvent ex e) in *.
    assert (Hex : extractShiftUID ex = Some u /\ In ex p)
      by exact (Hsel u ex (lookup_in u ex sel El)).
    refine (conj _ (conj _ (conj _ _))).
    + rewrite map_fst_assign_old by congruence. exact Hnd.
    + intros u0 w Hin. apply in_assign in Hin as [[-> ->]|Hin].
      * destruct Hpe as [-> | ->]; split; try tauto.
        -- apply in_or_app. left. tauto.
        -- apply in_or_app. right. left. reflexivity.
      * destruct (Hsel u0 w Hin). split; [assumption|]. apply in_or_app. left. assumption.
    + intros e0 u0 Hin He0.
      destruct (String.eqb u0 u) eqn:Eq.
      * apply String.eqb_eq in Eq. subst u0.
        exists pv. split; [apply lookup_assign_same|].
        apply in_app_or in Hin as [Hin|[<-|[]]]; [|exact Hge].
        destruct (Hbest e0 u Hin He0) as [w [Hw Hge0]].
        rewrite El in Hw. injection Hw as <-. exact (pref_ge_trans _ _ _ Hgex Hge0).
      * apply String.eqb_neq in Eq.
        rewrite lookup_assign_other by exact Eq.
        apply in_app_or in Hin as [Hin|[<-|[]]]; [exact (Hbest e0 u0 Hin He0)|congruence].
    + rewrite filter_app. simpl. unfold managed at 2. rewrite Eu.
      assert (Hne : ev_id ex <> ev_id e) by exact (Hid ex (proj2 Hex)).
      destruct Hpe as [Hp|Hp]; rewrite Hp.
      * rewrite Nat.eqb_refl.
        pose proof (perm_assign_old u ex ex sel El) as P.
        apply (Permutation_trans (l' := (map snd sel ++ dups) ++ [e])).
        -- rewrite <- app_assoc. apply Permutation_app_tail.
           apply Permutation_cons_inv with (a := ex). symmetry. exact P.
        -- apply Permutation_app_tail. exact Hperm.
      * destruct (Nat.eqb (ev_id e) (ev_id ex)) eqn:Ei;
          [apply Nat.eqb_eq in Ei; congruence|].
        pose proof (perm_assign_old u e ex sel El) as P.
        transitivity (((map snd sel ++ dups) ++ [e]))%list; [|apply Permutation_app_tail; exact Hperm].
        transitivity ((ex :: map snd (assign u e sel) ++ dups))%list.
        { rewrite app_assoc. symmetry. apply Permutation_cons_append. }
        transitivity ((e :: map snd sel ++ dups))%list.
        { apply (Permutation_app_tail dups) in P. symmetry. exact P. }
        apply Permutation_cons_append.
  - refine (conj _ (conj _ (conj _ _))).
    + rewrite map_fst_assign_new by exact El.
      apply NoDup_app; [exact Hnd | repeat constructor; auto |].
      intros x Hx [<-|[]]. exact (lookup_none_notin _ _ El Hx).
    + intros u0 w Hin. apply in_assign in Hin as [[-> ->]|Hin].
      * split; [exact Eu|]. apply in_or_app. right. left. reflexivity.
      * destruct (Hsel u0 w Hin). split; [assumption|]. apply in_or_app. left. assumption.
    + intros e0 u0 Hin He0.
      destruct (String.eqb u0 u) eqn:Eq.
      * apply String.eqb_eq in Eq. subst u0.
        apply in_app_or in Hin as [Hin|[<-|[]]].
        -- destruct (Hbest e0 u Hin He0) as [w [Hw _]]. congruence.
        -- exists e. split; [apply lookup_assign_same | apply pref_ge_refl].
      * apply String.eqb_neq in Eq.
        rewrite lookup_assign_other by exact Eq.
        apply in_app_or in Hin as [Hin|[<-|[]]]; [exact (Hbest e0 u0 Hin He0)|congruence].
    + rewrite filter_app. simpl. unfold managed at 2. rewrite Eu.
      rewrite (map_snd_assign_new u e sel El), <- app_assoc.
      transitivity ((e :: map snd sel ++ dups))%list.
      { apply Permutation_sym, Permutation_middle. }
      transitivity (((map snd sel ++ dups) ++ [e]))%list.
      { apply Permutation_cons_append. }
      apply Permutation_app_tail. exact Hperm.
Qed.

Lemma sel_inv_fold (l p : list EKEvent) (acc : list (string * EKEvent) * list EKEvent) :
  NoDup (map ev_id (p ++ l)) -> sel_inv p acc ->
  sel_inv (p ++ l) (fold_left dedup_step l acc).
Proof.
  revert p acc. induction l as [|e l IH]; intros p acc Hnd Hinv; simpl.
  - rewrite app_nil_r. exact Hinv.
  - replace (p ++ e :: l)%list with ((p ++ [e]) ++ l)%list in * by (rewrite <- app_assoc; reflexivity).
    apply IH; [exact Hnd|].
    apply sel_inv_step; [|exact Hinv].
    intros x Hx Heq. rewrite map_app in Hnd.
    apply NoDup_app_remove_r in Hnd. rewrite map_app in Hnd. simpl in Hnd.
    apply (NoDup_remove_2 (map ev_id p) [] (ev_id e)); [exact Hnd|].
    rewrite app_nil_r. rewrite <- Heq. apply in_map. exact Hx.
Qed.


Lemma fold_no_dups (l : list EKEvent) (sel : list (string * EKEvent)) (d : list EKEvent) :
  NoDup (managed_uids l) -> (forall u, In u (managed_uids l) -> lookup u sel = None) ->
  snd (fold_left dedup_step l (sel, d)) = d.
Proof.
  revert sel. induction l as [|e l IH]; intros sel Hnd Hfresh; simpl; [reflexivity|].
  unfold managed_uids in Hnd, Hfresh. simpl in Hnd, Hfresh.
  destruct (extractShiftUID e) as [u|] eqn:Eu; simpl in Hnd, Hfresh.
  - rewrite (Hfresh u (or_introl eq_refl)).
    inversion Hnd as [|? ? Hnotin Hnd']; subst.
    apply IH; [exact Hnd'|].
    intros u' Hu'. rewrite lookup_assign_other.
    + exact (Hfresh u' (or_intror Hu')).
    + intros ->. exact (Hnotin Hu').
  - apply IH; assumption.
Qed.

Lemma sel_uids (sel : list (string * EKEvent)) :
  (forall u w, In (u, w) sel -> extractShiftUID w = Some u) ->
  managed_uids (map snd sel) = map fst sel.
Proof.
  induction sel as [|[k w] sel IH]; intros H; [reflexivity|].
  unfold managed_uids in *. simpl. rewrite (H k w (or_introl eq_refl)). simpl.
  f_equal. apply IH. intros u w' Hin. exact (H u w' (or_intror Hin)).
Qed.

Lemma insert_by_start_perm (e : EKEvent) (l : list EKEvent) :
  Permutation (insert_by_start e l) (e :: l).
Proof.
  induction l as [|x l IH]; simpl; [reflexivity|].
  destruct (startDate e <? startDate x); [reflexivity|].
  transitivity (x :: e :: l); [apply perm_skip, IH | apply perm_swap].
Qed.

Lemma sort_by_start_perm (l : list EKEvent) : Permutation (sort_by_start l) l.
Proof.
  unfold sort_by_start.
  assert (H : forall acc, Permutation
            (fold_left (fun acc e => insert_by_start e acc) l acc) (l ++ acc)%list).
  { induction l as [|e l IH]; intros acc; simpl; [reflexivity|].
    rewrite IH, insert_by_start_perm. apply Permutation_sym, Permutation_middle. }
  rewrite H, app_nil_r. reflexivity.
Qed.

Lemma removes_ok (fails : write -> bool) (l : list EKEvent) (s : store) :
  (forall d, In d l -> fails (WRemove d) = false) ->
  foldM (fun _ d => remove fails d) l tt s
  = Done tt (mkStore (filter (fun x => negb (existsb (fun d => Nat.eqb (ev_id x) (ev_id d)) l))
                             (events s))
                     (next_id s) (writes s ++ map WRemove l)%list).
Proof.
  revert s. induction l as [|d l IH]; intros s Hok; simpl.
  - destruct s as [evs n ws]. unfold ret. simpl. rewrite app_nil_r. f_equal. f_equal.
    induction evs as [|x evs IHe]; simpl; [reflexivity|]. f_equal. exact IHe.
  - unfold bind, remove, issue. simpl. rewrite (Hok d (or_introl eq_refl)).
    rewrite IH by (intros d' Hd'; exact (Hok d' (or_intror Hd'))). simpl.
    rewrite <- app_assoc. simpl. f_equal. f_equal.
    induction (events s) as [|x evs IHe]; simpl; [reflexivity|].
    destruct (Nat.eqb (ev_id x) (ev_id d)); simpl; [exact IHe|].
    destruct (negb (existsb (fun d0 => Nat.eqb (ev_id x) (ev_id d0)) l));
      [f_equal|]; exact IHe.
Qed.

Lemma filter_all {A} (f : A -> bool) (l : list A) :
  (forall x, In x l -> f x = true) -> filter f l = l.
Proof.
  induction l as [|x l IH]; intros H; simpl; [reflexivity|].
  rewrite (H x (or_introl eq_refl)). f_equal. apply IH. intros y Hy. exact (H y (or_intror Hy)).
Qed.

Lemma NoDup_map_filter {A B} (f : A -> B) (g : A -> bool) (l : list A) :
  NoDup (map f l) -> NoDup (map f (filter g l)).
Proof.
  induction l as [|x l IH]; simpl; intros H; [constructor|].
  inversion H as [|? ? Hn H']; subst.
  destruct (g x); simpl; [|exact (IH H')].
  constructor; [|exact (IH H')].
  intros Hin. apply Hn. apply in_map_iff in Hin as [y [<- Hy]].
  apply filter_In in Hy as [Hy _]. apply in_map. exact Hy.
Qed.

Lemma dedup_select_inv (evs : list EKEvent) :
  NoDup (map ev_id evs) -> sel_inv evs (dedup_select evs).
Proof.
  intros Hnd. exact (sel_inv_fold evs [] ([], []) Hnd sel_inv_nil).
Qed.

(** a list of survivors, one per identifier, goes through the pass unchanged *)
Lemma dedup_survivors_stable (fails : write -> bool) (sel : list (string * EKEvent))
    (s : store) :
  NoDup (map fst sel) ->
  (forall u w, In (u, w) sel -> extractShiftUID w = Some u) ->
  NoDup (map ev_id (map snd sel)) ->
  exists r, deduplicateShiftEvents fails (sort_by_start (map snd sel)) s = Done r s
            /\ Permutation r (map snd sel).
Proof.
  intros Hk Hu Hid.
  set (r := sort_by_start (map snd sel)).
  assert (Pr : Permutation r (map snd sel)) by apply sort_by_start_perm.
  assert (Hm : forall x, In x r -> managed x = true).
  { intros x Hx. apply (Permutation_in _ Pr) in Hx.
    apply in_map_iff in Hx as [[u w] [<- Hin]]. simpl.
    unfold managed. rewrite (Hu u w Hin). reflexivity. }
  assert (Hidr : NoDup (map ev_id r)).
  { apply (Permutation_NoDup (l := map ev_id (map snd sel))); [|exact Hid].
    apply Permutation_map. symmetry. exact Pr. }
  pose proof (dedup_select_inv r Hidr) as Hinv.
  unfold deduplicateShiftEvents.
  destruct (dedup_select r) as [sel' d'] eqn:Ed.
  assert (Hd : d' = []).
  { change d' with (snd (sel', d')). rewrite <- Ed. unfold dedup_select.
    apply fold_no_dups; [|reflexivity].
    apply (Permutation_NoDup (l := managed_uids (map snd sel))).
    - unfold managed_uids. apply Permutation_flat_map. symmetry. exact Pr.
    - rewrite sel_uids by exact Hu. exact Hk. }
  subst d'. simpl. unfold bind, ret. simpl.
  eexists. split; [reflexivity|].
  destruct Hinv as (_ & _ & _ & Hp). rewrite app_nil_r, filter_all in Hp by exact Hm.
  rewrite sort_by_start_perm, Hp. exact Pr.
Qed.

(** C5: for events with distinct object ids, the selection loop of
    [deduplicateShiftEvents] keeps exactly one survivor per identifier, taken
    from the events carrying it; the survivors and the removed duplicates
    together are exactly the managed events; the survivor of an identifier is
    at least as preferred as every event carrying it (later [lastModifiedDate]
    first, then higher [eventQualityScore], then earlier start); when no remove
    throws, the pass removes exactly the duplicates and returns the survivors
    sorted by start; and a second pass over that result removes nothing and
    leaves the store untouched. *)
Theorem deduplicate_one_survivor_per_uid (fails : write -> bool) (evs : list EKEvent) :
  NoDup (map ev_id evs) ->
  let '(sel, dups) := dedup_select evs in
  NoDup (map fst sel)
  /\ (forall u w, In (u, w) sel -> extractShiftUID w = Some u /\ In w evs)
  /\ (forall e u, In e evs -> extractShiftUID e = Some u ->
        exists w, lookup u sel = Some w /\ pref_ge w e)
  /\ Permutation (map snd sel ++ dups)%list (filter managed evs)
  /\ (forall s, (forall d, In d dups -> fails (WRemove d) = false) ->
        deduplicateShiftEvents fails evs s
        = Done (sort_by_start (map snd sel))
               (mkStore (filter (fun x => negb (existsb (fun d => Nat.eqb (ev_id x) (ev_id d))
                                                        dups)) (events s))
                        (next_id s) (writes s ++ map WRemove dups)%list))
  /\ (forall s, exists r,
        deduplicateShiftEvents fails (sort_by_start (map snd sel)) s = Done r s
        /\ Permutation r (map snd sel)).
Proof.
  intros Hnd. pose proof (dedup_select_inv evs Hnd) as Hinv.
  destruct (dedup_select evs) as [sel dups] eqn:Ed.
  destruct Hinv as (Hk & Hsel & Hbest & Hperm).
  refine (conj Hk (conj Hsel (conj Hbest (conj Hperm (conj _ _))))).
  - intros s Hok. unfold deduplicateShiftEvents. rewrite Ed.
    unfold bind. rewrite (removes_ok fails dups s Hok). reflexivity.
  - intros s. apply dedup_survivors_stable.
    + exact Hk.
    + intros u w Hin. exact (proj1 (Hsel u w Hin)).
    + apply (NoDup_map_filter ev_id managed) in Hnd.
      apply (Permutation_NoDup (l := map ev_id (filter managed evs))
                               (l' := map ev_id (map snd sel ++ dups)%list)) in Hnd;
        [|apply Permutation_map; symmetry; exact Hperm].
      rewrite map_app in Hnd. exact (NoDup_app_remove_r _ _ Hnd).
Qed.

Lemma deduplicate_one_survivor_per_uid_witness :
  NoDup (map ev_id Fixtures.dup_events)
  /\ dedup_select Fixtures.dup_events
     = ([("shift-a", Fixtures.ev_a_new); ("shift-b", Fixtures.ev_b)], [Fixtures.ev_a_old])
  /\ Permutation [Fixtures.ev_a_new; Fixtures.ev_b; Fixtures.ev_a_old]
                 (filter managed Fixtures.dup_events).
Proof.
  assert (Hnd : NoDup (map ev_id Fixtures.dup_events))
    by (simpl; repeat constructor; simpl; lia).
  assert (Ed : dedup_select Fixtures.dup_events
               = ([("shift-a", Fixtures.ev_a_new); ("shift-b", Fixtures.ev_b)],
                  [Fixtures.ev_a_old])) by (vm_compute; reflexivity).
  pose proof (deduplicate_one_survivor_per_uid (fun _ => false) Fixtures.dup_events Hnd) as T.
  rewrite Ed in T. destruct T as (_ & _ & _ & P & _).
  exact (conj Hnd (conj Ed P)).
Defined.

End DedupProofs.

(** ** What the identifier of a shift is made of *)
Module UidProofs.
Import GoMain StrFacts.

Lemma forall_from_spec (f : Z -> bool) (i : Z) (n : nat) :
  Checks.forall_from f i n = true -> forall j, i <= j < i + Z.of_nat n -> f j = true.
Proof.
  revert i. induction n as [|n IH]; intros i H j Hj; simpl in *; [lia|].
  apply andb_prop in H as [Hi Hr].
  destruct (Z.eq_dec j i) as [->|Hne]; [exact Hi|].
  apply (IH (i + 1) Hr). lia.
Qed.

Lemma reads_back_spec (w : nat) (x : Z) :
  Checks.reads_back w x = true ->
  length (Dec.fmt_int x w) = w /\ Dec.parse_digits (Dec.fmt_int x w) 0 = Some x.
Proof.
  unfold Checks.reads_back. intros H. apply andb_prop in H as [H1 H2].
  apply Nat.eqb_eq in H1. split; [exact H1|].
  destruct (Dec.parse_digits (Dec.fmt_int x w) 0) as [v|]; simpl in H2; [|discriminate].
  apply Z.eqb_eq in H2. subst. reflexivity.
Qed.

Lemma two_digits (x : Z) :
  0 <= x < 100 ->
  length (Dec.fmt_int x 2) = 2%nat /\ Dec.parse_digits (Dec.fmt_int x 2) 0 = Some x.
Proof.
  intros Hx. apply reads_back_spec.
  apply (forall_from_spec _ 0 100); [vm_compute; reflexivity | simpl; lia].
Qed.

Lemma four_digits (x : Z) :
  0 <= x < 10000 ->
  length (Dec.fmt_int x 4) = 4%nat /\ Dec.parse_digits (Dec.fmt_int x 4) 0 = Some x.
Proof.
  intros Hx. apply reads_back_spec.
  apply (forall_from_spec _ 0 (Z.to_nat 10000)); [vm_compute; reflexivity | rewrite Z2Nat.id; lia].
Qed.

Lemma civil_of_doe_ok (doe : Z) :
  0 <= doe < 146097 -> Checks.civil_ok doe = true.
Proof.
  intros Hd. apply (forall_from_spec _ 0 (Z.to_nat 146097)); [vm_compute; reflexivity | rewrite Z2Nat.id; lia].
Qed.

Lemma fmt_hm_length (t : Z) : length (GoTime.fmt_hm t) = 4%nat.
Proof.
  unfold GoTime.fmt_hm. rewrite length_app.
  pose proof (Z.mod_pos_bound t 1440 ltac:(lia)).
  rewrite (proj1 (two_digits ((t mod 1440) / 60) ltac:(split; [apply Z.div_pos | apply Z.div_lt_upper_bound]; lia))).
  rewrite (proj1 (two_digits ((t mod 1440) mod 60) ltac:(pose proof (Z.mod_pos_bound (t mod 1440) 60); lia))).
  reflexivity.
Qed.

Lemma fmt_hm_inj (t t' : Z) : GoTime.fmt_hm t = GoTime.fmt_hm t' -> t mod 1440 = t' mod 1440.
Proof.
  unfold GoTime.fmt_hm. intros He.
  pose proof (Z.mod_pos_bound t 1440 ltac:(lia)).
  pose proof (Z.mod_pos_bound t' 1440 ltac:(lia)).
  set (m := t mod 1440) in *. set (m' := t' mod 1440) in *.
  assert (Bh : 0 <= m / 60 < 100) by (split; [apply Z.div_pos | apply Z.div_lt_upper_bound]; lia).
  assert (Bh' : 0 <= m' / 60 < 100) by (split; [apply Z.div_pos | apply Z.div_lt_upper_bound]; lia).
  assert (Bm : 0 <= m mod 60 < 100) by (pose proof (Z.mod_pos_bound m 60); lia).
  assert (Bm' : 0 <= m' mod 60 < 100) by (pose proof (Z.mod_pos_bound m' 60); lia).
  destruct (two_digits _ Bh) as [Lh Ph]. destruct (two_digits _ Bh') as [Lh' Ph'].
  destruct (two_digits _ Bm) as [_ Pm]. destruct (two_digits _ Bm') as [_ Pm'].
  apply str_app_inj_l in He as [Eh Em]; [|congruence].
  rewrite Eh in Ph. rewrite Em in Pm.
  rewrite (Z.div_mod m 60), (Z.div_mod m' 60) by lia. congruence.
Qed.

Lemma be_bytes_length (k : nat) (x : Z) : List.length (Sha1.be_bytes k x) = k.
Proof.
  revert x. induction k as [|k IH]; intros x; simpl; [reflexivity|].
  rewrite List.length_app, IH. simpl. lia.
Qed.

Lemma sum_length (msg : list Z) : List.length (Sha1.sum msg) = 20%nat.
Proof.
  unfold Sha1.sum.
  destruct (fold_left _ _ _) as [[[[h0 h1] h2] h3] h4].
  rewrite !List.length_app, !be_bytes_length. reflexivity.
Qed.

Lemma hex_length (bs : list Z) : length (Sha1.hex bs) = (2 * List.length bs)%nat.
Proof. induction bs as [|b bs IH]; simpl; [reflexivity|]. rewrite IH. lia. Qed.

Lemma substring_0_length (n : nat) (s : string) :
  (n <= length s)%nat -> length (substring 0 n s) = n.
Proof.
  revert s. induction n as [|n IH]; intros [|c s] H; simpl in *; try lia.
  rewrite IH by lia. reflexivity.
Qed.

Lemma hash_length (key : string) :
  length (substring 0 8 (Sha1.hex (Sha1.sum (Str.bytes key)))) = 8%nat.
Proof. apply substring_0_length. rewrite hex_length, sum_length. lia. Qed.

Lemma civil_from_days_ok (z : Z) :
  let '(y, m, d) := GoTime.civil_from_days z in
  GoTime.days_from_civil y m d = z /\ 1 <= m <= 12 /\ 1 <= d <= 31.
Proof.
  unfold GoTime.civil_from_days.
  pose proof (Z.mod_pos_bound (z + 719468) 146097 ltac:(lia)) as Hb.
  pose proof (Z.div_mod (z + 719468) 146097 ltac:(lia)) as Hdm.
  set (era := (z + 719468) / 146097) in *.
  set (doe := (z + 719468) mod 146097) in *.
  pose proof (civil_of_doe_ok doe Hb) as Hc. unfold Checks.civil_ok in Hc.
  destruct (GoTime.civil_of_doe doe) as [[yoe m] d].
  repeat match type of Hc with
         | (_ && _)%bool = true => apply andb_prop in Hc as [Hc ?]
         end.
  rewrite Z.eqb_eq in Hc.
  repeat match goal with
         | H : (_ <=? _) = true |- _ => apply Z.leb_le in H
         | H : (_ <? _) = true |- _ => apply Z.ltb_lt in H
         end.
  split; [|lia].
  unfold GoTime.days_from_civil.
  assert (Hy : (if m <=? 2 then yoe + era * 400 + (if m <=? 2 then 1 else 0) - 1
                else yoe + era * 400 + (if m <=? 2 then 1 else 0)) = yoe + era * 400)
    by (destruct (m <=? 2); lia).
  rewrite Hy.
  assert (He : (yoe + era * 400) / 400 = era)
    by (symmetry; apply (Z.div_unique (yoe + era * 400) 400 era yoe); lia).
  rewrite He. replace (yoe + era * 400 - era * 400) with yoe by lia.
  rewrite Hc. lia.
Qed.

Lemma fmt_date_inj (t t' : Z) :
  0 <= GoTime.year_of t <= 9999 -> 0 <= GoTime.year_of t' <= 9999 ->
  GoTime.fmt_date t = GoTime.fmt_date t' -> t / 1440 = t' / 1440.
Proof.
  unfold GoTime.year_of, GoTime.fmt_date, GoTime.civil.
  pose proof (civil_from_days_ok (t / 1440)) as Ht.
  pose proof (civil_from_days_ok (t' / 1440)) as Ht'.
  destruct (GoTime.civil_from_days (t / 1440)) as [[y m] d].
  destruct (GoTime.civil_from_days (t' / 1440)) as [[y' m'] d'].
  simpl. intros Hy Hy' He.
  destruct Ht as (Rt & Hm & Hd). destruct Ht' as (Rt' & Hm' & Hd').
  destruct (four_digits y ltac:(lia)) as [Ly Py].
  destruct (four_digits y' ltac:(lia)) as [Ly' Py'].
  destruct (two_digits m ltac:(lia)) as [Lm Pm].
  destruct (two_digits m' ltac:(lia)) as [Lm' Pm'].
  destruct (two_digits d ltac:(lia)) as [_ Pd].
  destruct (two_digits d' ltac:(lia)) as [_ Pd'].
  apply str_app_inj_l in He as [Ey He]; [|congruence].
  apply str_app_inj_l in He as [Em Ed]; [|congruence].
  rewrite Ey in Py. rewrite Em in Pm. rewrite Ed in Pd.
  assert (y = y') by congruence. assert (m = m') by congruence. assert (d = d') by congruence.
  subst. congruence.
Qed.

Lemma uid_parts (s : shift) :
  exists h, length h = 8%nat
    /\ makeShiftUID s = ("shift-" ++ GoTime.fmt_date (Start s) ++ "-")
                        ++ (GoTime.fmt_hm (Start s) ++ "-" ++ GoTime.fmt_hm (End s) ++ "-" ++ h).
Proof.
  eexists. split; [apply hash_length|].
  unfold makeShiftUID. rewrite !str_app_assoc. reflexivity.
Qed.

Lemma uid_fields (s s' : shift) :
  makeShiftUID s = makeShiftUID s' ->
  GoTime.fmt_date (Start s) = GoTime.fmt_date (Start s')
  /\ GoTime.fmt_hm (Start s) = GoTime.fmt_hm (Start s')
  /\ GoTime.fmt_hm (End s) = GoTime.fmt_hm (End s').
Proof.
  destruct (uid_parts s) as [h [Lh ->]]. destruct (uid_parts s') as [h' [Lh' ->]].
  intros He. apply str_app_inj_r in He as [Ep Et];
    [|rewrite !length_app, !fmt_hm_length; simpl; rewrite Lh, Lh'; reflexivity].
  apply str_app_inj_l in Et as [E1 Et]; [|rewrite !fmt_hm_length; reflexivity].
  injection Et as Et.
  apply str_app_inj_l in Et as [E2 _]; [|rewrite !fmt_hm_length; reflexivity].
  injection Ep as Ep.
  apply str_app_inj_r in Ep as [E0 _]; [|reflexivity].
  auto.
Qed.

(** C6 (amended): [makeShiftUID] reads only [Start], [End] and [Location] of a
    shift, so equal (start, end, location) give the same identifier whatever the
    title and memo; two shifts with the same identifier start and end at the same
    time of day, and, for start years 0000 to 9999, start at the same minute.
    Moving the start by any amount, or the end by anything but whole days, thus
    changes the identifier; a change of location only reaches the 8-hex-digit
    SHA-1 suffix, which can collide. *)
Theorem makeShiftUID_fields (s s' : shift) :
  (Start s = Start s' -> End s = End s' -> Location s = Location s' ->
     makeShiftUID s = makeShiftUID s')
  /\ (makeShiftUID s = makeShiftUID s' ->
        Start s mod 1440 = Start s' mod 1440
        /\ End s mod 1440 = End s' mod 1440
        /\ (0 <= GoTime.year_of (Start s) <= 9999 -> 0 <= GoTime.year_of (Start s') <= 9999 ->
            Start s = Start s')).
Proof.
  split.
  - intros Hs He Hl. unfold makeShiftUID. rewrite Hs, He, Hl. reflexivity.
  - intros Hu. destruct (uid_fields s s' Hu) as (Ed & Es & Ee).
    apply fmt_hm_inj in Es. apply fmt_hm_inj in Ee.
    refine (conj Es (conj Ee _)). intros Hy Hy'.
    pose proof (fmt_date_inj _ _ Hy Hy' Ed) as Hd.
    rewrite (Z.div_mod (Start s) 1440), (Z.div_mod (Start s') 1440) by lia. congruence.
Qed.

Lemma makeShiftUID_fields_witness :
  makeShiftUID Fixtures.shift_a <> makeShiftUID Fixtures.shift_a_later.
Proof.
  intros Hu. destruct (proj2 (makeShiftUID_fields _ _) Hu) as (_ & _ & Hs).
  assert (E1 : GoTime.year_of (Start Fixtures.shift_a) = 2025) by (vm_compute; reflexivity).
  assert (E2 : GoTime.year_of (Start Fixtures.shift_a_later) = 2025) by (vm_compute; reflexivity).
  rewrite E1, E2 in Hs. specialize (Hs ltac:(lia) ltac:(lia)).
  vm_compute in Hs. discriminate Hs.
Defined.

End UidProofs.

(** ** Facts on the URL and path helpers of [listShiftEventUIDs] *)
Module UrlFacts.
Import StrFacts Checks GoCalDAV.

Lemma all_chars_app (f : ascii -> bool) (a b : string) :
  all_chars f (a ++ b) = all_chars f a && all_chars f b.
Proof. induction a as [|c a IH]; simpl; [reflexivity|]. rewrite IH. apply andb_assoc. Qed.

Lemma all_chars_impl (f g : ascii -> bool) (s : string) :
  (forall c, f c = true -> g c = true) -> all_chars f s = true -> all_chars g s = true.
Proof.
  intros Hfg. induction s as [|c s IH]; simpl; [reflexivity|].
  intros H. apply andb_prop in H as [H1 H2]. rewrite (Hfg c H1), (IH H2). reflexivity.
Qed.

Lemma uid_char_safe (c : ascii) :
  uid_char c = true ->
  not_char "/" c && not_char ":" c && not_char "?" c && not_char "#" c && negb (Str.is_space c)
  = true.
Proof. destruct c as [[] [] [] [] [] [] [] []]; vm_compute; congruence. Qed.

Lemma upto_char_none (x : ascii) (s : string) :
  all_chars (not_char x) s = true -> upto_char x s = s.
Proof.
  induction s as [|c s IH]; simpl; [reflexivity|]. unfold not_char.
  destruct (Ascii.eqb x c); simpl; [discriminate|]. intros H. rewrite (IH H). reflexivity.
Qed.

Lemma upto_char_app_none (x : ascii) (a b : string) :
  all_chars (not_char x) a = true -> upto_char x (a ++ b) = a ++ upto_char x b.
Proof.
  induction a as [|c a IH]; simpl; [reflexivity|]. unfold not_char.
  destruct (Ascii.eqb x c); simpl; [discriminate|]. intros H. rewrite (IH H). reflexivity.
Qed.

Lemma from_char_app_none (x : ascii) (a b : string) :
  all_chars (not_char x) a = true -> from_char x (a ++ b) = from_char x b.
Proof.
  induction a as [|c a IH]; simpl; [reflexivity|]. unfold not_char.
  destruct (Ascii.eqb x c); simpl; [discriminate|]. exact IH.
Qed.

Lemma after_first_sep (scheme r : string) :
  all_chars (not_char ":") scheme = true -> Str.after_first "://" (scheme ++ "://" ++ r) = Some r.
Proof.
  induction scheme as [|c scheme IH]; [intros; exact (after_first_app "://" r)|].
  intros H. apply andb_prop in H as [Hc H]. unfold not_char in Hc.
  change (String c scheme ++ "://" ++ r) with (String c (scheme ++ "://" ++ r)).
  rewrite after_first_eq. cbn [Str.has_prefix].
  destruct (Ascii.eqb ":" c); [discriminate|exact (IH H)].
Qed.

Lemma after_first_sep_none (s : string) :
  all_chars (not_char ":") s = true -> Str.after_first "://" s = None.
Proof.
  induction s as [|c s IH]; [reflexivity|].
  intros H. apply andb_prop in H as [Hc H]. unfold not_char in Hc.
  rewrite after_first_eq. cbn [Str.has_prefix].
  destruct (Ascii.eqb ":" c); [discriminate|exact (IH H)].
Qed.

Lemma rev_app_app (a b acc : string) : Str.rev_app (a ++ b) acc = Str.rev_app b (Str.rev_app a acc).
Proof. revert acc. induction a as [|c a IH]; intros acc; simpl; [reflexivity|]. apply IH. Qed.

Lemma rev_app_acc (s acc : string) : Str.rev_app s acc = Str.rev_app s "" ++ acc.
Proof.
  revert acc. induction s as [|c s IH]; intros acc; simpl; [reflexivity|].
  rewrite IH, (IH (String c "")), str_app_assoc. reflexivity.
Qed.

Lemma rev_app_involutive (s : string) : Str.rev_app (Str.rev_app s "") "" = s.
Proof.
  induction s as [|c s IH]; simpl; [reflexivity|].
  rewrite (rev_app_acc s (String c "")), rev_app_app. simpl. rewrite IH. reflexivity.
Qed.

Lemma trim_right_slash_keep (x trail : string) :
  Str.has_suffix "/" x = false -> (String.eqb trail "" || String.eqb trail "/") = true ->
  trim_right_slash (x ++ trail) = x.
Proof.
  unfold trim_right_slash, Str.has_suffix. intros Hx Ht. rewrite rev_app_app.
  assert (Hd : (fix drop (r : string) : string :=
                  match r with String "/" r' => drop r' | _ => r end) (Str.rev_app x "")
               = Str.rev_app x "").
  { destruct (Str.rev_app x "") as [|c r]; [reflexivity|].
    destruct c as [[] [] [] [] [] [] [] []]; try reflexivity; discriminate Hx. }
  destruct (String.eqb_spec trail "") as [->|_];
    [|destruct (String.eqb_spec trail "/") as [->|_]; [|discriminate Ht]];
    simpl; rewrite Hd; apply rev_app_involutive.
Qed.

Lemma last_segment_app_sep (c : ascii) (a b acc : string) :
  last_segment c (a ++ String c b) acc = last_segment c b "".
Proof.
  revert acc. induction a as [|d a IH]; intros acc; simpl.
  - rewrite Ascii.eqb_refl. reflexivity.
  - destruct (Ascii.eqb c d); apply IH.
Qed.

Lemma last_segment_none (c : ascii) (b acc : string) :
  all_chars (not_char c) b = true -> last_segment c b acc = acc ++ b.
Proof.
  revert acc. induction b as [|d b IH]; intros acc; simpl.
  - intros _. symmetry. apply string_app_nil.
  - unfold not_char. destruct (Ascii.eqb c d); simpl; [discriminate|].
    intros H. rewrite (IH _ H), str_app_assoc. reflexivity.
Qed.

Lemma substring_prefix (a b : string) : substring 0 (length a) (a ++ b) = a.
Proof. induction a as [|c a IH]; simpl; [destruct b; reflexivity|]. rewrite IH. reflexivity. Qed.

Lemma has_suffix_app (x suf : string) : Str.has_suffix suf (x ++ suf) = true.
Proof.
  unfold Str.has_suffix. rewrite rev_app_app, (rev_app_acc suf (Str.rev_app x "")).
  apply has_prefix_app.
Qed.

Lemma trim_suffix_app (x suf : string) : Str.trim_suffix (x ++ suf) suf = x.
Proof.
  unfold Str.trim_suffix. rewrite has_suffix_app, length_app.
  replace (length x + length suf - length suf)%nat with (length x) by lia.
  apply substring_prefix.
Qed.

Lemma has_prefix_app_r (p a b : string) :
  Str.has_prefix p a = true -> Str.has_prefix p (a ++ b) = true.
Proof.
  revert a. induction p as [|c p IH]; intros [|d a]; simpl; try discriminate; [reflexivity..|].
  intros H. apply andb_prop in H as [H1 H2]. rewrite H1. exact (IH a H2).
Qed.

Lemma trim_space_keep (s : string) :
  Str.trim_left s = s -> Str.trim_left (Str.rev_app s "") = Str.rev_app s "" ->
  Str.trim_space s = s.
Proof.
  unfold Str.trim_space. intros H1 H2. rewrite H1, H2. apply rev_app_involutive.
Qed.

Lemma has_suffix_slash_last (a : string) (c : ascii) :
  Str.has_suffix "/" (a ++ String c "") = Ascii.eqb "/" c.
Proof.
  unfold Str.has_suffix. rewrite rev_app_app. cbn [Str.rev_app Str.has_prefix].
  apply andb_true_r.
Qed.

Lemma snoc_cases (s : string) : s = "" \/ exists s' c, s = s' ++ String c "".
Proof.
  induction s as [|c s [->|(s' & d & ->)]]; [left; reflexivity|right..].
  - exists "", c. reflexivity.
  - exists (String c s'), d. reflexivity.
Qed.

Lemma has_suffix_slash_app (a b : string) :
  b <> "" -> Str.has_suffix "/" (a ++ b) = Str.has_suffix "/" b.
Proof.
  intros Hb. destruct (snoc_cases b) as [->|(b' & c & ->)]; [congruence|].
  rewrite <- str_app_assoc, !has_suffix_slash_last. reflexivity.
Qed.

Lemma slash_head (path z : string) :
  (String.eqb path "" || Str.has_prefix "/" path) = true ->
  exists m, path ++ "/" ++ z = String "/" m.
Proof.
  destruct path as [|c p]; [eexists; reflexivity|].
  intros H.
  change ((String.eqb (String c p) "" || Str.has_prefix "/" (String c p))%bool)
    with (Ascii.eqb "/" c && true)%bool in H.
  apply andb_prop in H as [H _]. apply Ascii.eqb_eq in H. subst c.
  eexists. reflexivity.
Qed.

(** [url.Parse(scheme://host + r).Path] for a server path [r] *)
Lemma url_path_of (scheme host r m : string) :
  all_chars (not_char ":") scheme = true -> all_chars (not_char "/") host = true ->
  r = String "/" m -> all_chars (not_char "?") r = true -> all_chars (not_char "#") r = true ->
  url_path (scheme ++ "://" ++ host ++ r) = r.
Proof.
  intros Hs Hh Hr Hq Hf. unfold url_path. rewrite after_first_sep by exact Hs.
  rewrite from_char_app_none by exact Hh.
  assert (E : from_char "/" r = r) by (subst r; reflexivity). rewrite E.
  rewrite (upto_char_none "?" r Hq). apply upto_char_none. exact Hf.
Qed.

Ltac split_bools :=
  repeat match goal with
         | H : (_ && _)%bool = true |- _ => apply andb_prop in H as [? ?]
         end.

Lemma uid_no (x : ascii) (u : string) :
  (x = "/"%char \/ x = ":"%char \/ x = "?"%char \/ x = "#"%char) ->
  all_chars uid_char u = true -> all_chars (not_char x) u = true.
Proof.
  intros Hx. apply all_chars_impl. intros c Hc. apply uid_char_safe in Hc.
  split_bools. destruct Hx as [-> | [-> | [-> | ->]]]; assumption.
Qed.

(** the listing names a resource stored at [base/uid.ics] by [uid] again *)
Lemma response_uid_of_event_url (scheme host path trail uid : string) :
  url_shape_ok scheme host path trail = true ->
  Str.has_prefix "shift-" uid = true -> all_chars uid_char uid = true ->
  let cal := scheme ++ "://" ++ host ++ path ++ trail in
  response_uid cal (mkResponse (url_path (trim_right_slash cal ++ "/" ++ uid ++ ".ics")) false)
  = Some uid.
Proof.
  intros Hok Hp Hu cal. unfold url_shape_ok in Hok.
  apply andb_prop in Hok as [Hok Ht]. apply andb_prop in Hok as [Hok Hpe].
  apply andb_prop in Hok as [Hok Hps]. apply andb_prop in Hok as [Hok Hpc].
  apply andb_prop in Hok as [Hok Hhc]. apply andb_prop in Hok as [Hs Hh].
  assert (Hsc : all_chars (not_char ":") scheme = true).
  { destruct (String.eqb_spec scheme "http") as [->|_]; [reflexivity|].
    destruct (String.eqb_spec scheme "https") as [->|_]; [reflexivity|discriminate Hs]. }
  assert (Hh1 : all_chars (not_char "/") host = true)
    by (revert Hhc; apply all_chars_impl; intros c Hc; split_bools; assumption).
  assert (Hp1 : all_chars (not_char ":") path = true)
    by (revert Hpc; apply all_chars_impl; intros c Hc; split_bools; assumption).
  assert (Hp2 : all_chars (not_char "?") path = true)
    by (revert Hpc; apply all_chars_impl; intros c Hc; split_bools; assumption).
  assert (Hp3 : all_chars (not_char "#") path = true)
    by (revert Hpc; apply all_chars_impl; intros c Hc; split_bools; assumption).
  (* the base URL *)
  assert (Hbase : trim_right_slash cal = scheme ++ "://" ++ host ++ path).
  { replace cal with ((scheme ++ "://" ++ host ++ path) ++ trail)
      by (unfold cal; rewrite !str_app_assoc; reflexivity).
    apply trim_right_slash_keep; [|exact Ht].
    destruct (String.eqb_spec path "") as [->|Hne].
    - rewrite string_app_nil, <- str_app_assoc, has_suffix_slash_app
        by (apply negb_true_iff, String.eqb_neq in Hh; exact Hh).
      destruct (snoc_cases host) as [->|(h' & c & ->)]; [discriminate Hh|].
      rewrite has_suffix_slash_last.
      rewrite all_chars_app in Hh1. apply andb_prop in Hh1 as [_ Hc].
      simpl in Hc. unfold not_char in Hc. destruct (Ascii.eqb "/" c); [discriminate|reflexivity].
    - rewrite <- !str_app_assoc, has_suffix_slash_app by exact Hne.
      apply negb_true_iff. exact Hpe. }
  (* the href of the resource *)
  set (r := path ++ "/" ++ uid ++ ".ics").
  destruct (slash_head path (uid ++ ".ics") Hps) as [m Hm]. fold r in Hm.
  assert (Hr : forall x, (x = "/"%char \/ x = ":"%char \/ x = "?"%char \/ x = "#"%char) -> x <> "/"%char ->
               all_chars (not_char x) path = true -> all_chars (not_char x) r = true).
  { intros x Hx Hn Hpx. unfold r. rewrite !all_chars_app, Hpx, (uid_no x uid Hx Hu). simpl.
    destruct Hx as [-> | [-> | [-> | ->]]]; [congruence|reflexivity..]. }
  assert (Hrq : all_chars (not_char "?") r = true) by (apply Hr; [auto|discriminate|exact Hp2]).
  assert (Hrf : all_chars (not_char "#") r = true) by (apply Hr; [auto|discriminate|exact Hp3]).
  assert (Hrc : all_chars (not_char ":") r = true) by (apply Hr; [auto|discriminate|exact Hp1]).
  assert (Hhref : url_path (trim_right_slash cal ++ "/" ++ uid ++ ".ics") = r).
  { rewrite Hbase, !str_app_assoc. fold r. apply (url_path_of _ _ _ m); assumption. }
  rewrite Hhref. unfold response_uid. cbn [Href IsCalendar].
  assert (Hrev : exists t, Str.rev_app r "" = String "s" t).
  { unfold r. rewrite <- !str_app_assoc, rev_app_app. eexists. reflexivity. }
  destruct Hrev as [t Ht'].
  assert (Htrim : Str.trim_space r = r).
  { apply trim_space_keep; [rewrite Hm; reflexivity|rewrite Ht'; reflexivity]. }
  rewrite Htrim.
  assert (Hne : String.eqb r "" = false) by (rewrite Hm; reflexivity). rewrite Hne.
  (* resolving the href against the calendar URL *)
  assert (Hres : resolveHref cal r = scheme ++ "://" ++ host ++ r).
  { unfold resolveHref, Str.contains. rewrite after_first_sep_none by exact Hrc.
    assert (Hpre : Str.has_prefix "/" r = true) by (rewrite Hm; reflexivity).
    rewrite Hpre. cbv beta iota.
    unfold url_origin.
    replace cal with ((scheme ++ "://") ++ (host ++ path ++ trail))
      by (unfold cal; rewrite !str_app_assoc; reflexivity).
    rewrite str_app_assoc, (after_first_sep scheme _ Hsc), <- str_app_assoc, length_app.
    replace (length (scheme ++ "://") + length (host ++ path ++ trail)
             - length (host ++ path ++ trail))%nat with (length (scheme ++ "://")) by lia.
    rewrite substring_prefix, upto_char_app_none by exact Hh1.
    assert (Hpt : upto_char "/" (path ++ trail) = "").
    { destruct (String.eqb_spec path "") as [->|Hpne].
      - destruct (String.eqb_spec trail "") as [->|_]; [reflexivity|].
        destruct (String.eqb_spec trail "/") as [->|_]; [reflexivity|discriminate Ht].
      - destruct path as [|c p]; [congruence|].
        change ((String.eqb (String c p) "" || Str.has_prefix "/" (String c p))%bool)
          with (Ascii.eqb "/" c && true)%bool in Hps.
        apply andb_prop in Hps as [Hc _]. apply Ascii.eqb_eq in Hc. subst c. reflexivity. }
    rewrite Hpt, string_app_nil, !str_app_assoc. reflexivity. }
  rewrite Hres, (url_path_of scheme host r m Hsc Hh1 Hm Hrq Hrf).
  (* the file name *)
  assert (Hbase_name : path_base r = uid ++ ".ics").
  { unfold path_base. rewrite Hne.
    assert (Htr : trim_right_slash r = r).
    { pose proof (trim_right_slash_keep r "") as K. rewrite string_app_nil in K. apply K.
      - unfold r. rewrite <- !str_app_assoc, has_suffix_slash_app by discriminate. reflexivity.
      - reflexivity. }
    rewrite Htr, Hne. unfold r. change ("/" ++ uid ++ ".ics") with (String "/" (uid ++ ".ics")).
    rewrite last_segment_app_sep, last_segment_none; [reflexivity|].
    rewrite all_chars_app, (uid_no "/" uid (or_introl eq_refl) Hu). reflexivity. }
  rewrite Hbase_name, (has_prefix_app_r _ _ _ Hp), has_suffix_app, trim_suffix_app.
  reflexivity.
Qed.

Lemma after_first_sep_noslash (s : string) :
  all_chars (not_char "/") s = true -> Str.after_first "://" s = None.
Proof.
  induction s as [|c s IH]; [reflexivity|].
  intros H. apply andb_prop in H as [_ H]. rewrite after_first_eq.
  destruct s as [|d s'].
  - cbn [Str.has_prefix]. rewrite andb_false_r. reflexivity.
  - pose proof H as H'. apply andb_prop in H' as [Hd _]. unfold not_char in Hd.
    cbn [Str.has_prefix]. destruct (Ascii.eqb "/" d); [discriminate Hd|].
    rewrite andb_false_r. exact (IH H).
Qed.

Lemma after_first_colon_free (a b : string) :
  all_chars (not_char ":") a = true -> Str.after_first "://" (a ++ b) = Str.after_first "://" b.
Proof.
  induction a as [|c a IH]; [reflexivity|].
  intros H. apply andb_prop in H as [Hc H]. unfold not_char in Hc.
  change (String c a ++ b) with (String c (a ++ b)).
  rewrite after_first_eq. cbn [Str.has_prefix].
  destruct (Ascii.eqb ":" c); [discriminate|exact (IH H)].
Qed.

Lemma name_no (x : ascii) (name : string) :
  (x = "/"%char \/ x = "?"%char \/ x = "#"%char) ->
  all_chars name_char name = true -> all_chars (not_char x) name = true.
Proof.
  intros Hx. apply all_chars_impl. intros c Hc. unfold name_char in Hc. split_bools.
  destruct Hx as [-> | [-> | ->]]; assumption.
Qed.

(** the listing reads a resource [base/name] of the collection by its file
    name: [name] without [".ics"] when it is a [shift-*.ics] name, nothing
    otherwise *)
Lemma response_uid_of_member (scheme host path trail name : string) :
  url_shape_ok scheme host path trail = true -> name_ok name = true ->
  let cal := scheme ++ "://" ++ host ++ path ++ trail in
  response_uid cal (mkResponse (url_path (trim_right_slash cal ++ "/" ++ name)) false)
  = if Str.has_prefix "shift-" name && Str.has_suffix ".ics" name
    then Some (Str.trim_suffix name ".ics") else None.
Proof.
  intros Hok Hn cal. unfold url_shape_ok in Hok.
  apply andb_prop in Hok as [Hok Ht]. apply andb_prop in Hok as [Hok Hpe].
  apply andb_prop in Hok as [Hok Hps]. apply andb_prop in Hok as [Hok Hpc].
  apply andb_prop in Hok as [Hok Hhc]. apply andb_prop in Hok as [Hs Hh].
  unfold name_ok in Hn. apply andb_prop in Hn as [Hn0 Hn].
  apply negb_true_iff, String.eqb_neq in Hn0.
  assert (Hsc : all_chars (not_char ":") scheme = true).
  { destruct (String.eqb_spec scheme "http") as [->|_]; [reflexivity|].
    destruct (String.eqb_spec scheme "https") as [->|_]; [reflexivity|discriminate Hs]. }
  assert (Hh1 : all_chars (not_char "/") host = true)
    by (revert Hhc; apply all_chars_impl; intros c Hc; split_bools; assumption).
  assert (Hp1 : all_chars (not_char ":") path = true)
    by (revert Hpc; apply all_chars_impl; intros c Hc; split_bools; assumption).
  assert (Hp2 : all_chars (not_char "?") path = true)
    by (revert Hpc; apply all_chars_impl; intros c Hc; split_bools; assumption).
  assert (Hp3 : all_chars (not_char "#") path = true)
    by (revert Hpc; apply all_chars_impl; intros c Hc; split_bools; assumption).
  (* the base URL *)
  assert (Hbase : trim_right_slash cal = scheme ++ "://" ++ host ++ path).
  { replace cal with ((scheme ++ "://" ++ host ++ path) ++ trail)
      by (unfold cal; rewrite !str_app_assoc; reflexivity).
    apply trim_right_slash_keep; [|exact Ht].
    destruct (String.eqb_spec path "") as [->|Hne].
    - rewrite string_app_nil, <- str_app_assoc, has_suffix_slash_app
        by (apply negb_true_iff, String.eqb_neq in Hh; exact Hh).
      destruct (snoc_cases host) as [->|(h' & c & ->)]; [discriminate Hh|].
      rewrite has_suffix_slash_last.
      rewrite all_chars_app in Hh1. apply andb_prop in Hh1 as [_ Hc].
      simpl in Hc. unfold not_char in Hc. destruct (Ascii.eqb "/" c); [discriminate|reflexivity].
    - rewrite <- !str_app_assoc, has_suffix_slash_app by exact Hne.
      apply negb_true_iff. exact Hpe. }
  (* the last byte of the name *)
  destruct (snoc_cases name) as [->|(n' & z & En)]; [congruence|].
  assert (Hz : name_char z = true).
  { rewrite En, all_chars_app in Hn. apply andb_prop in Hn as [_ Hz]. simpl in Hz.
    rewrite andb_true_r in Hz. exact Hz. }
  assert (Hzs : Str.is_space z = false)
    by (unfold name_char in Hz; split_bools; apply negb_true_iff; assumption).
  assert (Hzl : Ascii.eqb "/" z = false)
    by (unfold name_char, not_char in Hz; split_bools; apply negb_true_iff; assumption).
  (* the href of the resource *)
  set (r := path ++ "/" ++ name).
  destruct (slash_head path name Hps) as [m Hm]. fold r in Hm.
  assert (Hrq : all_chars (not_char "?") r = true).
  { unfold r. rewrite !all_chars_app, Hp2, (name_no "?" name (or_intror (or_introl eq_refl)) Hn).
    reflexivity. }
  assert (Hrf : all_chars (not_char "#") r = true).
  { unfold r. rewrite !all_chars_app, Hp3, (name_no "#" name (or_intror (or_intror eq_refl)) Hn).
    reflexivity. }
  assert (Hhref : url_path (trim_right_slash cal ++ "/" ++ name) = r).
  { rewrite Hbase, !str_app_assoc. fold r. apply (url_path_of _ _ _ m); assumption. }
  rewrite Hhref. unfold response_uid. cbn [Href IsCalendar].
  assert (Htrim : Str.trim_space r = r).
  { apply trim_space_keep; [rewrite Hm; reflexivity|].
    unfold r. rewrite En, <- !str_app_assoc, rev_app_app. cbn [Str.rev_app Str.trim_left].
    rewrite Hzs. reflexivity. }
  rewrite Htrim.
  assert (Hne : String.eqb r "" = false) by (rewrite Hm; reflexivity). rewrite Hne.
  (* resolving the href against the calendar URL *)
  assert (Hres : resolveHref cal r = scheme ++ "://" ++ host ++ r).
  { unfold resolveHref, Str.contains.
    assert (Hnone : Str.after_first "://" r = None).
    { unfold r. rewrite <- str_app_assoc, after_first_colon_free
        by (rewrite all_chars_app, Hp1; reflexivity).
      apply after_first_sep_noslash, (name_no "/" name (or_introl eq_refl) Hn). }
    rewrite Hnone.
    assert (Hpre : Str.has_prefix "/" r = true) by (rewrite Hm; reflexivity).
    rewrite Hpre. cbv beta iota.
    unfold url_origin.
    replace cal with ((scheme ++ "://") ++ (host ++ path ++ trail))
      by (unfold cal; rewrite !str_app_assoc; reflexivity).
    rewrite str_app_assoc, (after_first_sep scheme _ Hsc), <- str_app_assoc, length_app.
    replace (length (scheme ++ "://") + length (host ++ path ++ trail)
             - length (host ++ path ++ trail))%nat with (length (scheme ++ "://")) by lia.
    rewrite substring_prefix, upto_char_app_none by exact Hh1.
    assert (Hpt : upto_char "/" (path ++ trail) = "").
    { destruct (String.eqb_spec path "") as [->|Hpne].
      - destruct (String.eqb_spec trail "") as [->|_]; [reflexivity|].
        destruct (String.eqb_spec trail "/") as [->|_]; [reflexivity|discriminate Ht].
      - destruct path as [|c p]; [congruence|].
        change ((String.eqb (String c p) "" || Str.has_prefix "/" (String c p))%bool)
          with (Ascii.eqb "/" c && true)%bool in Hps.
        apply andb_prop in Hps as [Hc _]. apply Ascii.eqb_eq in Hc. subst c. reflexivity. }
    rewrite Hpt, string_app_nil, !str_app_assoc. reflexivity. }
  rewrite Hres, (url_path_of scheme host r m Hsc Hh1 Hm Hrq Hrf).
  (* the file name *)
  assert (Hbase_name : path_base r = name).
  { unfold path_base. rewrite Hne.
    assert (Htr : trim_right_slash r = r).
    { pose proof (trim_right_slash_keep r "") as K. rewrite string_app_nil in K. apply K.
      - unfold r. rewrite <- str_app_assoc, has_suffix_slash_app by congruence.
        rewrite En, has_suffix_slash_last. exact Hzl.
      - reflexivity. }
    rewrite Htr, Hne. unfold r. change ("/" ++ name) with (String "/" name).
    rewrite last_segment_app_sep, last_segment_none; [reflexivity|].
    exact (name_no "/" name (or_introl eq_refl) Hn). }
  rewrite Hbase_name.
  destruct (Str.has_prefix "shift-" name), (Str.has_suffix ".ics" name); reflexivity.
Qed.

End UrlFacts.

(** ** The bytes of an identifier *)
Module UidChars.
Import GoMain StrFacts Checks UrlFacts.

Lemma digit_uid_char (k : Z) : 0 <= k <= 9 -> uid_char (Dec.digit k) = true.
Proof.
  intros Hk.
  assert (k = 0 \/ k = 1 \/ k = 2 \/ k = 3 \/ k = 4 \/ k = 5 \/ k = 6 \/ k = 7 \/ k = 8
          \/ k = 9) as Hc by lia.
  repeat destruct Hc as [-> | Hc]; [reflexivity..|]. subst. reflexivity.
Qed.

Lemma hex_digit_uid_char (k : Z) : 0 <= k <= 15 -> uid_char (Sha1.hex_digit k) = true.
Proof.
  intros Hk.
  assert (k = 0 \/ k = 1 \/ k = 2 \/ k = 3 \/ k = 4 \/ k = 5 \/ k = 6 \/ k = 7 \/ k = 8
          \/ k = 9 \/ k = 10 \/ k = 11 \/ k = 12 \/ k = 13 \/ k = 14 \/ k = 15) as Hc by lia.
  repeat destruct Hc as [-> | Hc]; [reflexivity..|]. subst. reflexivity.
Qed.

Lemma digits_fuel_chars (fuel : nat) (n : Z) (acc : string) :
  0 <= n -> all_chars uid_char acc = true -> all_chars uid_char (Dec.digits_fuel fuel n acc) = true.
Proof.
  revert n acc. induction fuel as [|f IH]; intros n acc Hn Ha; simpl; [exact Ha|].
  assert (Hd : all_chars uid_char (String (Dec.digit (n mod 10)) acc) = true).
  { simpl. rewrite digit_uid_char, Ha; [reflexivity|].
    pose proof (Z.mod_pos_bound n 10); lia. }
  destruct (n <? 10); [exact Hd|]. apply IH; [apply Z.div_pos; lia | exact Hd].
Qed.

Lemma fmt_int_chars (x : Z) (w : nat) : all_chars uid_char (Dec.fmt_int x w) = true.
Proof.
  unfold Dec.fmt_int.
  assert (Hp : all_chars uid_char (Dec.zeros (w - length (Dec.digits (Z.abs x)))
                                   ++ Dec.digits (Z.abs x)) = true).
  { rewrite all_chars_app. apply andb_true_intro. split.
    - unfold Dec.zeros. induction (w - length (Dec.digits (Z.abs x)))%nat as [|k IH];
        simpl; [reflexivity | exact IH].
    - apply digits_fuel_chars; [lia | reflexivity]. }
  destruct (x <? 0); [exact Hp|exact Hp].
Qed.

Lemma all_chars_substring (f : ascii -> bool) (n m : nat) (s : string) :
  all_chars f s = true -> all_chars f (substring n m s) = true.
Proof.
  revert m s. induction n as [|n IH]; intros m s H.
  - revert s H. induction m as [|m IHm]; intros [|c s] H; simpl in *; try reflexivity.
    apply andb_prop in H as [H1 H2]. rewrite H1. exact (IHm s H2).
  - destruct s as [|c s]; simpl in *; [reflexivity|].
    apply andb_prop in H as [_ H]. exact (IH m s H).
Qed.

Lemma be_bytes_range (k : nat) (x b : Z) : In b (Sha1.be_bytes k x) -> 0 <= b <= 255.
Proof.
  revert x. induction k as [|k IH]; intros x; simpl; [intros []|].
  intros Hin. apply in_app_or in Hin as [Hin|[<-|[]]]; [exact (IH _ Hin)|].
  replace (Z.land x 255) with (x mod 256) by (symmetry; exact (Z.land_ones x 8 ltac:(lia))).
  pose proof (Z.mod_pos_bound x 256 ltac:(lia)). lia.
Qed.

Lemma sum_range (msg : list Z) (b : Z) : In b (Sha1.sum msg) -> 0 <= b <= 255.
Proof.
  unfold Sha1.sum. destruct (fold_left _ _ _) as [[[[h0 h1] h2] h3] h4].
  intros Hin. repeat (apply in_app_or in Hin as [Hin|Hin]; [exact (be_bytes_range _ _ _ Hin)|]).
  exact (be_bytes_range _ _ _ Hin).
Qed.

Lemma hex_chars (bs : list Z) :
  (forall b, In b bs -> 0 <= b <= 255) -> all_chars uid_char (Sha1.hex bs) = true.
Proof.
  induction bs as [|b bs IH]; intros H; simpl; [reflexivity|].
  pose proof (H b (or_introl eq_refl)) as Hb.
  assert (H1 : 0 <= b / 16 <= 15)
    by (split; [apply Z.div_pos | cut (b / 16 < 16); [lia | apply Z.div_lt_upper_bound]]; lia).
  assert (H2 : 0 <= b mod 16 <= 15) by (pose proof (Z.mod_pos_bound b 16); lia).
  rewrite (hex_digit_uid_char _ H1), (hex_digit_uid_char _ H2). simpl.
  apply IH. intros b' Hb'. exact (H b' (or_intror Hb')).
Qed.

Lemma makeShiftUID_chars (s : shift) :
  Str.has_prefix "shift-" (makeShiftUID s) = true
  /\ all_chars uid_char (makeShiftUID s) = true.
Proof.
  split; [apply has_prefix_app|].
  unfold makeShiftUID, GoTime.fmt_date, GoTime.fmt_hm.
  destruct (GoTime.civil (Start s)) as [[y m] d].
  rewrite !all_chars_app, !fmt_int_chars.
  rewrite all_chars_substring; [reflexivity|].
  apply hex_chars. apply sum_range.
Qed.

End UidChars.

(** ** Resources the Go sync writes are listed again *)
Module ListingProofs.
Import GoMain GoCalDAV StrFacts Checks UrlFacts UidChars.

Lemma set_add_keeps (u v : string) (m : list string) : In u m -> In u (set_add v m).
Proof.
  unfold set_add. destruct (existsb (String.eqb v) m); [auto|].
  intros H. apply in_or_app. left. exact H.
Qed.

Lemma set_add_adds (v : string) (m : list string) : In v (set_add v m).
Proof.
  unfold set_add. destruct (existsb (String.eqb v) m) eqn:E.
  - apply existsb_exists in E as [x [Hx Ex]]. apply String.eqb_eq in Ex. subst. exact Hx.
  - apply in_or_app. right. left. reflexivity.
Qed.

Lemma uids_of_fold_keeps (base u : string) (rs : list response) (m : list string) :
  In u m ->
  In u (fold_left (fun m r => match response_uid base r with
                              | Some u => set_add u m
                              | None => m
                              end) rs m).
Proof.
  revert m. induction rs as [|r rs IH]; intros m H; simpl; [exact H|].
  apply IH. destruct (response_uid base r); [apply set_add_keeps|]; exact H.
Qed.

Lemma uids_of_complete (base u : string) (rs : list response) (r : response) (m : list string) :
  In r rs -> response_uid base r = Some u ->
  In u (fold_left (fun m r => match response_uid base r with
                              | Some u => set_add u m
                              | None => m
                              end) rs m).
Proof.
  revert m. induction rs as [|r' rs IH]; intros m Hin Hr; simpl in *; [contradiction|].
  destruct Hin as [<-|Hin]; [|exact (IH _ Hin Hr)].
  rewrite Hr. apply uids_of_fold_keeps, set_add_adds.
Qed.

Lemma put_res_has (url : string) (s : shift) (sv : server) :
  In url (map fst (resources (put_res url s sv))).
Proof.
  unfold put_res. simpl. destruct (existsb (fun r => String.eqb (fst r) url) (resources sv)) eqn:E.
  - apply existsb_exists in E as [[k x] [Hx Ek]]. simpl in Ek. apply String.eqb_eq in Ek. subst k.
    apply in_map_iff. exists (url, s). split; [reflexivity|].
    apply in_map_iff. exists (url, x). simpl. rewrite String.eqb_refl. auto.
  - rewrite map_app. apply in_or_app. right. left. reflexivity.
Qed.

Lemma set_add_in (u v : string) (m : list string) : In u (set_add v m) -> In u m \/ u = v.
Proof.
  unfold set_add. destruct (existsb (String.eqb v) m); [auto|].
  intros H. apply in_app_or in H as [H|[H|[]]]; auto.
Qed.

Lemma uids_of_sound (base u : string) (rs : list response) (m : list string) :
  In u (fold_left (fun m r => match response_uid base r with
                              | Some u => set_add u m
                              | None => m
                              end) rs m) ->
  In u m \/ exists r, In r rs /\ response_uid base r = Some u.
Proof.
  revert m. induction rs as [|r rs IH]; intros m H; simpl in *; [auto|].
  destruct (IH _ H) as [H1|(r' & Hr' & E)]; [|right; eauto].
  destruct (response_uid base r) as [v|] eqn:Er; [|auto].
  destruct (set_add_in _ _ _ H1) as [H2| ->]; [auto|]. right. eauto.
Qed.

Lemma collection_no_uid (cal h : string) : response_uid cal (mkResponse h true) = None.
Proof. unfold response_uid. cbn [IsCalendar Href]. destruct (String.eqb _ ""); reflexivity. Qed.

(** for a collection whose resources all sit directly under [base] with
    plain file names, the listing holds exactly the identifiers of the
    [shift-*.ics] names *)
Lemma listing_classifies (scheme host path trail : string) (sv : server) :
  url_shape_ok scheme host path trail = true ->
  let cal := scheme ++ "://" ++ host ++ path ++ trail in
  propfind_fails sv = false ->
  (forall r, In r (resources sv) ->
     exists name, fst r = trim_right_slash cal ++ "/" ++ name /\ name_ok name = true) ->
  exists l, listShiftEventUIDs cal sv = Some l
  /\ forall u, In u l <->
       exists name x, In (trim_right_slash cal ++ "/" ++ name, x) (resources sv)
       /\ Str.has_prefix "shift-" name = true /\ Str.has_suffix ".ics" name = true
       /\ u = Str.trim_suffix name ".ics".
Proof.
  intros Hok cal Hpf Hall. subst cal. unfold listShiftEventUIDs. rewrite Hpf.
  eexists. split; [reflexivity|]. intros u. split.
  - intros H. apply uids_of_sound in H as [[]|(r & Hr & E)].
    destruct Hr as [<- | Hr]; [rewrite collection_no_uid in E; discriminate|].
    apply in_map_iff in Hr as [[k x] [<- Hk]].
    destruct (Hall _ Hk) as (name & Ek & Hn). cbn [fst] in Ek. subst k.
    cbv beta in E. cbn [fst] in E.
    rewrite (response_uid_of_member scheme host path trail name Hok Hn) in E.
    destruct (Str.has_prefix "shift-" name) eqn:Ep, (Str.has_suffix ".ics" name) eqn:Es;
      try discriminate E.
    injection E as <-. exists name, x. auto.
  - intros (name & x & Hin & Hp & Hs & ->).
    destruct (Hall _ Hin) as (name' & Ek & Hn). cbn [fst] in Ek.
    destruct (StrFacts.str_app_inj_l _ _ _ _ eq_refl Ek) as [_ E2].
    injection E2 as <-.
    eapply uids_of_complete.
    + right. apply in_map_iff. eexists. split; [|exact Hin]. reflexivity.
    + cbv beta. cbn [fst].
      rewrite (response_uid_of_member scheme host path trail name Hok Hn), Hp, Hs.
      reflexivity.
Qed.

(** C10: for a calendar URL [scheme://host path] (optionally ending in a
    slash; the host may carry a port) without query or fragment, the
    identifier [makeShiftUID] gives a shift starts with ["shift-"]; the
    listing maps the server path of the resource [base/uid.ics] the sync PUTs
    back to that identifier; a PUT answered 200, 201 or 204 leaves that
    resource in the collection; while it is there, [listShiftEventUIDs]
    reports the identifier as managed; and for a collection whose resources
    sit directly under [base] with plain file names, the listing holds exactly
    the names that start with ["shift-"] and end in [".ics"], without the
    [".ics"]. *)
Theorem created_event_listed (net : method -> string -> http_result)
    (scheme host path trail : string) (s : shift) (st : state) :
  url_shape_ok scheme host path trail = true ->
  let cal := scheme ++ "://" ++ host ++ path ++ trail in
  let uid := makeShiftUID s in
  let eventURL := trim_right_slash cal ++ "/" ++ uid ++ ".ics" in
  Str.has_prefix "shift-" uid = true
  /\ response_uid cal (mkResponse (url_path eventURL) false) = Some uid
  /\ (forall code, net PUT eventURL = Status code -> (code = 200 \/ code = 201 \/ code = 204) ->
        In eventURL (map fst (resources (srv (put_one net (trim_right_slash cal) st (uid, s))))))
  /\ (forall sv, In eventURL (map fst (resources sv)) -> propfind_fails sv = false ->
        exists l, listShiftEventUIDs cal sv = Some l /\ In uid l)
  /\ (forall sv, propfind_fails sv = false ->
        (forall r, In r (resources sv) ->
           exists name, fst r = trim_right_slash cal ++ "/" ++ name /\ name_ok name = true) ->
        exists l, listShiftEventUIDs cal sv = Some l
        /\ forall u, In u l <->
             exists name x, In (trim_right_slash cal ++ "/" ++ name, x) (resources sv)
             /\ Str.has_prefix "shift-" name = true /\ Str.has_suffix ".ics" name = true
             /\ u = Str.trim_suffix name ".ics").
Proof.
  intros Hok cal uid eventURL.
  destruct (makeShiftUID_chars s) as [Hp Hu].
  pose proof (response_uid_of_event_url scheme host path trail uid Hok Hp Hu) as Hr.
  refine (conj Hp (conj Hr (conj _ (conj _ _)))).
  - intros code Hnet Hcode. unfold put_one. fold eventURL. rewrite Hnet.
    assert (Hc : (negb (code =? 200) && negb (code =? 201) && negb (code =? 204))%bool = false)
      by (destruct Hcode as [-> | [-> | ->]]; reflexivity).
    rewrite Hc. simpl. apply put_res_has.
  - intros sv Hin Hpf. unfold listShiftEventUIDs. rewrite Hpf.
    eexists. split; [reflexivity|].
    apply in_map_iff in Hin as [[k x] [Ek Hk]]. simpl in Ek. subst k.
    apply (uids_of_complete cal uid _ (mkResponse (url_path eventURL) false)); [|exact Hr].
    right. apply in_map_iff. exists (eventURL, x). auto.
  - intros sv Hpf Hall. exact (listing_classifies scheme host path trail sv Hok Hpf Hall).
Qed.

Lemma created_event_listed_witness :
  url_shape_ok Fixtures.cal_scheme Fixtures.cal_host Fixtures.cal_path Fixtures.cal_trail = true
  /\ Str.has_prefix "shift-" (makeShiftUID Fixtures.shift_a) = true.
Proof.
  assert (H : url_shape_ok Fixtures.cal_scheme Fixtures.cal_host Fixtures.cal_path
                           Fixtures.cal_trail = true) by (vm_compute; reflexivity).
  split; [exact H|].
  exact (proj1 (created_event_listed (fun _ _ => Status 201) _ _ _ _ Fixtures.shift_a
                                     (mkState (mkServer [] false) []) H)).
Defined.

End ListingProofs.

(** ** The requests of a Go run *)
Module GoRunProofs.
Import GoMain GoCalDAV Checks.

Section Net.
Variable net : method -> string -> http_result.

Lemma requests_app (a b : list logline) : requests (a ++ b) = (requests a ++ requests b)%list.
Proof. unfold requests. apply flat_map_app. Qed.

Lemma delete_one_log (base : string) (st : state) (u : string) :
  exists t, log (delete_one net base st u) = (log st ++ t)%list
            /\ requests t = [(DELETE, event_url base u)].
Proof.
  unfold delete_one. change (base ++ "/" ++ u ++ ".ics") with (event_url base u).
  destruct (net DELETE (event_url base u)) as [|code].
  - exists [LReq DELETE (event_url base u); LHttpErr]. unfold emit. simpl.
    rewrite <- app_assoc. auto.
  - destruct (negb (code =? 200) && negb (code =? 204) && negb (code =? 404))%bool;
      [exists [LReq DELETE (event_url base u); LStatusErr code]
      |exists [LReq DELETE (event_url base u); LOk code]];
      unfold emit; simpl; rewrite <- app_assoc; auto.
Qed.

Lemma put_one_log (base : string) (st : state) (e : string * shift) :
  exists t, log (put_one net base st e) = (log st ++ t)%list
            /\ requests t = [(PUT, event_url base (fst e))].
Proof.
  destruct e as [u sh].
  unfold put_one. change (base ++ "/" ++ u ++ ".ics") with (event_url base u).
  destruct (net PUT (event_url base u)) as [|code].
  - exists [LReq PUT (event_url base u); LHttpErr]. unfold emit. simpl.
    rewrite <- app_assoc. auto.
  - destruct (negb (code =? 200) && negb (code =? 201) && negb (code =? 204))%bool;
      [exists [LReq PUT (event_url base u); LStatusErr code]
      |exists [LReq PUT (event_url base u); LOk code]];
      unfold emit; simpl; rewrite <- app_assoc; auto.
Qed.

Lemma fold_delete_log (base : string) (us : list string) (st : state) :
  exists t, log (fold_left (delete_one net base) us st) = (log st ++ t)%list
            /\ requests t = map (fun u => (DELETE, event_url base u)) us.
Proof.
  revert st. induction us as [|u us IH]; intros st; simpl.
  - exists []. rewrite app_nil_r. auto.
  - destruct (delete_one_log base st u) as [t1 [E1 R1]].
    destruct (IH (delete_one net base st u)) as [t2 [E2 R2]].
    exists (t1 ++ t2)%list. rewrite E2, E1, app_assoc. split; [reflexivity|].
    rewrite requests_app, R1, R2. reflexivity.
Qed.

Lemma fold_put_log (base : string) (es : list (string * shift)) (st : state) :
  exists t, log (fold_left (put_one net base) es st) = (log st ++ t)%list
            /\ requests t = map (fun e => (PUT, event_url base (fst e))) es.
Proof.
  revert st. induction es as [|e es IH]; intros st; simpl.
  - exists []. rewrite app_nil_r. auto.
  - destruct (put_one_log base st e) as [t1 [E1 R1]].
    destruct (IH (put_one net base st e)) as [t2 [E2 R2]].
    exists (t1 ++ t2)%list. rewrite E2, E1, app_assoc. split; [reflexivity|].
    rewrite requests_app, R1, R2. reflexivity.
Qed.

(** the whole run: the listing outcome, then one DELETE per listed identifier
    that is not desired, then one PUT per desired identifier *)
Lemma sync_log (shifts : list shift) (cal : string) (st : state) :
  Str.has_prefix "http" cal = true ->
  let base := trim_right_slash cal in
  let desired := desired_entries shifts in
  let toDelete := match listShiftEventUIDs cal (srv st) with
                  | Some l => filter (fun u => negb (existsb (String.eqb u) (map fst desired))) l
                  | None => []
                  end in
  let head := match listShiftEventUIDs cal (srv st) with
              | Some _ => []
              | None => [LListErr]
              end in
  fst (syncShiftsToCalDAV net shifts cal st) = None
  /\ exists t, log (snd (syncShiftsToCalDAV net shifts cal st)) = (log st ++ head ++ t)%list
               /\ requests t = (map (fun u => (DELETE, event_url base u)) toDelete
                                ++ map (fun e => (PUT, event_url base (fst e))) desired)%list.
Proof.
  intros Hh base desired toDelete head. unfold syncShiftsToCalDAV.
  rewrite Hh. cbn [negb]. fold base. fold desired.
  unfold toDelete, head.
  destruct (listShiftEventUIDs cal (srv st)) as [l|]; cbv zeta; split; try reflexivity.
  - destruct (fold_delete_log base (filter (fun u => negb (existsb (String.eqb u) (map fst desired))) l) st)
      as [t1 [E1 R1]].
    destruct (fold_put_log base desired
                (fold_left (delete_one net base)
                   (filter (fun u => negb (existsb (String.eqb u) (map fst desired))) l) st))
      as [t2 [E2 R2]].
    exists (t1 ++ t2)%list. simpl. rewrite E2, E1, app_assoc. split; [reflexivity|].
    rewrite requests_app, R1, R2. reflexivity.
  - destruct (fold_put_log base desired (emit LListErr st)) as [t2 [E2 R2]].
    exists t2. simpl. rewrite E2. unfold emit. simpl. rewrite <- app_assoc.
    split; [reflexivity|exact R2].
Qed.

Lemma call_log_app (a b : list (method * string)) :
  call_log net (a ++ b) = (call_log net a ++ call_log net b)%list.
Proof. unfold call_log. apply flat_map_app. Qed.

(** the exact lines of one DELETE: the request, then the line its answer prints *)
Lemma delete_one_call_log (base : string) (st : state) (u : string) :
  log (delete_one net base st u) = (log st ++ call_log net [(DELETE, event_url base u)])%list.
Proof.
  unfold delete_one, call_log, answer_line, status_ok.
  change (base ++ "/" ++ u ++ ".ics") with (event_url base u).
  cbn [flat_map fst snd].
  destruct (net DELETE (event_url base u)) as [|code]; unfold emit; cbn [srv log].
  - rewrite <- app_assoc. reflexivity.
  - destruct (code =? 200), (code =? 204), (code =? 404); cbn [negb andb orb srv log];
      rewrite <- app_assoc; reflexivity.
Qed.

(** the exact lines of one PUT *)
Lemma put_one_call_log (base : string) (st : state) (e : string * shift) :
  log (put_one net base st e) = (log st ++ call_log net [(PUT, event_url base (fst e))])%list.
Proof.
  destruct e as [u sh].
  unfold put_one, call_log, answer_line, status_ok.
  change (base ++ "/" ++ u ++ ".ics") with (event_url base u).
  cbn [flat_map fst snd].
  destruct (net PUT (event_url base u)) as [|code]; unfold emit; cbn [srv log].
  - rewrite <- app_assoc. reflexivity.
  - destruct (code =? 200), (code =? 201), (code =? 204); cbn [negb andb orb srv log];
      rewrite <- app_assoc; reflexivity.
Qed.

Lemma fold_delete_call_log (base : string) (us : list string) (st : state) :
  log (fold_left (delete_one net base) us st)
  = (log st ++ call_log net (map (fun u => (DELETE, event_url base u)) us))%list.
Proof.
  revert st. induction us as [|u us IH]; intros st; cbn [fold_left map].
  - rewrite app_nil_r. reflexivity.
  - rewrite IH, delete_one_call_log, <- app_assoc, <- call_log_app. reflexivity.
Qed.

Lemma fold_put_call_log (base : string) (es : list (string * shift)) (st : state) :
  log (fold_left (put_one net base) es st)
  = (log st ++ call_log net (map (fun e => (PUT, event_url base (fst e))) es))%list.
Proof.
  revert st. induction es as [|e es IH]; intros st; cbn [fold_left map].
  - rewrite app_nil_r. reflexivity.
  - rewrite IH, put_one_call_log, <- app_assoc, <- call_log_app. reflexivity.
Qed.

(** the answer lines are not request lines: the requests of a call log are its calls *)
Lemma requests_call_log (calls : list (method * string)) :
  requests (call_log net calls) = calls.
Proof.
  induction calls as [|[m u] calls IH]; [reflexivity|].
  unfold call_log in *. cbn [flat_map fst snd]. unfold requests in *.
  cbn [List.app flat_map]. rewrite IH.
  unfold answer_line. destruct (net m u) as [|code]; [reflexivity|].
  destruct (status_ok m code); reflexivity.
Qed.

(** the whole run, line by line: the listing outcome, then for each DELETE
    and each PUT its request line followed by the line its answer prints *)
Lemma sync_call_log (shifts : list shift) (cal : string) (st : state) :
  Str.has_prefix "http" cal = true ->
  let base := trim_right_slash cal in
  let desired := desired_entries shifts in
  let toDelete := match listShiftEventUIDs cal (srv st) with
                  | Some l => filter (fun u => negb (existsb (String.eqb u) (map fst desired))) l
                  | None => []
                  end in
  let head := match listShiftEventUIDs cal (srv st) with
              | Some _ => []
              | None => [LListErr]
              end in
  log (snd (syncShiftsToCalDAV net shifts cal st))
  = (log st ++ head ++ call_log net (map (fun u => (DELETE, event_url base u)) toDelete
                                    ++ map (fun e => (PUT, event_url base (fst e))) desired))%list.
Proof.
  intros Hh base desired toDelete head. unfold syncShiftsToCalDAV.
  rewrite Hh. cbn [negb]. fold base. fold desired.
  unfold toDelete, head.
  destruct (listShiftEventUIDs cal (srv st)) as [l|]; cbv zeta; cbn [snd].
  - rewrite fold_put_call_log, fold_delete_call_log, call_log_app, !app_assoc, app_nil_r.
    reflexivity.
  - rewrite fold_put_call_log. unfold emit. cbn [log map fold_left filter List.app].
    rewrite <- app_assoc. reflexivity.
Qed.

End Net.

End GoRunProofs.

(** ** Write calls of the EventKit sync *)
Module EventKitWrites.
Import CalendarService EventKitChecks.

Section Fails.
Variable fails : write -> bool.

Lemma sf_ret {A} (a : A) : stops_at_failure fails (ret a).
Proof. intros s. exists []. split; [constructor|]. simpl. rewrite app_nil_r. reflexivity. Qed.

Lemma sf_bind {A B} (m : M A) (k : A -> M B) :
  stops_at_failure fails m -> (forall a, stops_at_failure fails (k a)) ->
  stops_at_failure fails (bind m k).
Proof.
  intros Hm Hk s. destruct (Hm s) as [ws1 [F1 H1]]. unfold bind.
  destruct (m s) as [a s1|w s1].
  - destruct (Hk a s1) as [ws2 [F2 H2]]. exists (ws1 ++ ws2)%list.
    split; [apply Forall_app; auto|].
    destruct (k a s1) as [b s2|w s2].
    + rewrite H2, H1, app_assoc. reflexivity.
    + destruct H2 as [Hw H2]. split; [exact Hw|]. rewrite H2, H1, !app_assoc. reflexivity.
  - exists ws1. split; [exact F1|exact H1].
Qed.

Lemma sf_foldM {A B} (f : A -> B -> M A) (l : list B) (a : A) :
  (forall a b, stops_at_failure fails (f a b)) -> stops_at_failure fails (foldM f l a).
Proof.
  intros Hf. revert a. induction l as [|b l IH]; intros a; simpl; [apply sf_ret|].
  apply sf_bind; [apply Hf|exact IH].
Qed.

Lemma sf_remove (e : EKEvent) : stops_at_failure fails (remove fails e).
Proof.
  intros s. unfold remove, issue; cbv beta zeta. destruct (fails (WRemove e)) eqn:E.
  - exists []. split; [constructor|]. simpl. auto.
  - exists [WRemove e]. split; [repeat constructor; exact E|]. simpl. reflexivity.
Qed.

Lemma sf_save (now : Z) (e : EKEvent) : stops_at_failure fails (save fails now e).
Proof.
  intros s. unfold save, issue; cbv beta zeta. destruct (fails (WSave e)) eqn:E.
  - exists []. split; [constructor|]. simpl. auto.
  - exists [WSave e]. split; [repeat constructor; exact E|]. simpl. reflexivity.
Qed.

Lemma sf_current (e : EKEvent) : stops_at_failure fails (current e).
Proof. intros s. exists []. split; [constructor|]. simpl. rewrite app_nil_r. reflexivity. Qed.

Lemma sf_createEvent (sh : Shift) : stops_at_failure fails (createEvent sh).
Proof. intros s. exists []. split; [constructor|]. simpl. rewrite app_nil_r. reflexivity. Qed.

Lemma sf_get (a b : Z) : stops_at_failure fails (getExistingShiftEvents a b).
Proof. intros s. exists []. split; [constructor|]. simpl. rewrite app_nil_r. reflexivity. Qed.

Lemma sf_dedup (evs : list EKEvent) : stops_at_failure fails (deduplicateShiftEvents fails evs).
Proof.
  unfold deduplicateShiftEvents. destruct (dedup_select evs) as [sel dups].
  apply sf_bind; [apply sf_foldM; intros; apply sf_remove | intros; apply sf_ret].
Qed.

Lemma sf_delete_one (r : SyncResult) (e : EKEvent) : stops_at_failure fails (delete_one fails r e).
Proof. unfold delete_one. apply sf_bind; [apply sf_remove | intros; apply sf_ret]. Qed.

Lemma sf_upsert_one (now : Z) (evs : list EKEvent) (uids : list string) (r : SyncResult)
    (sh : Shift) : stops_at_failure fails (upsert_one fails now evs uids r sh).
Proof.
  unfold upsert_one. destruct (existsb (String.eqb (uid sh)) uids).
  - destruct (find (has_uid (uid sh)) evs); [|apply sf_ret].
    apply sf_bind; [apply sf_current|]. intros ev.
    destruct (needsUpdate ev sh); [|apply sf_ret].
    apply sf_bind; [apply sf_save | intros; apply sf_ret].
  - apply sf_bind; [apply sf_createEvent|]. intros e.
    apply sf_bind; [apply sf_save | intros; apply sf_ret].
Qed.

Lemma sf_syncShifts (shifts : list Shift) (sS sE now : Z) :
  stops_at_failure fails (syncShifts fails shifts sS sE now).
Proof.
  unfold syncShifts.
  apply sf_bind; [apply sf_get|]. intros fetched.
  apply sf_bind; [apply sf_dedup|]. intros existing.
  apply sf_bind; [apply sf_foldM; intros; apply sf_delete_one|]. intros r.
  apply sf_bind; [apply sf_foldM; intros; apply sf_upsert_one|]. intros r'.
  apply sf_bind; [apply sf_get|]. intros again.
  apply sf_bind; [apply sf_dedup | intros; apply sf_ret].
Qed.

End Fails.

End EventKitWrites.

(** ** What a failing call does to a run *)
Module RunFailures.
Import GoMain GoCalDAV Checks.

(** C3, as the Go CLI behaves: when listing the calendar fails, the run
    logs the error, plans against an empty existing set (so it deletes
    nothing), sends one PUT per desired shift and returns no error. *)
Theorem caldav_list_failure_puts_desired
    (net : method -> string -> http_result) (shifts : list shift) (cal : string) (st : state) :
  Str.has_prefix "http" cal = true ->
  propfind_fails (srv st) = true ->
  fst (syncShiftsToCalDAV net shifts cal st) = None
  /\ exists t, log (snd (syncShiftsToCalDAV net shifts cal st)) = (log st ++ LListErr :: t)%list
               /\ requests t = map (fun e => (PUT, event_url (trim_right_slash cal) (fst e)))
                                   (desired_entries shifts).
Proof.
  intros Hh Hp.
  pose proof (GoRunProofs.sync_log net shifts cal st Hh) as H.
  unfold listShiftEventUIDs in H. rewrite Hp in H. cbv zeta iota in H.
  destruct H as [H1 [t [H2 H3]]]. split; [exact H1|].
  exists t. split; [exact H2|]. rewrite H3. reflexivity.
Qed.

Lemma caldav_list_failure_puts_desired_witness :
  fst (syncShiftsToCalDAV (GoSamples.all_ok 201) [GoSamples.june20] GoSamples.cal
                          (mkState (mkServer [] true) [])) = None.
Proof.
  exact (proj1 (caldav_list_failure_puts_desired (GoSamples.all_ok 201) [GoSamples.june20]
                  GoSamples.cal (mkState (mkServer [] true) []) eq_refl eq_refl)).
Defined.

(** C4, per client.  Go CLI: whatever the network answers, the run sends
    one DELETE per planned deletion and then one PUT per desired shift, and
    returns no error; its log is exactly the listing outcome followed, for
    each of these requests in order, by the request line and the line its
    answer prints: [LHttpErr] for a transport error, [LStatusErr code] for a
    status the loop does not accept, [LOk code] otherwise
    ([call_log], [answer_line]).  EventKit [syncShifts]: a failing [remove] or [save]
    is not caught; the run either completes after write calls that all
    succeeded, or throws at the first failing write call, which is the last
    one it issues, without returning a [SyncResult]. *)
Theorem failed_call_handling
    (net : method -> string -> http_result) (shifts : list shift) (cal : string) (st : state)
    (fails : CalendarService.write -> bool) (eshifts : list CalendarService.Shift)
    (searchStart searchEnd now : Z) (s : CalendarService.store) :
  Str.has_prefix "http" cal = true ->
  (let toDelete := match listShiftEventUIDs cal (srv st) with
                   | Some l => filter (fun u => negb (existsb (String.eqb u)
                                                        (map fst (desired_entries shifts)))) l
                   | None => []
                   end in
   let calls := (map (fun u => (DELETE, event_url (trim_right_slash cal) u)) toDelete
                 ++ map (fun e => (PUT, event_url (trim_right_slash cal) (fst e)))
                        (desired_entries shifts))%list in
   fst (syncShiftsToCalDAV net shifts cal st) = None
   /\ log (snd (syncShiftsToCalDAV net shifts cal st)) =
      (log st ++ (if propfind_fails (srv st) then [LListErr] else []) ++ call_log net calls)%list
   /\ requests (call_log net calls) = calls)
  /\ (exists ws, Forall (fun w => fails w = false) ws
      /\ match CalendarService.syncShifts fails eshifts searchStart searchEnd now s with
         | CalendarService.Done _ s' =>
             CalendarService.writes s' = (CalendarService.writes s ++ ws)%list
         | CalendarService.Thrown w s' =>
             fails w = true
             /\ CalendarService.writes s' = (CalendarService.writes s ++ ws ++ [w])%list
         end).
Proof.
  intros Hh. split.
  - pose proof (GoRunProofs.sync_log net shifts cal st Hh) as H.
    pose proof (GoRunProofs.sync_call_log net shifts cal st Hh) as E. cbv zeta in H, E |- *.
    split; [exact (proj1 H)|]. split; [|apply GoRunProofs.requests_call_log].
    rewrite E. unfold listShiftEventUIDs. destruct (propfind_fails (srv st)); reflexivity.
  - exact (EventKitWrites.sf_syncShifts fails eshifts searchStart searchEnd now s).
Qed.

Lemma failed_call_handling_witness :
  fst (syncShiftsToCalDAV (fun _ _ => HttpErr) [GoSamples.june20] GoSamples.cal
                          (mkState (mkServer [] false) [])) = None.
Proof.
  exact (proj1 (proj1 (failed_call_handling (fun _ _ => HttpErr) [GoSamples.june20]
                         GoSamples.cal (mkState (mkServer [] false) [])
                         EventKitSamples.remove_fails [EventKitSamples.sh] 29000000 29300000
                         29100000 (CalendarService.mkStore [] 0 []) eq_refl))).
Defined.

End RunFailures.

(** ** Which events a run deletes *)
Module DeletePlan.
Import GoMain GoCalDAV Checks.

Lemma existsb_eqb_false (u : string) (l : list string) :
  ~ In u l -> existsb (String.eqb u) l = false.
Proof.
  intros Hn. apply Bool.not_true_iff_false. intros He.
  apply existsb_exists in He as [x [Hx Hux]]. apply String.eqb_eq in Hux. subst x.
  exact (Hn Hx).
Qed.

(** C2, per client.  EventKit (and Google) [toDelete]: exactly the managed
    events that have not ended before [now] and whose identifier is not
    desired; a managed event ending before [now] is never in it.  Go CLI:
    no time filter; every listed identifier that is not desired gets a
    DELETE, however long ago its shift ended. *)
Theorem delete_plan
    (now : Z) (desiredUIDs : list string) (existing : list CalendarService.EKEvent)
    (net : method -> string -> http_result) (shifts : list shift) (cal : string)
    (st : state) (listed : list string) :
  Str.has_prefix "http" cal = true ->
  listShiftEventUIDs cal (srv st) = Some listed ->
  (forall e, In e (CalendarService.to_delete now desiredUIDs existing)
             <-> In e existing
                 /\ exists u, CalendarService.extractShiftUID e = Some u
                              /\ now <= CalendarService.endDate e
                              /\ existsb (String.eqb u) desiredUIDs = false)
  /\ (forall u, In u listed -> ~ In u (map fst (desired_entries shifts)) ->
       exists t, log (snd (syncShiftsToCalDAV net shifts cal st)) = (log st ++ t)%list
                 /\ In (DELETE, event_url (trim_right_slash cal) u) (requests t)).
Proof.
  intros Hh Hl. split.
  - intros e. unfold CalendarService.to_delete. rewrite filter_In.
    destruct (CalendarService.extractShiftUID e) as [u|] eqn:Eu.
    + destruct (CalendarService.endDate e <? now) eqn:Et.
      * split; [intros [_ F]; discriminate F|].
        intros [_ [u' [Hu' [Hle _]]]]. apply Z.ltb_lt in Et. lia.
      * split.
        -- intros [Hin Hd]. split; [exact Hin|]. exists u.
           apply Z.ltb_ge in Et. split; [reflexivity|]. split; [exact Et|].
           destruct (existsb (String.eqb u) desiredUIDs); [discriminate Hd|reflexivity].
        -- intros [Hin [u' [Hu' [_ Hd]]]]. injection Hu' as <-. split; [exact Hin|].
           rewrite Hd. reflexivity.
    + split; [intros [_ F]; discriminate F|]. intros [_ [u' [F _]]]. discriminate F.
  - intros u Hu Hn.
    pose proof (GoRunProofs.sync_log net shifts cal st Hh) as H. cbv zeta in H.
    rewrite Hl in H. destruct H as [_ [t [H2 H3]]].
    exists t. split; [exact H2|]. rewrite H3. apply in_or_app. left.
    apply (in_map (fun u => (DELETE, event_url (trim_right_slash cal) u))).
    apply filter_In. split; [exact Hu|]. rewrite existsb_eqb_false; [reflexivity|exact Hn].
Qed.

Lemma delete_plan_witness :
  exists t, log (snd (syncShiftsToCalDAV (GoSamples.all_ok 204) [] GoSamples.cal
                        (mkState (mkServer [(GoSamples.url_of GoSamples.june1, GoSamples.june1)]
                                           false) [])))
            = t
            /\ In (DELETE, event_url (trim_right_slash GoSamples.cal) (makeShiftUID GoSamples.june1))
                  (requests t).
Proof.
  destruct (proj2 (delete_plan 0 [] [] (GoSamples.all_ok 204) [] GoSamples.cal
                     (mkState (mkServer [(GoSamples.url_of GoSamples.june1, GoSamples.june1)]
                                        false) [])
                     [makeShiftUID GoSamples.june1] eq_refl ltac:(vm_compute; reflexivity))
               (makeShiftUID GoSamples.june1) (or_introl eq_refl) (fun F => F))
    as [t [Ht Hin]].
  exists t. split; [exact Ht|exact Hin].
Defined.

End DeletePlan.

(** ** Running the EventKit sync twice *)
Module Idempotence.
Import CalendarService EventKitChecks DedupProofs.

Lemma get_eq (sS sE : Z) (s : store) :
  getExistingShiftEvents sS sE s = Done (filter (inwm sS sE) (events s)) s.
Proof. reflexivity. Qed.

Lemma marker_managed (e : EKEvent) : has_marker e = true -> managed e = true.
Proof.
  unfold has_marker, managed, extractShiftUID. destruct (notes e) as [n|]; [|discriminate].
  unfold Str.contains. destruct (Str.after_first marker n); auto.
Qed.

Lemma inwm_managed (sS sE : Z) (e : EKEvent) : inwm sS sE e = true -> managed e = true.
Proof. unfold inwm. intros H. apply andb_prop in H as [_ H]. apply marker_managed, H. Qed.

Lemma managed_some (e : EKEvent) : managed e = true -> exists u, extractShiftUID e = Some u.
Proof. unfold managed. destruct (extractShiftUID e) as [u|]; [eauto|discriminate]. Qed.

Lemma managed_uids_cons (a : EKEvent) (l : list EKEvent) :
  managed_uids (a :: l)
  = ((match extractShiftUID a with Some u => [u] | None => [] end) ++ managed_uids l)%list.
Proof. reflexivity. Qed.

Lemma in_managed_uids (u : string) (l : list EKEvent) :
  In u (managed_uids l) <-> exists e, In e l /\ extractShiftUID e = Some u.
Proof.
  unfold managed_uids. rewrite in_flat_map. split; intros [e [He Hu]]; exists e; split; auto.
  - destruct (extractShiftUID e); simpl in Hu; [destruct Hu as [<-|[]]; reflexivity|contradiction].
  - rewrite Hu. left. reflexivity.
Qed.

(** with distinct identifiers, an identifier names at most one event *)
Lemma uid_unique (l : list EKEvent) (x y : EKEvent) (u : string) :
  NoDup (managed_uids l) -> In x l -> In y l ->
  extractShiftUID x = Some u -> extractShiftUID y = Some u -> x = y.
Proof.
  induction l as [|a l IH]; intros Hnd Hx Hy Ex Ey; [contradiction|].
  rewrite managed_uids_cons in Hnd.
  destruct Hx as [<-|Hx], Hy as [<-|Hy].
  - reflexivity.
  - rewrite Ex in Hnd. simpl in Hnd. inversion Hnd as [|? ? Hn _]; subst.
    exfalso. apply Hn. apply in_managed_uids. exists y. split; assumption.
  - rewrite Ey in Hnd. simpl in Hnd. inversion Hnd as [|? ? Hn _]; subst.
    exfalso. apply Hn. apply in_managed_uids. exists x. split; assumption.
  - apply IH; try assumption. apply NoDup_app_remove_l in Hnd. exact Hnd.
Qed.

Lemma find_id (l : list EKEvent) (e : EKEvent) :
  NoDup (map ev_id l) -> In e l -> find (fun x => Nat.eqb (ev_id x) (ev_id e)) l = Some e.
Proof.
  induction l as [|a l IH]; intros Hnd He; [contradiction|]. simpl.
  inversion Hnd as [|? ? Hn Hnd']; subst.
  destruct He as [<-|He]; [rewrite Nat.eqb_refl; reflexivity|].
  destruct (Nat.eqb (ev_id a) (ev_id e)) eqn:E; [|exact (IH Hnd' He)].
  apply Nat.eqb_eq in E. exfalso. apply Hn. rewrite E. apply in_map. exact He.
Qed.

Lemma current_in (e : EKEvent) (s : store) :
  NoDup (map ev_id (events s)) -> In e (events s) -> current e s = Done e s.
Proof. intros Hnd He. unfold current. rewrite (find_id _ _ Hnd He). reflexivity. Qed.

Lemma filter_none {A} (f : A -> bool) (l : list A) :
  (forall x, In x l -> f x = false) -> filter f l = [].
Proof.
  induction l as [|x l IH]; intros H; simpl; [reflexivity|].
  rewrite (H x (or_introl eq_refl)). apply IH. intros y Hy. exact (H y (or_intror Hy)).
Qed.

Lemma filter_comm {A} (f g : A -> bool) (l : list A) :
  filter f (filter g l) = filter g (filter f l).
Proof.
  induction l as [|x l IH]; simpl; [reflexivity|].
  destruct (g x) eqn:Eg, (f x) eqn:Ef; simpl; rewrite ?Eg, ?Ef, IH; reflexivity.
Qed.

Lemma Permutation_filter' {A} (f : A -> bool) (l l' : list A) :
  Permutation l l' -> Permutation (filter f l) (filter f l').
Proof.
  induction 1 as [|x l l' _ IH|x y l|l l' l'' _ IH1 _ IH2]; simpl.
  - reflexivity.
  - destruct (f x); [apply perm_skip|]; exact IH.
  - destruct (f x), (f y); try reflexivity; apply perm_swap.
  - transitivity (filter f l'); assumption.
Qed.

Lemma NoDup_app_disj {A} (l1 l2 : list A) (x : A) :
  NoDup (l1 ++ l2) -> In x l1 -> In x l2 -> False.
Proof.
  induction l1 as [|a l1 IH]; intros Hnd H1 H2; [contradiction|].
  simpl in Hnd. inversion Hnd as [|? ? Hn Hnd']; subst.
  destruct H1 as [<-|H1]; [apply Hn, in_or_app; right; exact H2|exact (IH Hnd' H1 H2)].
Qed.

Lemma foldM_const {A B} (f : A -> B -> M A) (l : list B) (a : A) (s : store) :
  (forall b, In b l -> f a b s = Done a s) -> foldM f l a s = Done a s.
Proof.
  induction l as [|b l IH]; intros H; simpl; [reflexivity|].
  unfold bind. rewrite (H b (or_introl eq_refl)). apply IH. intros b' Hb. exact (H b' (or_intror Hb)).
Qed.

(** a pass over events with distinct identifiers removes nothing *)
Lemma dedup_unique (fails : write -> bool) (evs : list EKEvent) (s : store) :
  NoDup (map ev_id evs) -> (forall e, In e evs -> managed e = true) ->
  NoDup (managed_uids evs) ->
  exists r, deduplicateShiftEvents fails evs s = Done r s /\ Permutation r evs.
Proof.
  intros Hid Hm Hu.
  pose proof (dedup_select_inv evs Hid) as Hinv.
  unfold deduplicateShiftEvents.
  destruct (dedup_select evs) as [sel d] eqn:Ed.
  assert (Hd : d = []).
  { change d with (snd (sel, d)). rewrite <- Ed. unfold dedup_select.
    apply fold_no_dups; [exact Hu|reflexivity]. }
  subst d. simpl. unfold bind, ret. simpl.
  eexists. split; [reflexivity|].
  destruct Hinv as (_ & _ & _ & Hp). rewrite app_nil_r, filter_all in Hp by exact Hm.
  rewrite sort_by_start_perm. exact Hp.
Qed.

(** the pass over the events a filter [f] of managed events selects, when no
    remove throws: it removes the duplicates, and the selected events left in
    the store are the survivors *)
Lemma dedup_view (f : EKEvent -> bool) (s : store) :
  NoDup (map ev_id (events s)) -> (forall e, f e = true -> managed e = true) ->
  exists sel dups,
    deduplicateShiftEvents (fun _ => false) (filter f (events s)) s
    = Done (sort_by_start (map snd sel))
           (mkStore (filter (not_in_ids dups) (events s)) (next_id s)
                    (writes s ++ map WRemove dups)%list)
    /\ NoDup (map fst sel)
    /\ (forall u w, In (u, w) sel -> extractShiftUID w = Some u)
    /\ (forall e u, In e (filter f (events s)) -> extractShiftUID e = Some u ->
          exists w, lookup u sel = Some w)
    /\ Permutation (filter f (filter (not_in_ids dups) (events s))) (map snd sel).
Proof.
  intros Hnd Hf.
  set (evs := filter f (events s)).
  assert (Hid : NoDup (map ev_id evs)) by (apply NoDup_map_filter; exact Hnd).
  assert (Hm : forall x, In x evs -> managed x = true)
    by (intros x Hx; apply filter_In in Hx as [_ Hx]; exact (Hf x Hx)).
  pose proof (dedup_select_inv evs Hid) as Hinv.
  unfold deduplicateShiftEvents.
  destruct (dedup_select evs) as [sel dups] eqn:Ed.
  destruct Hinv as (Hk & Hsel & Hlk & Hp).
  rewrite filter_all in Hp by exact Hm.
  exists sel, dups. refine (conj _ (conj Hk (conj _ (conj _ _)))).
  - unfold bind. rewrite removes_ok by reflexivity. reflexivity.
  - intros u w Hin. exact (proj1 (Hsel u w Hin)).
  - intros e u He Hu. destruct (Hlk e u He Hu) as [w [Hw _]]. exists w. exact Hw.
  - rewrite filter_comm. fold evs.
    assert (Hnd2 : NoDup (map ev_id (map snd sel ++ dups)%list)).
    { apply (Permutation_NoDup (l := map ev_id evs)); [|exact Hid].
      apply Permutation_map. symmetry. exact Hp. }
    transitivity (filter (not_in_ids dups) (map snd sel ++ dups)%list).
    { apply Permutation_filter'. symmetry. exact Hp. }
    rewrite filter_app.
    rewrite (filter_none (not_in_ids dups) dups).
    + rewrite app_nil_r, filter_all; [reflexivity|].
      intros w Hw. unfold not_in_ids. apply Bool.negb_true_iff.
      apply Bool.not_true_iff_false. intros Hex.
      apply existsb_exists in Hex as [d [Hd Hdw]]. apply Nat.eqb_eq in Hdw.
      rewrite map_app in Hnd2. apply (NoDup_app_disj _ _ (ev_id w) Hnd2).
      * apply in_map. exact Hw.
      * rewrite Hdw. apply in_map. exact Hd.
    + intros d Hd. unfold not_in_ids. apply Bool.negb_false_iff.
      apply existsb_exists. exists d. split; [exact Hd|apply Nat.eqb_refl].
Qed.

Lemma bind_done {A B} (m : M A) (k : A -> M B) (s : store) (a : A) (s' : store) :
  m s = Done a s' -> bind m k s = k a s'.
Proof. intros H. unfold bind. rewrite H. reflexivity. Qed.

(** a run on a store whose events in the window already carry one event per
    desired identifier, matching its shift, and no other events but past
    ones, changes nothing and counts nothing *)
Lemma settled_run (fails : write -> bool) (shifts : list Shift) (sS sE now : Z) (s : store) :
  NoDup (map ev_id (events s)) ->
  NoDup (managed_uids (filter (inwm sS sE) (events s))) ->
  (forall e, In e (filter (inwm sS sE) (events s)) ->
     exists u, extractShiftUID e = Some u
               /\ (In u (map uid shifts) -> matches_uid shifts u e)
               /\ (In u (map uid shifts) \/ endDate e < now)) ->
  (forall sh, In sh shifts ->
     exists e, In e (filter (inwm sS sE) (events s)) /\ extractShiftUID e = Some (uid sh)) ->
  syncShifts fails shifts sS sE now s = Done emptyResult s.
Proof.
  intros Hnd Hu Hev Hsh.
  set (V := filter (inwm sS sE) (events s)) in *.
  assert (HidV : NoDup (map ev_id V)) by (apply NoDup_map_filter; exact Hnd).
  assert (HmV : forall e, In e V -> managed e = true)
    by (intros e He; apply filter_In in He as [_ He]; exact (inwm_managed _ _ _ He)).
  assert (HVs : forall e, In e V -> In e (events s))
    by (intros e He; apply filter_In in He as [He _]; exact He).
  destruct (dedup_unique fails V s HidV HmV Hu) as [r [Hr Pr]].
  unfold syncShifts.
  erewrite bind_done; [|apply get_eq]. fold V. cbv beta.
  erewrite bind_done; [|exact Hr]. cbv beta zeta.
  assert (Htd : to_delete now (map uid shifts) r = []).
  { apply filter_none. intros e He. apply (Permutation_in _ Pr) in He.
    destruct (Hev e He) as [u [Hue [_ Hd]]]. rewrite Hue.
    destruct (endDate e <? now) eqn:Et; [reflexivity|].
    destruct Hd as [Hd|Hd]; [|apply Z.ltb_ge in Et; lia].
    apply Bool.negb_false_iff. apply existsb_exists. exists u.
    split; [exact Hd|apply String.eqb_refl]. }
  rewrite Htd.
  erewrite bind_done; [|reflexivity]. cbv beta.
  erewrite bind_done.
  2:{ apply foldM_const. intros sh Hin. unfold upsert_one.
      destruct (Hsh sh Hin) as [e [He Hue]].
      assert (Hex : existsb (String.eqb (uid sh)) (managed_uids r) = true).
      { apply existsb_exists. exists (uid sh). split; [|apply String.eqb_refl].
        apply in_managed_uids. exists e. split; [|exact Hue].
        apply (Permutation_in _ (Permutation_sym Pr)). exact He. }
      unfold managed_uids in Hex. rewrite Hex.
      destruct (find (has_uid (uid sh)) r) as [e0|] eqn:Ef.
      - apply find_some in Ef as [Hr0 Hh0].
        unfold has_uid in Hh0. destruct (extractShiftUID e0) as [u0|] eqn:Eu0; [|discriminate].
        apply String.eqb_eq in Hh0. subst u0.
        apply (Permutation_in _ Pr) in Hr0.
        erewrite bind_done; [|apply current_in; [exact Hnd|exact (HVs e0 Hr0)]]. cbv beta.
        destruct (Hev e0 Hr0) as [u [Hu0 [Hm _]]]. rewrite Eu0 in Hu0. injection Hu0 as <-.
        rewrite (Hm (in_map uid shifts sh Hin) sh Hin eq_refl). reflexivity.
      - exfalso. assert (He' : In e r) by exact (Permutation_in _ (Permutation_sym Pr) He).
        pose proof (find_none _ _ Ef e He') as F. unfold has_uid in F.
        rewrite Hue, String.eqb_refl in F. discriminate F. }
  cbv beta.
  erewrite bind_done; [|apply get_eq]. fold V. cbv beta.
  erewrite bind_done; [|exact Hr]. reflexivity.
Qed.

Lemma needsUpdate_same (e : EKEvent) (sh sh' : Shift) :
  title sh = title sh' -> start sh = start sh' -> end_ sh = end_ sh' ->
  location sh = location sh' -> needsUpdate e sh = needsUpdate e sh'.
Proof. intros H1 H2 H3 H4. unfold needsUpdate. rewrite H1, H2, H3, H4. reflexivity. Qed.

(** an event written from a shift needs no update for it *)
Lemma needsUpdate_own (i : nat) (sh : Shift) (n : option string) (m : option Z) :
  needsUpdate (mkEvent i (Some (title sh)) (start sh) (end_ sh) (Some (location sh)) n m) sh
  = false.
Proof.
  unfold needsUpdate. cbn [ev_title startDate endDate ev_location opt_eqb].
  rewrite !String.eqb_refl, !Z.eqb_refl. reflexivity.
Qed.

Lemma extract_has_marker (e : EKEvent) (u : string) :
  extractShiftUID e = Some u -> has_marker e = true.
Proof.
  unfold extractShiftUID, has_marker. destruct (notes e) as [n|]; [|discriminate].
  unfold Str.contains. destruct (Str.after_first marker n); [reflexivity|discriminate].
Qed.

(** the notes [createEvent] writes carry the shift's identifier *)
Lemma shift_notes_extract (sh : Shift) (i : nat) (t : option string) (a b : Z)
    (l : option string) (m : option Z) :
  Str.contains (uid sh) newline = false ->
  extractShiftUID (mkEvent i t a b l (Some (shift_notes sh)) m) = Some (uid sh).
Proof.
  intros Hnl. unfold extractShiftUID. cbn [notes]. unfold shift_notes.
  destruct (String.eqb (memo sh) "").
  - rewrite StrFacts.after_first_app. unfold upto_newline.
    pose proof (StrFacts.splitn2_nl_app (uid sh) "" Hnl) as P.
    rewrite StrFacts.string_app_nil in P. rewrite P.
    change (fst (GoParse.splitn2 newline "")) with "". rewrite StrFacts.string_app_nil.
    reflexivity.
  - rewrite StrFacts.after_first_app. unfold upto_newline.
    rewrite (StrFacts.splitn2_nl_app (uid sh) _ Hnl).
    change (fst (GoParse.splitn2 newline (newline ++ memo sh))) with "".
    rewrite StrFacts.string_app_nil. reflexivity.
Qed.

Lemma find_app {A} (p : A -> bool) (l1 l2 : list A) :
  find p (l1 ++ l2) = match find p l1 with Some x => Some x | None => find p l2 end.
Proof.
  induction l1 as [|x l1 IH]; simpl; [reflexivity|]. destruct (p x); [reflexivity|exact IH].
Qed.

Lemma find_map_pres {A} (p : A -> bool) (g : A -> A) (l : list A) :
  (forall y, p (g y) = p y) -> find p (map g l) = option_map g (find p l).
Proof.
  intros H. induction l as [|x l IH]; simpl; [reflexivity|].
  rewrite H. destruct (p x); [reflexivity|exact IH].
Qed.

Lemma filter_map_pres {A} (f : A -> bool) (g : A -> A) (l : list A) :
  (forall y, In y l -> f (g y) = f y) -> filter f (map g l) = map g (filter f l).
Proof.
  induction l as [|x l IH]; intros H; simpl; [reflexivity|].
  rewrite (H x (or_introl eq_refl)).
  destruct (f x); [simpl; f_equal|]; apply IH; intros y Hy; exact (H y (or_intror Hy)).
Qed.

Lemma same_id (l : list EKEvent) (x y : EKEvent) :
  NoDup (map ev_id l) -> In x l -> In y l -> ev_id x = ev_id y -> x = y.
Proof.
  intros Hnd Hx Hy E.
  pose proof (find_id l x Hnd Hx) as Fx. pose proof (find_id l y Hnd Hy) as Fy.
  rewrite E in Fx. rewrite Fx in Fy. injection Fy as ->. reflexivity.
Qed.

(** [save] with writes that do not throw *)
Lemma save_ok (now : Z) (e : EKEvent) (s : store) :
  save (fun _ => false) now e s
  = Done tt (mkStore (if existsb (fun y => Nat.eqb (ev_id y) (ev_id e)) (events s)
                      then map (fun y => if Nat.eqb (ev_id y) (ev_id e) then stamp now e else y)
                               (events s)
                      else (events s ++ [stamp now e])%list)
                     (next_id s) (writes s ++ [WSave e])%list).
Proof. reflexivity. Qed.

Lemma in_V (sS sE : Z) (s : store) (e : EKEvent) :
  In e (filter (inwm sS sE) (events s)) -> In e (events s) /\ inwm sS sE e = true.
Proof. apply filter_In. Qed.

Lemma filter_not_in_cons (d : EKEvent) (l xs : list EKEvent) :
  filter (not_in_ids l) (filter (fun x => negb (Nat.eqb (ev_id x) (ev_id d))) xs)
  = filter (not_in_ids (d :: l)) xs.
Proof.
  unfold not_in_ids. induction xs as [|x xs IH]; simpl; [reflexivity|].
  destruct (Nat.eqb (ev_id x) (ev_id d)) eqn:E; simpl; [exact IH|].
  destruct (existsb (fun d0 => Nat.eqb (ev_id x) (ev_id d0)) l); simpl; [exact IH|].
  f_equal. exact IH.
Qed.

(** the delete loop, when no remove throws *)
Lemma deletes_ok (l : list EKEvent) (r : SyncResult) (s : store) :
  exists r', foldM (delete_one (fun _ => false)) l r s
             = Done r' (mkStore (filter (not_in_ids l) (events s)) (next_id s)
                                (writes s ++ map WRemove l)%list).
Proof.
  revert r s. induction l as [|d l IH]; intros r s.
  - exists r. destruct s as [evs n ws]. cbn [foldM]. unfold ret. cbn [events next_id writes map].
    rewrite app_nil_r, filter_all by (intros; reflexivity). reflexivity.
  - cbn [foldM].
    set (s1 := mkStore (filter (fun x => negb (Nat.eqb (ev_id x) (ev_id d))) (events s))
                       (next_id s) (writes s ++ [WRemove d])%list).
    assert (E : exists r1, delete_one (fun _ => false) r d s = Done r1 s1)
      by (eexists; reflexivity).
    destruct E as [r1 E]. rewrite (bind_done _ _ _ _ _ E).
    destruct (IH r1 s1) as [r' E']. exists r'. rewrite E'. unfold s1. cbn [events next_id writes].
    rewrite filter_not_in_cons, <- app_assoc. reflexivity.
Qed.

Section Run1.
Variable shifts : list Shift.
Variables sS sE now : Z.
Variable existing : list EKEvent.
Hypothesis Hwin : forall sh, In sh shifts -> start sh < sE /\ sS < end_ sh.
Hypothesis Hnl : forall sh, In sh shifts -> Str.contains (uid sh) newline = false.
Hypothesis Hsame : same_content_per_uid shifts.

Lemma matches_own (u : string) (sh : Shift) (e : EKEvent) :
  In sh shifts -> uid sh = u -> needsUpdate e sh = false -> matches_uid shifts u e.
Proof.
  intros Hin Hu Hn sh' Hin' Hu'.
  destruct (Hsame sh sh' Hin Hin' (eq_trans Hu (eq_sym Hu'))) as (H1 & H2 & H3 & H4).
  rewrite <- (needsUpdate_same e sh sh' H1 H2 H3 H4). exact Hn.
Qed.

Lemma inwm_own (sh : Shift) (i : nat) (n : option string) (m : option Z) :
  In sh shifts ->
  has_marker (mkEvent i (Some (title sh)) (start sh) (end_ sh) (Some (location sh)) n m)
  = true ->
  inwm sS sE (mkEvent i (Some (title sh)) (start sh) (end_ sh) (Some (location sh)) n m)
  = true.
Proof.
  intros Hin Hm. unfold inwm. rewrite Hm. unfold in_window. cbn [startDate endDate].
  destruct (Hwin sh Hin) as [H1 H2]. apply Z.ltb_lt in H1, H2. rewrite H1, H2. reflexivity.
Qed.

(** the shift's event already matches it: nothing is written *)
Lemma inv_keep (P : list Shift) (s : store) (sh : Shift) (x : EKEvent) :
  In sh shifts -> run_inv shifts sS sE now existing P s ->
  In x (filter (inwm sS sE) (events s)) -> extractShiftUID x = Some (uid sh) ->
  (forall y, In y (filter (inwm sS sE) (events s)) -> extractShiftUID y = Some (uid sh) -> y = x) ->
  needsUpdate x sh = false ->
  run_inv shifts sS sE now existing (P ++ [sh]) s.
Proof.
  intros Hin J Hx Ex Ux Hn. unfold run_inv in *.
  destruct J as (Ha & Hb & Hc & Hd & He & Hf & Hg).
  refine (conj Ha (conj Hb (conj Hc (conj _ (conj _ (conj Hf _)))))).
  - intros e u Hev Hu HuP. rewrite map_app in HuP.
    apply in_app_or in HuP as [HuP|[HuP|[]]]; [exact (Hd e u Hev Hu HuP)|].
    subst u. rewrite (Ux e Hev Hu). exact (matches_own (uid sh) sh x Hin eq_refl Hn).
  - intros u HuP. rewrite map_app in HuP.
    apply in_app_or in HuP as [HuP|[HuP|[]]]; [exact (He u HuP)|].
    subst u. exists x. split; assumption.
  - intros e u Hev Hu Hn'. rewrite map_app. apply in_or_app. left. exact (Hg e u Hev Hu Hn').
Qed.
(** the shift's event is rewritten by [save] *)
Lemma inv_update (P : list Shift) (s : store) (sh : Shift) (x : EKEvent) (w : list write) :
  In sh shifts -> run_inv shifts sS sE now existing P s ->
  In x (filter (inwm sS sE) (events s)) -> extractShiftUID x = Some (uid sh) ->
  (forall y, In y (filter (inwm sS sE) (events s)) -> extractShiftUID y = Some (uid sh) -> y = x) ->
  run_inv shifts sS sE now existing (P ++ [sh])
    (mkStore (map (fun y => if Nat.eqb (ev_id y) (ev_id x)
                            then stamp now (updateEvent x sh) else y) (events s))
             (next_id s) w).
Proof.
  intros Hin J Hx Ex Ux. unfold run_inv in *. cbn [events next_id].
  destruct J as (Ha & Hb & Hc & Hd & He & Hf & Hg).
  set (e2 := stamp now (updateEvent x sh)).
  set (g := fun y => if Nat.eqb (ev_id y) (ev_id x) then e2 else y).
  assert (Hxs : In x (events s)) by exact (proj1 (in_V _ _ _ _ Hx)).
  assert (Hgid : forall y, ev_id (g y) = ev_id y).
  { intros y. unfold g. destruct (Nat.eqb (ev_id y) (ev_id x)) eqn:E; [|reflexivity].
    apply Nat.eqb_eq in E. rewrite E. reflexivity. }
  assert (Hgx : forall y, In y (events s) -> Nat.eqb (ev_id y) (ev_id x) = true -> y = x).
  { intros y Hy E. apply Nat.eqb_eq in E. exact (same_id _ _ _ Ha Hy Hxs E). }
  assert (He2 : extractShiftUID e2 = Some (uid sh)) by exact Ex.
  assert (Hgext : forall y, In y (events s) -> extractShiftUID (g y) = extractShiftUID y).
  { intros y Hy. unfold g. destruct (Nat.eqb (ev_id y) (ev_id x)) eqn:E; [|reflexivity].
    rewrite (Hgx y Hy E). rewrite Ex. exact He2. }
  assert (Hin2 : inwm sS sE e2 = true).
  { apply (inwm_own sh (ev_id x) (notes x) (Some now) Hin).
    apply (extract_has_marker _ (uid sh)). exact Ex. }
  assert (HV : filter (inwm sS sE) (map g (events s)) = map g (filter (inwm sS sE) (events s))).
  { apply filter_map_pres. intros y Hy. unfold g.
    destruct (Nat.eqb (ev_id y) (ev_id x)) eqn:E; [|reflexivity].
    rewrite (Hgx y Hy E), Hin2. symmetry. exact (proj2 (in_V _ _ _ _ Hx)). }
  change (fun y => if Nat.eqb (ev_id y) (ev_id x) then stamp now (updateEvent x sh) else y)
    with g.
  rewrite HV.
  assert (Hmap : forall e, In e (map g (filter (inwm sS sE) (events s))) ->
            exists y, e = g y /\ In y (filter (inwm sS sE) (events s))).
  { intros e He'. apply in_map_iff in He' as [y [<- Hy]]. exists y. split; [reflexivity|exact Hy]. }
  refine (conj _ (conj _ (conj _ (conj _ (conj _ (conj _ _)))))).
  - rewrite map_map, (map_ext (fun y => ev_id (g y)) ev_id Hgid). exact Ha.
  - apply Forall_forall. intros e He'. apply in_map_iff in He' as [y [<- Hy]].
    rewrite Hgid. exact (proj1 (Forall_forall _ _) Hb y Hy).
  - intros e He'. destruct (Hmap e He') as [y [-> Hy]].
    pose proof (proj1 (in_V _ _ _ _ Hy)) as Hys.
    rewrite (Hgext y Hys). destruct (Hc y Hy) as [u [Hu Hor]]. exists u. split; [exact Hu|].
    unfold g. destruct (Nat.eqb (ev_id y) (ev_id x)) eqn:E; [|exact Hor].
    left. rewrite (Hgx y Hys E), Ex in Hu. injection Hu as <-. apply in_map. exact Hin.
  - intros e u He' Hu HuP. destruct (Hmap e He') as [y [-> Hy]].
    pose proof (proj1 (in_V _ _ _ _ Hy)) as Hys.
    rewrite (Hgext y Hys) in Hu. unfold g.
    destruct (Nat.eqb (ev_id y) (ev_id x)) eqn:E.
    + rewrite (Hgx y Hys E), Ex in Hu. injection Hu as <-.
      exact (matches_own (uid sh) sh e2 Hin eq_refl
               (needsUpdate_own (ev_id x) sh (notes x) (Some now))).
    + rewrite map_app in HuP. apply in_app_or in HuP as [HuP|[HuP|[]]];
        [exact (Hd y u Hy Hu HuP)|].
      subst u. rewrite (Ux y Hy Hu), Nat.eqb_refl in E. discriminate E.
  - intros u HuP. rewrite map_app in HuP.
    apply in_app_or in HuP as [HuP|[HuP|[]]].
    + destruct (He u HuP) as [e [Hev Hu]]. exists (g e). split; [apply in_map; exact Hev|].
      rewrite (Hgext e (proj1 (in_V _ _ _ _ Hev))). exact Hu.
    + subst u. exists (g x). split; [apply in_map; exact Hx|].
      rewrite (Hgext x Hxs). exact Ex.
  - intros u1 e1 Hu1 Hf1. destruct (Hf u1 e1 Hu1 Hf1) as [x1 [F1 [Hx1 [Ex1 Ux1]]]].
    exists (g x1).
    assert (Hx1s : In x1 (events s)) by exact (proj1 (in_V _ _ _ _ Hx1)).
    refine (conj _ (conj _ (conj _ _))).
    + rewrite find_map_pres; [rewrite F1; reflexivity|].
      intros y. rewrite Hgid. reflexivity.
    + apply in_map. exact Hx1.
    + rewrite (Hgext x1 Hx1s). exact Ex1.
    + intros y' Hy' Ey'. destruct (Hmap y' Hy') as [y [-> Hy]].
      rewrite (Hgext y (proj1 (in_V _ _ _ _ Hy))) in Ey'.
      rewrite (Ux1 y Hy Ey'). reflexivity.
  - intros e u He' Hu Hn'. destruct (Hmap e He') as [y [-> Hy]].
    rewrite (Hgext y (proj1 (in_V _ _ _ _ Hy))) in Hu.
    rewrite map_app. apply in_or_app. left. exact (Hg y u Hy Hu Hn').
Qed.

(** a fresh event is created for the shift and saved *)
Lemma inv_create (P : list Shift) (s : store) (sh : Shift) (w : list write) :
  In sh shifts -> ~ In (uid sh) (managed_uids existing) ->
  run_inv shifts sS sE now existing P s ->
  run_inv shifts sS sE now existing (P ++ [sh])
    (mkStore (events s ++ [mkEvent (next_id s) (Some (title sh)) (start sh) (end_ sh)
                                   (Some (location sh)) (Some (shift_notes sh)) (Some now)])%list
             (S (next_id s)) w).
Proof.
  intros Hin Hnew J. unfold run_inv in *. cbn [events next_id].
  destruct J as (Ha & Hb & Hc & Hd & He & Hf & Hg).
  set (e2 := mkEvent (next_id s) (Some (title sh)) (start sh) (end_ sh)
                     (Some (location sh)) (Some (shift_notes sh)) (Some now)).
  assert (Ex : extractShiftUID e2 = Some (uid sh)) by exact (shift_notes_extract sh _ _ _ _ _ _ (Hnl sh Hin)).
  assert (Hin2 : inwm sS sE e2 = true)
    by exact (inwm_own sh _ _ _ Hin (extract_has_marker _ _ Ex)).
  assert (HV : filter (inwm sS sE) (events s ++ [e2])%list
               = (filter (inwm sS sE) (events s) ++ [e2])%list).
  { rewrite filter_app. simpl. rewrite Hin2. reflexivity. }
  rewrite HV.
  refine (conj _ (conj _ (conj _ (conj _ (conj _ (conj _ _)))))).
  - rewrite map_app. apply NoDup_app; [exact Ha|repeat constructor; intros []|].
    intros a Ha' [Ha2|[]]. apply in_map_iff in Ha' as [y [Hy1 Hy]].
    pose proof (proj1 (Forall_forall _ _) Hb y Hy) as Lt. unfold e2 in Ha2. simpl in Ha2. cbv beta in Lt. lia.
  - apply Forall_app. split.
    + apply (Forall_impl _ (fun e (H : (ev_id e < next_id s)%nat) => Nat.lt_lt_succ_r _ _ H) Hb).
    + repeat constructor.
  - intros e He'. apply in_app_or in He' as [He'|[<-|[]]]; [exact (Hc e He')|].
    exists (uid sh). split; [exact Ex|]. left. apply in_map. exact Hin.
  - intros e u He' Hu HuP. apply in_app_or in He' as [He'|[<-|[]]].
    + rewrite map_app in HuP. apply in_app_or in HuP as [HuP|[HuP|[]]];
        [exact (Hd e u He' Hu HuP)|].
      subst u. apply (Hd e (uid sh) He' Hu). apply (Hg e (uid sh) He' Hu Hnew).
    + rewrite Ex in Hu. injection Hu as <-.
      exact (matches_own (uid sh) sh e2 Hin eq_refl (needsUpdate_own _ sh _ _)).
  - intros u HuP. rewrite map_app in HuP.
    apply in_app_or in HuP as [HuP|[HuP|[]]].
    + destruct (He u HuP) as [e [Hev Hu]]. exists e.
      split; [apply in_or_app; left; exact Hev|exact Hu].
    + subst u. exists e2. split; [apply in_or_app; right; left; reflexivity|exact Ex].
  - intros u1 e1 Hu1 Hf1. destruct (Hf u1 e1 Hu1 Hf1) as [x1 [F1 [Hx1 [Ex1 Ux1]]]].
    exists x1. refine (conj _ (conj _ (conj Ex1 _))).
    + rewrite find_app, F1. reflexivity.
    + apply in_or_app. left. exact Hx1.
    + intros y Hy Ey. apply in_app_or in Hy as [Hy|[<-|[]]]; [exact (Ux1 y Hy Ey)|].
      exfalso. rewrite Ex in Ey. injection Ey as Ey. apply Hnew. rewrite Ey.
      apply find_some in Hf1 as [He1 Hh1]. apply in_managed_uids. exists e1.
      split; [exact He1|]. unfold has_uid in Hh1.
      destruct (extractShiftUID e1) as [u'|]; [|discriminate].
      apply String.eqb_eq in Hh1. rewrite Hh1. reflexivity.
  - intros e u He' Hu Hn'. rewrite map_app. apply in_or_app.
    apply in_app_or in He' as [He'|[<-|[]]]; [left; exact (Hg e u He' Hu Hn')|].
    right. rewrite Ex in Hu. injection Hu as <-. left. reflexivity.
Qed.

Lemma upsert_step (P : list Shift) (r : SyncResult) (sh : Shift) (s : store) :
  In sh shifts -> run_inv shifts sS sE now existing P s ->
  exists r' s', upsert_one (fun _ => false) now existing (managed_uids existing) r sh s
                = Done r' s'
                /\ run_inv shifts sS sE now existing (P ++ [sh]) s'.
Proof.
  intros Hin J.
  assert (HuD : In (uid sh) (map uid shifts)) by (apply in_map; exact Hin).
  unfold upsert_one.
  destruct (existsb (String.eqb (uid sh)) (managed_uids existing)) eqn:Eex.
  - assert (HuEU : In (uid sh) (managed_uids existing)).
    { apply existsb_exists in Eex as [u' [Hu' Eu']]. apply String.eqb_eq in Eu'.
      rewrite Eu'. exact Hu'. }
    destruct (find (has_uid (uid sh)) existing) as [e0|] eqn:Ef.
    2:{ exfalso. apply in_managed_uids in HuEU as [e [He Hue]].
        pose proof (find_none _ _ Ef e He) as F. unfold has_uid in F.
        rewrite Hue, String.eqb_refl in F. discriminate F. }
    pose proof J as J'. unfold run_inv in J'.
    destruct J' as (_ & _ & _ & _ & _ & Hf & _).
    destruct (Hf (uid sh) e0 HuD Ef) as [x [Fx [Hx [Ex Ux]]]].
    erewrite bind_done; [|unfold current; cbv beta; rewrite Fx; reflexivity]. cbv beta.
    destruct (needsUpdate x sh) eqn:En.
    + erewrite bind_done; [|apply save_ok].
      assert (Hexx : existsb (fun y => Nat.eqb (ev_id y) (ev_id (updateEvent x sh))) (events s)
                     = true).
      { apply existsb_exists. exists x.
        split; [exact (proj1 (in_V _ _ _ _ Hx))|apply Nat.eqb_refl]. }
      rewrite Hexx. cbv beta. eexists; eexists; split; [reflexivity|].
      exact (inv_update P s sh x _ Hin J Hx Ex Ux).
    + eexists; eexists; split; [reflexivity|]. exact (inv_keep P s sh x Hin J Hx Ex Ux En).
  - assert (Hnew : ~ In (uid sh) (managed_uids existing)).
    { intros H.
      assert (T : existsb (String.eqb (uid sh)) (managed_uids existing) = true)
        by (apply existsb_exists; exists (uid sh); split; [exact H|apply String.eqb_refl]).
      rewrite T in Eex. discriminate Eex. }
    erewrite bind_done; [|reflexivity]. cbv beta.
    erewrite bind_done; [|apply save_ok].
    match goal with |- context [existsb ?f ?l] =>
      assert (Hno : existsb f l = false); [|rewrite Hno] end.
    { apply Bool.not_true_iff_false. intros Hex. apply existsb_exists in Hex as [y [Hy Hyid]].
      cbn in Hy, Hyid. apply Nat.eqb_eq in Hyid.
      pose proof J as J'. unfold run_inv in J'. destruct J' as (_ & Hb & _).
      pose proof (proj1 (Forall_forall _ _) Hb y Hy) as Lt. cbv beta in Lt. lia. }
    cbv beta. eexists; eexists; split; [reflexivity|].
    exact (inv_create P s sh _ Hin Hnew J).
Qed.

Lemma upsert_loop (l P : list Shift) (r : SyncResult) (s : store) :
  incl l shifts -> run_inv shifts sS sE now existing P s ->
  exists r' s', foldM (upsert_one (fun _ => false) now existing (managed_uids existing)) l r s
                = Done r' s'
                /\ run_inv shifts sS sE now existing (P ++ l) s'.
Proof.
  revert P r s. induction l as [|sh l IH]; intros P r s Hl J.
  - exists r, s. split; [reflexivity|]. rewrite app_nil_r. exact J.
  - destruct (upsert_step P r sh s (Hl sh (or_introl eq_refl)) J) as [r1 [s1 [E1 J1]]].
    cbn [foldM]. rewrite (bind_done _ _ _ _ _ E1).
    destruct (IH (P ++ [sh])%list r1 s1 (fun x Hx => Hl x (or_intror Hx)) J1)
      as [r' [s' [E' J']]].
    exists r', s'. split; [exact E'|]. rewrite <- app_assoc in J'. exact J'.
Qed.

(** the store after the deduplication pass and the delete loop *)
Lemma inv_start (s : store) (w : list write) :
  NoDup (map ev_id (events s)) ->
  Forall (fun e => (ev_id e < next_id s)%nat) (events s) ->
  Permutation existing (filter (inwm sS sE) (events s)) ->
  NoDup (managed_uids existing) ->
  run_inv shifts sS sE now existing []
    (mkStore (filter (not_in_ids (to_delete now (map uid shifts) existing)) (events s))
             (next_id s) w).
Proof.
  intros Hnd Hb Pex Hux. unfold run_inv. cbn [events next_id].
  set (TD := to_delete now (map uid shifts) existing).
  assert (Hidx : NoDup (map ev_id existing)).
  { apply (Permutation_NoDup (l := map ev_id (filter (inwm sS sE) (events s)))).
    - apply Permutation_map. symmetry. exact Pex.
    - apply NoDup_map_filter. exact Hnd. }
  assert (Hkeep : forall e, In e existing -> not_in_ids TD e = true -> ~ In e TD).
  { intros e He Hn Ht. unfold not_in_ids in Hn. apply Bool.negb_true_iff in Hn.
    assert (T : existsb (fun d => Nat.eqb (ev_id e) (ev_id d)) TD = true)
      by (apply existsb_exists; exists e; split; [exact Ht|apply Nat.eqb_refl]).
    rewrite T in Hn. discriminate Hn. }
  assert (Hdel : forall e, In e existing -> ~ In e TD -> not_in_ids TD e = true).
  { intros e He Hn. unfold not_in_ids. apply Bool.negb_true_iff.
    apply Bool.not_true_iff_false. intros T. apply existsb_exists in T as [d [Hd Ed]].
    apply Nat.eqb_eq in Ed. apply Hn.
    assert (Hdx : In d existing) by exact (proj1 (proj1 (filter_In _ _ _) Hd)).
    rewrite (same_id existing e d Hidx He Hdx Ed). exact Hd. }
  assert (HVb : forall e, In e (filter (inwm sS sE) (filter (not_in_ids TD) (events s))) ->
              In e existing /\ not_in_ids TD e = true /\ In e (events s)
              /\ inwm sS sE e = true).
  { intros e He. apply filter_In in He as [He Hi]. apply filter_In in He as [He Hn].
    split; [|split; [exact Hn|split; [exact He|exact Hi]]].
    apply (Permutation_in _ (Permutation_sym Pex)). apply filter_In. split; assumption. }
  refine (conj _ (conj _ (conj _ (conj _ (conj _ (conj _ _)))))).
  - apply NoDup_map_filter. exact Hnd.
  - apply Forall_forall. intros e He. apply filter_In in He as [He _].
    exact (proj1 (Forall_forall _ _) Hb e He).
  - intros e He. destruct (HVb e He) as (Hex & Hn & _ & Hi).
    destruct (managed_some e (inwm_managed _ _ _ Hi)) as [u Hu]. exists u. split; [exact Hu|].
    destruct (endDate e <? now) eqn:Et; [right; apply Z.ltb_lt; exact Et|].
    destruct (existsb (String.eqb u) (map uid shifts)) eqn:Ed.
    + left. apply existsb_exists in Ed as [u' [Hu' Eu']]. apply String.eqb_eq in Eu'.
      rewrite Eu'. exact Hu'.
    + exfalso. apply (Hkeep e Hex Hn). apply filter_In. split; [exact Hex|].
      rewrite Hu, Et, Ed. reflexivity.
  - intros e u _ _ [].
  - intros u [].
  - intros u e0 HuD Hf0. apply find_some in Hf0 as [He0 Hh0].
    unfold has_uid in Hh0. destruct (extractShiftUID e0) as [u0|] eqn:Eu0; [|discriminate].
    apply String.eqb_eq in Hh0. subst u0.
    assert (Hn0 : not_in_ids TD e0 = true).
    { apply Hdel; [exact He0|]. intros Ht. apply filter_In in Ht as [_ Ht].
      rewrite Eu0 in Ht. destruct (endDate e0 <? now); [discriminate Ht|].
      assert (T : existsb (String.eqb u) (map uid shifts) = true)
        by (apply existsb_exists; exists u; split; [exact HuD|apply String.eqb_refl]).
      rewrite T in Ht. discriminate Ht. }
    assert (HV0 : In e0 (filter (inwm sS sE) (events s)))
      by exact (Permutation_in _ Pex He0).
    apply filter_In in HV0 as [Hs0 Hi0].
    assert (Hb0 : In e0 (filter (not_in_ids TD) (events s)))
      by (apply filter_In; split; assumption).
    exists e0. refine (conj _ (conj _ (conj Eu0 _))).
    + apply find_id; [apply NoDup_map_filter; exact Hnd|exact Hb0].
    + apply filter_In. split; assumption.
    + intros y Hy Ey. destruct (HVb y Hy) as (Hyx & _).
      exact (uid_unique existing y e0 u Hux Hyx He0 Ey Eu0).
  - intros e u He Hu Hn. exfalso. destruct (HVb e He) as (Hex & _).
    apply Hn. apply in_managed_uids. exists e. split; assumption.
Qed.

End Run1.

(** C1 fails on the EventKit path: a desired shift outside the search window
    is never found by [getExistingShiftEvents], so every run creates it again
    ([added = 1] on the second run, two events in the calendar). *)
Lemma eventkit_second_run_readds_outside_window :
  match syncShifts (fun _ => false) [EventKitSamples.sh] 29000000 29100000 29100000
                   (mkStore [] 0 []) with
  | Done r1 s1 =>
      added r1 = 1
      /\ match syncShifts (fun _ => false) [EventKitSamples.sh] 29000000 29100000 29100000 s1 with
         | Done r2 s2 => added r2 = 1 /\ List.length (events s2) = 2%nat
         | Thrown _ _ => False
         end
  | Thrown _ _ => False
  end.
Proof. vm_compute. repeat split; reflexivity. Qed.

(** C1, as the EventKit [syncShifts] behaves.  Start from a calendar whose
    object ids are distinct and below [next_id].  Let every desired shift lie
    in the search window, carry an identifier without a line break, and agree
    in title, start, end and location with every desired shift of the same
    identifier.  If the first run has no failing write, the second run, at
    the same or a later time and on the store the first run left, returns
    [emptyResult] (added, updated and deleted all 0, no shift listed) and
    leaves the store as it was: no write call at all, whichever may fail. *)
Theorem eventkit_second_run_noop (shifts : list Shift) (sS sE now1 now2 : Z) (s0 : store)
    (fails2 : write -> bool) :
  NoDup (map ev_id (events s0)) ->
  Forall (fun e => (ev_id e < next_id s0)%nat) (events s0) ->
  (forall sh, In sh shifts -> start sh < sE /\ sS < end_ sh) ->
  (forall sh, In sh shifts -> Str.contains (uid sh) newline = false) ->
  same_content_per_uid shifts ->
  now1 <= now2 ->
  exists r1 s1, syncShifts (fun _ => false) shifts sS sE now1 s0 = Done r1 s1
                /\ syncShifts fails2 shifts sS sE now2 s1 = Done emptyResult s1.
Proof.
  intros Hnd0 Hb0 Hwin Hnl Hsame Hnow.
  destruct (dedup_view (inwm sS sE) s0 Hnd0 (inwm_managed sS sE))
    as [sel1 [dups1 [Ed1 [Hk1 [Hsel1 [_ Hp1]]]]]].
  set (sa := mkStore (filter (not_in_ids dups1) (events s0)) (next_id s0)
                     (writes s0 ++ map WRemove dups1)%list) in *.
  set (existing := sort_by_start (map snd sel1)).
  assert (Pex : Permutation existing (filter (inwm sS sE) (events sa))).
  { transitivity (map snd sel1); [apply sort_by_start_perm|]. symmetry. exact Hp1. }
  assert (Hnda : NoDup (map ev_id (events sa))) by (apply NoDup_map_filter; exact Hnd0).
  assert (Hba : Forall (fun e => (ev_id e < next_id sa)%nat) (events sa)).
  { apply Forall_forall. intros e He. apply filter_In in He as [He _].
    exact (proj1 (Forall_forall _ _) Hb0 e He). }
  assert (Hux : NoDup (managed_uids existing)).
  { apply (Permutation_NoDup (l := managed_uids (map snd sel1))).
    - unfold managed_uids. apply Permutation_flat_map. symmetry. apply sort_by_start_perm.
    - rewrite sel_uids by exact Hsel1. exact Hk1. }
  set (TD := to_delete now1 (map uid shifts) existing).
  destruct (deletes_ok TD emptyResult sa) as [rd Ed].
  pose proof (inv_start shifts sS sE now1 existing sa (writes sa ++ map WRemove TD)%list
                        Hnda Hba Pex Hux) as J0.
  destruct (upsert_loop shifts sS sE now1 existing Hwin Hnl Hsame shifts [] rd _
                        (incl_refl shifts) J0) as [rc [sc [Ec Jc]]].
  destruct Jc as (Hndc & _ & Hcc & Hdc & Hec & _ & _).
  destruct (dedup_view (inwm sS sE) sc Hndc (inwm_managed sS sE))
    as [sel2 [dups2 [Ed2 [Hk2 [Hsel2 [Hlk2 Hp2]]]]]].
  eexists; eexists; split.
  - unfold syncShifts.
    erewrite bind_done; [|apply get_eq]. cbv beta.
    erewrite bind_done; [|exact Ed1]. cbv beta zeta.
    erewrite bind_done; [|exact Ed]. cbv beta.
    erewrite bind_done; [|exact Ec]. cbv beta.
    erewrite bind_done; [|apply get_eq]. cbv beta.
    erewrite bind_done; [|exact Ed2]. reflexivity.
  - apply settled_run; cbn [events].
    + apply NoDup_map_filter. exact Hndc.
    + apply (Permutation_NoDup (l := managed_uids (map snd sel2))).
      * unfold managed_uids. apply Permutation_flat_map. symmetry. exact Hp2.
      * rewrite sel_uids by exact Hsel2. exact Hk2.
    + intros e He. rewrite filter_comm in He. apply filter_In in He as [He _].
      destruct (Hcc e He) as [u [Hu Hor]]. exists u. split; [exact Hu|]. split.
      * intros HuD. exact (Hdc e u He Hu HuD).
      * destruct Hor as [Hor|Hor]; [left; exact Hor|right; lia].
    + intros sh Hin. destruct (Hec (uid sh) (in_map uid shifts sh Hin)) as [e [He Hu]].
      destruct (Hlk2 e (uid sh) He Hu) as [w Hw]. apply lookup_in in Hw.
      exists w. split.
      * apply (Permutation_in _ (Permutation_sym Hp2)).
        exact (in_map snd sel2 (uid sh, w) Hw).
      * exact (Hsel2 (uid sh) w Hw).
Qed.

Lemma eventkit_second_run_noop_witness :
  exists r1 s1,
    syncShifts (fun _ => false) [EventKitSamples.sh] 29000000 29300000 29100000 (mkStore [] 0 [])
    = Done r1 s1
    /\ syncShifts (fun _ => false) [EventKitSamples.sh] 29000000 29300000 29100000 s1
       = Done emptyResult s1.
Proof.
  apply (eventkit_second_run_noop [EventKitSamples.sh] 29000000 29300000 29100000 29100000
           (mkStore [] 0 []) (fun _ => false)).
  - constructor.
  - constructor.
  - intros sh [<-|[]]. vm_compute. split; reflexivity.
  - intros sh [<-|[]]. vm_compute. reflexivity.
  - intros sh sh' [<-|[]] [<-|[]] _. repeat split.
  - lia.
Defined.

End Idempotence.

(** ** iCalendar body *)
Module ICalProofs.
Import GoMain GoICal Checks Readers StrFacts UrlFacts UidChars.

Lemma unescape_escape_byte (c : ascii) (x : string) :
  unescape (escape_byte c ++ x) = String c (unescape x).
Proof.
  unfold escape_byte.
  destruct (Ascii.eqb_spec c "\"%char) as [->|H1]; [reflexivity|].
  destruct (Ascii.eqb_spec c ";"%char) as [->|H2]; [reflexivity|].
  destruct (Ascii.eqb_spec c ","%char) as [->|H3]; [reflexivity|].
  destruct (Ascii.eqb_spec c LF) as [->|H4]; [reflexivity|].
  simpl. apply Ascii.eqb_neq in H1. rewrite H1. reflexivity.
Qed.

Lemma escape_byte_no_lf (c : ascii) : all_chars (not_char LF) (escape_byte c) = true.
Proof.
  unfold escape_byte.
  destruct (Ascii.eqb_spec c "\"%char); [reflexivity|].
  destruct (Ascii.eqb_spec c ";"%char); [reflexivity|].
  destruct (Ascii.eqb_spec c ","%char); [reflexivity|].
  destruct (Ascii.eqb_spec c LF) as [->|H]; [reflexivity|].
  simpl. unfold not_char. apply Ascii.eqb_neq in H. rewrite Ascii.eqb_sym, H. reflexivity.
Qed.

Lemma escape_no_lf (text : string) : all_chars (not_char LF) (escapeICalText text) = true.
Proof.
  induction text as [|c t IH]; [reflexivity|].
  simpl. rewrite all_chars_app, escape_byte_no_lf, IH. reflexivity.
Qed.

(** [escapeICalText] loses nothing: undoing the escapes gives the text back,
    and the escaped text holds no line feed *)
Theorem escapeICalText_roundtrip (text : string) :
  unescape (escapeICalText text) = text
  /\ all_chars (not_char LF) (escapeICalText text) = true.
Proof.
  split; [|apply escape_no_lf].
  induction text as [|c t IH]; [reflexivity|].
  simpl. rewrite unescape_escape_byte, IH. reflexivity.
Qed.

Lemma lines_of_line (acc t r : string) :
  all_chars (not_char LF) t = true ->
  lines_of acc (t ++ crlf ++ r) = (acc ++ t) :: lines_of "" r.
Proof.
  revert acc. induction t as [|c t IH]; intros acc Ht.
  - simpl. rewrite string_app_nil. reflexivity.
  - simpl in Ht. apply andb_prop in Ht as [Hc Ht].
    assert (E : acc ++ String c t = (acc ++ String c "") ++ t)
      by (rewrite str_app_assoc; reflexivity).
    rewrite E. simpl.
    destruct (Ascii.eqb c CR) eqn:Ec.
    + destruct t as [|d t'].
      * apply Ascii.eqb_eq in Ec. subst c. simpl. rewrite string_app_nil. reflexivity.
      * assert (Hd : Ascii.eqb d LF = false).
        { simpl in Ht. apply andb_prop in Ht as [Hd _]. unfold not_char in Hd.
          rewrite Ascii.eqb_sym in Hd. apply negb_true_iff in Hd. exact Hd. }
        simpl. rewrite Hd. exact (IH _ Ht).
    + exact (IH _ Ht).
Qed.

Lemma lines_of_all (L : list string) :
  Forall (fun l => all_chars (not_char LF) l = true) L ->
  lines_of "" (fold_right String.append "" (map (fun l => l ++ crlf) L)) = L.
Proof.
  induction 1 as [|l L Hl HL IH]; [reflexivity|].
  simpl. rewrite str_app_assoc, lines_of_line by exact Hl. rewrite IH. reflexivity.
Qed.

Lemma uid_no_lf (s : string) : all_chars uid_char s = true -> all_chars (not_char LF) s = true.
Proof.
  apply all_chars_impl. intros c Hc. unfold not_char.
  destruct (Ascii.eqb_spec LF c) as [<-|]; [discriminate Hc | reflexivity].
Qed.

Lemma formatDT_no_lf (t : Z) : all_chars (not_char LF) (formatDT t) = true.
Proof.
  unfold formatDT, GoTime.fmt_minute, GoTime.fmt_date, GoTime.fmt_hm.
  destruct (GoTime.civil t) as [[y m] d].
  rewrite !all_chars_app, !(fun x w => uid_no_lf _ (fmt_int_chars x w)). reflexivity.
Qed.

Lemma ical_writes_lines (s : shift) (uid : string) :
  ical_writes s uid = map (fun l => l ++ crlf) (ical_lines s uid).
Proof.
  unfold ical_writes, ical_lines.
  destruct (negb (String.eqb (Location s) "")), (negb (String.eqb (Memo s) ""));
    simpl; rewrite ?str_app_assoc; reflexivity.
Qed.

Lemma ical_lines_no_lf (s : shift) (uid : string) :
  all_chars (not_char LF) uid = true ->
  Forall (fun l => all_chars (not_char LF) l = true) (ical_lines s uid).
Proof.
  intros Hu. unfold ical_lines.
  pose proof (escape_no_lf (Title s)) as Ht.
  pose proof (escape_no_lf (Location s)) as Hl.
  pose proof (escape_no_lf (Memo s)) as Hm.
  pose proof (formatDT_no_lf (Start s)) as H1.
  pose proof (formatDT_no_lf (End s)) as H2.
  rewrite !Forall_app. repeat split.
  - repeat (apply Forall_cons; [rewrite ?all_chars_app, ?H1, ?H2, ?Hu, ?Ht; reflexivity|]).
    apply Forall_nil.
  - destruct (negb (String.eqb (Location s) "")); [|apply Forall_nil].
    apply Forall_cons; [rewrite all_chars_app, Hl; reflexivity | apply Forall_nil].
  - destruct (negb (String.eqb (Memo s) "")); [|apply Forall_nil].
    apply Forall_cons; [rewrite all_chars_app, Hm; reflexivity | apply Forall_nil].
  - repeat (apply Forall_cons; [reflexivity|]). apply Forall_nil.
Qed.

(** the body [buildSingleEventICAL] makes for a shift and its identity reads
    back, split at CRLF, as exactly the lines it writes: no field value adds
    or breaks a line *)
Theorem buildSingleEventICAL_lines (s : shift) :
  lines_of "" (buildSingleEventICAL s (makeShiftUID s)) = ical_lines s (makeShiftUID s).
Proof.
  unfold buildSingleEventICAL. rewrite ical_writes_lines. apply lines_of_all.
  apply ical_lines_no_lf, uid_no_lf, (proj2 (makeShiftUID_chars s)).
Qed.
End ICalProofs.

(** ** Months *)
Module MonthProofs.
Import GoMonths Readers UidProofs.

Lemma dval_range (c : ascii) : is_digit c = true -> 0 <= dval c <= 9.
Proof.
  unfold is_digit, dval. intros H. apply andb_prop in H as [H1 H2].
  apply Nat.leb_le in H1, H2. lia.
Qed.

Lemma digit_inj (c c' : ascii) : dval c = dval c' -> c = c'.
Proof.
  unfold dval. intros H.
  rewrite <- (ascii_nat_embedding c), <- (ascii_nat_embedding c'). f_equal. lia.
Qed.

Lemma digit1_digit (c : ascii) (r : string) :
  is_digit c = true -> digit1 (String c r) = Some (dval c, r).
Proof. intros H. simpl. rewrite H. reflexivity. Qed.

Lemma digit1_some (s r : string) (a : Z) :
  digit1 s = Some (a, r) -> exists c, s = String c r /\ is_digit c = true /\ dval c = a.
Proof.
  destruct s as [|c s]; simpl; [discriminate|].
  destruct (is_digit c) eqn:E; [|discriminate]. intros H; inversion H; subst. eauto.
Qed.

Lemma four_shape_spec (x : Z) :
  0 <= x <= 9999 ->
  exists a b c d, Dec.fmt_int x 4 = String a (String b (String c (String d EmptyString)))
    /\ is_digit a = true /\ is_digit b = true /\ is_digit c = true /\ is_digit d = true
    /\ dval a * 1000 + dval b * 100 + dval c * 10 + dval d = x.
Proof.
  intros Hx.
  assert (H : four_shape x = true)
    by (apply (forall_from_spec _ 0 (Z.to_nat 10000)); [vm_compute; reflexivity | rewrite Z2Nat.id; lia]).
  unfold four_shape in H.
  destruct (Dec.fmt_int x 4) as [|a [|b [|c [|d [|e r]]]]]; try discriminate.
  exists a, b, c, d.
  apply andb_prop in H as [H Hv]. apply andb_prop in H as [H Hd].
  apply andb_prop in H as [H Hc]. apply andb_prop in H as [Ha Hb]. apply Z.eqb_eq in Hv.
  repeat split; assumption.
Qed.

Lemma two_shape_spec (x : Z) :
  0 <= x <= 99 ->
  exists a b, Dec.fmt_int x 2 = String a (String b EmptyString)
    /\ is_digit a = true /\ is_digit b = true /\ dval a * 10 + dval b = x.
Proof.
  intros Hx.
  assert (H : two_shape x = true)
    by (apply (forall_from_spec _ 0 (Z.to_nat 100)); [vm_compute; reflexivity | rewrite Z2Nat.id; lia]).
  unfold two_shape in H.
  destruct (Dec.fmt_int x 2) as [|a [|b [|e r]]]; try discriminate.
  exists a, b.
  apply andb_prop in H as [H Hv]. apply andb_prop in H as [Ha Hb]. apply Z.eqb_eq in Hv.
  repeat split; assumption.
Qed.

Lemma one_shape_spec (x : Z) :
  0 <= x <= 9 ->
  exists a, Dec.fmt_int x 1 = String a EmptyString /\ is_digit a = true /\ dval a = x.
Proof.
  intros Hx.
  assert (H : one_shape x = true)
    by (apply (forall_from_spec _ 0 (Z.to_nat 10)); [vm_compute; reflexivity | rewrite Z2Nat.id; lia]).
  unfold one_shape in H.
  destruct (Dec.fmt_int x 1) as [|a [|e r]]; try discriminate.
  exists a. apply andb_prop in H as [H1 H2]. apply Z.eqb_eq in H2. auto.
Qed.

Lemma digits4_some (s r : string) (v : Z) :
  digits4 s = Some (v, r) ->
  exists a b c d, s = String a (String b (String c (String d r)))
    /\ is_digit a = true /\ is_digit b = true /\ is_digit c = true /\ is_digit d = true
    /\ dval a * 1000 + dval b * 100 + dval c * 10 + dval d = v.
Proof.
  unfold digits4.
  destruct (digit1 s) as [[x1 s1]|] eqn:E1; [|discriminate].
  destruct (digit1 s1) as [[x2 s2]|] eqn:E2; [|discriminate].
  destruct (digit1 s2) as [[x3 s3]|] eqn:E3; [|discriminate].
  destruct (digit1 s3) as [[x4 s4]|] eqn:E4; [|discriminate].
  intros H; inversion H; subst.
  apply digit1_some in E1 as (a & -> & Ha & <-).
  apply digit1_some in E2 as (b & -> & Hb & <-).
  apply digit1_some in E3 as (c & -> & Hc & <-).
  apply digit1_some in E4 as (d & -> & Hd & <-).
  exists a, b, c, d. auto 10.
Qed.

Lemma digits4_digits (a b c d : ascii) (r : string) :
  is_digit a = true -> is_digit b = true -> is_digit c = true -> is_digit d = true ->
  digits4 (String a (String b (String c (String d r))))
  = Some (dval a * 1000 + dval b * 100 + dval c * 10 + dval d, r).
Proof.
  intros Ha Hb Hc Hd. unfold digits4.
  rewrite (digit1_digit a _ Ha), (digit1_digit b _ Hb), (digit1_digit c _ Hc),
    (digit1_digit d _ Hd).
  reflexivity.
Qed.

Lemma parseYYYYMM_some (s : string) (ym : yearMonth) :
  parseYYYYMM s = Some ym ->
  0 <= Year ym <= 9999 /\ 1 <= Month ym <= 12
  /\ s = Dec.fmt_int (Year ym) 4 ++ "-" ++ Dec.fmt_int (Month ym) 2.
Proof.
  unfold parseYYYYMM.
  destruct (digits4 s) as [[y r]|] eqn:E4; [|discriminate].
  apply digits4_some in E4 as (a & b & c & d & -> & Ha & Hb & Hc & Hd & Hy).
  destruct r as [|dash r]; [discriminate|].
  change (drop_prefix "-" (String dash r))
    with (if Ascii.eqb "-" dash then drop_prefix "" r else None).
  destruct (Ascii.eqb_spec "-"%char dash) as [<-|]; [|discriminate].
  change (drop_prefix "" r) with (Some r). cbv beta iota.
  destruct (digit1 r) as [[x r1]|] eqn:Ex; [|discriminate].
  destruct (digit1 r1) as [[z r2]|] eqn:Ez; [|discriminate].
  apply digit1_some in Ex as (e & -> & He & <-).
  apply digit1_some in Ez as (f & -> & Hf & <-).
  destruct ((dval e * 10 + dval f <=? 0) || (12 <? dval e * 10 + dval f)) eqn:Em;
    [discriminate|].
  destruct (String.eqb_spec r2 "") as [->|]; [|discriminate].
  intros H; inversion H; subst ym y; clear H. cbn [Year Month].
  apply orb_false_iff in Em as [Em1 Em2]. apply Z.leb_gt in Em1. apply Z.ltb_ge in Em2.
  pose proof (dval_range a Ha). pose proof (dval_range b Hb).
  pose proof (dval_range c Hc). pose proof (dval_range d Hd).
  pose proof (dval_range e He). pose proof (dval_range f Hf).
  split; [lia|]. split; [lia|].
  destruct (four_shape_spec (dval a * 1000 + dval b * 100 + dval c * 10 + dval d)
              ltac:(lia)) as (a' & b' & c' & d' & -> & Ha' & Hb' & Hc' & Hd' & Hv).
  destruct (two_shape_spec (dval e * 10 + dval f) ltac:(lia))
    as (e' & f' & -> & He' & Hf' & Hw).
  pose proof (dval_range a' Ha'). pose proof (dval_range b' Hb').
  pose proof (dval_range c' Hc'). pose proof (dval_range d' Hd').
  pose proof (dval_range e' He'). pose proof (dval_range f' Hf').
  rewrite (digit_inj a a'), (digit_inj b b'), (digit_inj c c'), (digit_inj d d'),
    (digit_inj e e'), (digit_inj f f') by lia.
  reflexivity.
Qed.

Lemma parseYYYYMM_fmt (ym : yearMonth) :
  0 <= Year ym <= 9999 -> 1 <= Month ym <= 12 ->
  parseYYYYMM (Dec.fmt_int (Year ym) 4 ++ "-" ++ Dec.fmt_int (Month ym) 2) = Some ym.
Proof.
  intros Hy Hm.
  destruct ym as [y m]; simpl in *.
  destruct (four_shape_spec y Hy) as (a & b & c & d & -> & Ha & Hb & Hc & Hd & Hv).
  destruct (two_shape_spec m ltac:(lia)) as (e & f & -> & He & Hf & Hw).
  unfold parseYYYYMM. simpl String.append.
  rewrite (digits4_digits a b c d _ Ha Hb Hc Hd), Hv. cbv beta iota.
  change (drop_prefix "-" (String "-" (String e (String f "")))) with
    (Some (String e (String f ""))). cbv beta iota.
  rewrite (digit1_digit e _ He). cbv beta iota.
  rewrite (digit1_digit f _ Hf). cbv beta iota. rewrite Hw.
  replace ((m <=? 0) || (12 <? m)) with false
    by (symmetry; apply orb_false_iff; split; [apply Z.leb_gt | apply Z.ltb_ge]; lia).
  reflexivity.
Qed.

(** the year-month [parseYYYYMM] accepts: exactly a zero-padded four-digit
    year, a dash and a two-digit month in 1..12, nothing before or after *)
Theorem parseYYYYMM_iff (s : string) (ym : yearMonth) :
  parseYYYYMM s = Some ym
  <-> 0 <= Year ym <= 9999 /\ 1 <= Month ym <= 12
      /\ s = Dec.fmt_int (Year ym) 4 ++ "-" ++ Dec.fmt_int (Month ym) 2.
Proof.
  split; [apply parseYYYYMM_some|].
  intros (Hy & Hm & ->). exact (parseYYYYMM_fmt ym Hy Hm).
Qed.

Lemma norm_month_index (y m : Z) : norm_month y m = of_index (y * 12 + (m - 1)).
Proof.
  unfold norm_month, of_index. f_equal.
  - rewrite Z.div_add_l by lia. reflexivity.
  - rewrite (Z.add_comm (y * 12)), Z.mod_add by lia. reflexivity.
Qed.

Lemma index_of_index (i : Z) : ym_index (of_index i) = i.
Proof.
  unfold ym_index, of_index. simpl. pose proof (Z.div_mod i 12 ltac:(lia)). lia.
Qed.

Lemma of_index_valid (i : Z) : 1 <= Month (of_index i) <= 12.
Proof. simpl. pose proof (Z.mod_pos_bound i 12 ltac:(lia)). lia. Qed.

Lemma of_index_index (ym : yearMonth) : 1 <= Month ym <= 12 -> of_index (ym_index ym) = ym.
Proof.
  destruct ym as [y m]. unfold of_index, ym_index. simpl. intros Hm. f_equal.
  - rewrite Z.div_add_l by lia. rewrite Z.div_small by lia. lia.
  - rewrite (Z.add_comm (y * 12)), Z.mod_add by lia. rewrite Z.mod_small by lia. lia.
Qed.

Lemma addMonths_of_index (ym : yearMonth) (k : Z) :
  addMonths ym k = of_index (ym_index ym + k).
Proof.
  unfold addMonths. rewrite (norm_month_index (Year ym) (Month ym)).
  rewrite norm_month_index. f_equal.
  pose proof (index_of_index (Year ym * 12 + (Month ym - 1))) as H.
  unfold ym_index in H |- *. lia.
Qed.

Lemma addMonths_index (ym : yearMonth) (k : Z) : ym_index (addMonths ym k) = ym_index ym + k.
Proof. rewrite addMonths_of_index. apply index_of_index. Qed.

Lemma addMonths_valid (ym : yearMonth) (k : Z) : 1 <= Month (addMonths ym k) <= 12.
Proof. rewrite addMonths_of_index. apply of_index_valid. Qed.

(** [addMonths] moves [add] months along the calendar from a (year, month),
    normalising the month into 1..12 and carrying into the year; two moves
    add up.  The year is within a million years of year 0, and the month
    and both moves within twelve million months, so that Go's 64-bit month
    arithmetic and [time.Time]'s range are never exceeded. *)
Theorem addMonths_arith (ym : yearMonth) (a b : Z)
    (Hy : -1000000 <= Year ym <= 1000000) (Hm : -12000000 <= Month ym <= 12000000)
    (Ha : -12000000 <= a <= 12000000) (Hb : -12000000 <= b <= 12000000) :
  ym_index (addMonths ym a) = ym_index ym + a
  /\ 1 <= Month (addMonths ym a) <= 12
  /\ addMonths (addMonths ym a) b = addMonths ym (a + b).
Proof.
  rewrite !addMonths_of_index, !index_of_index.
  split; [reflexivity|]. split; [apply of_index_valid|]. f_equal. lia.
Qed.

Lemma addMonths_arith_witness :
  addMonths (addMonths (mkYM 2025 11) 3) (-14) = addMonths (mkYM 2025 11) (3 + -14).
Proof.
  exact (proj2 (proj2 (addMonths_arith (mkYM 2025 11) 3 (-14)
                         ltac:(simpl; lia) ltac:(simpl; lia) ltac:(lia) ltac:(lia)))).
Defined.

Lemma compare_index (a b : yearMonth) :
  1 <= Month a <= 12 -> 1 <= Month b <= 12 ->
  compareYearMonth a b
  = match Z.compare (ym_index a) (ym_index b) with Lt => -1 | Eq => 0 | Gt => 1 end.
Proof.
  destruct a as [ya ma], b as [yb mb]. unfold compareYearMonth, ym_index. simpl.
  intros Ha Hb.
  destruct (Z.eqb_spec ya yb) as [<-|Hy]; simpl.
  - destruct (Z.ltb_spec ma mb); [rewrite (proj2 (Z.compare_lt_iff _ _)) by lia; reflexivity|].
    destruct (Z.ltb_spec mb ma); [rewrite (proj2 (Z.compare_gt_iff _ _)) by lia; reflexivity|].
    replace mb with ma by lia. rewrite Z.compare_refl. reflexivity.
  - destruct (Z.ltb_spec ya yb).
    + rewrite (proj2 (Z.compare_lt_iff _ _)) by nia. reflexivity.
    + rewrite (proj2 (Z.compare_gt_iff _ _)) by nia. reflexivity.
Qed.

Lemma months_from_S (f : yearMonth) (n : nat) :
  1 <= Month f <= 12 -> months_from f (S n) = f :: months_from (addMonths f 1) n.
Proof.
  intros Hf. unfold months_from. change (seq 0 (S n)) with (0%nat :: seq 1 n).
  rewrite <- seq_shift. cbn [map]. rewrite map_map.
  rewrite Z.add_0_r, of_index_index by exact Hf. f_equal.
  apply map_ext. intros k. rewrite addMonths_of_index, index_of_index. f_equal. lia.
Qed.

Lemma loop_ok (t : yearMonth) (j : nat) :
  1 <= Month t <= 12 ->
  forall fuel ym acc,
  1 <= Month ym <= 12 -> ym_index t - ym_index ym = Z.of_nat j ->
  (List.length acc + j <= maxMonths)%nat -> (j <= fuel)%nat ->
  month_loop fuel t ym acc = inl (acc ++ months_from ym (S j))%list.
Proof.
  intros Ht. induction j as [|j IH]; intros fuel ym acc Hym Hd Hl Hf.
  - destruct fuel; simpl;
      rewrite (compare_index ym t Hym Ht), (proj2 (Z.compare_eq_iff _ _)) by lia;
      unfold months_from; simpl; rewrite Z.add_0_r, of_index_index by exact Hym;
      reflexivity.
  - destruct fuel as [|fuel]; [lia|]. simpl.
    rewrite (compare_index ym t Hym Ht), (proj2 (Z.compare_lt_iff _ _)) by lia. simpl.
    rewrite length_app. simpl.
    replace (maxMonths <? List.length acc + 1)%nat with false
      by (symmetry; apply Nat.ltb_ge; lia).
    rewrite IH.
    + rewrite (months_from_S ym (S j) Hym), <- app_assoc. reflexivity.
    + apply (addMonths_valid ym 1).
    + rewrite (addMonths_index ym 1). lia.
    + rewrite length_app. simpl. lia.
    + lia.
Qed.

Lemma loop_wide (t : yearMonth) (n : nat) :
  1 <= Month t <= 12 ->
  forall fuel ym acc,
  1 <= Month ym <= 12 -> Z.of_nat n < ym_index t - ym_index ym ->
  (List.length acc + n = maxMonths)%nat -> (n <= fuel)%nat ->
  month_loop fuel t ym acc = inr TooWide.
Proof.
  intros Ht. induction n as [|n IH]; intros fuel ym acc Hym Hd Hl Hf.
  - destruct fuel; simpl;
      rewrite (compare_index ym t Hym Ht), (proj2 (Z.compare_lt_iff _ _)) by lia; simpl;
      rewrite Nat.add_0_r in Hl; rewrite length_app, Hl; reflexivity.
  - destruct fuel as [|fuel]; [lia|]. simpl.
    rewrite (compare_index ym t Hym Ht), (proj2 (Z.compare_lt_iff _ _)) by lia. simpl.
    rewrite length_app. simpl.
    replace (maxMonths <? List.length acc + 1)%nat with false
      by (symmetry; apply Nat.ltb_ge; lia).
    apply IH.
    + apply (addMonths_valid ym 1).
    + rewrite (addMonths_index ym 1). lia.
    + rewrite length_app. simpl. lia.
    + lia.
Qed.

Lemma range_from_to (f t : yearMonth) :
  1 <= Month f <= 12 -> 1 <= Month t <= 12 ->
  (if 0 <? compareYearMonth f t then inr FromAfterTo
   else month_loop (S maxMonths) t f []) = range_spec f t.
Proof.
  intros Hf Ht. unfold range_spec. rewrite (compare_index f t Hf Ht).
  destruct (Z.ltb_spec (ym_index t - ym_index f) 0) as [Hn|Hn].
  - rewrite (proj2 (Z.compare_gt_iff _ _)) by lia. reflexivity.
  - replace (0 <? match Z.compare (ym_index f) (ym_index t) with
                  | Lt => -1 | Eq => 0 | Gt => 1 end) with false
      by (destruct (Z.compare_spec (ym_index f) (ym_index t)); [reflexivity|reflexivity|lia]).
    destruct (Z.ltb_spec (Z.of_nat maxMonths) (ym_index t - ym_index f)) as [Hw|Hw].
    + apply (loop_wide t maxMonths Ht); simpl; auto; lia.
    + replace (Z.to_nat (ym_index t - ym_index f) + 1)%nat
        with (S (Z.to_nat (ym_index t - ym_index f))) by lia.
      rewrite (loop_ok t (Z.to_nat (ym_index t - ym_index f)) Ht (S maxMonths) f []);
        [reflexivity | exact Hf | lia | simpl; lia | lia].
Qed.

Lemma current_month_valid (now : Z) : 1 <= Month (current_month now) <= 12.
Proof.
  unfold current_month, GoTime.civil.
  pose proof (civil_from_days_ok (now / 1440)) as H.
  destruct (GoTime.civil_from_days (now / 1440)) as [[y m] d]. cbn [Month]. lia.
Qed.

(** with months that parse, [buildMonthRange] returns the consecutive months
    from [from] to [to] (up to [maxMonths + 1] of them), "from after to" when
    [from] comes later and "too wide" when the span is longer; a missing
    [to] is the month after [from], a missing [from] is the current month *)
Theorem buildMonthRange_spec (now : Z) (fromStr toStr : string) (f t : yearMonth) :
  parseYYYYMM fromStr = Some f -> parseYYYYMM toStr = Some t ->
  buildMonthRange now fromStr toStr = range_spec f t
  /\ buildMonthRange now fromStr "" = range_spec f (addMonths f 1)
  /\ buildMonthRange now "" toStr = range_spec (current_month now) t.
Proof.
  intros Hf Ht.
  destruct (parseYYYYMM_some _ _ Hf) as (_ & Vf & _).
  destruct (parseYYYYMM_some _ _ Ht) as (_ & Vt & _).
  assert (Nf : String.eqb fromStr "" = false)
    by (destruct fromStr; [discriminate Hf | reflexivity]).
  assert (Nt : String.eqb toStr "" = false)
    by (destruct toStr; [discriminate Ht | reflexivity]).
  split; [|split]; unfold buildMonthRange.
  - rewrite Nf, Nt. cbn [andb negb]. rewrite Hf, Ht. cbv beta iota.
    apply range_from_to; assumption.
  - rewrite Nf. cbn [String.eqb andb negb]. rewrite Hf. cbv beta iota.
    apply range_from_to; [assumption | apply (addMonths_valid f 1)].
  - rewrite Nt. cbn [String.eqb andb negb]. rewrite Ht. cbv beta iota.
    apply range_from_to; [apply current_month_valid | assumption].
Qed.

Lemma buildMonthRange_spec_witness :
  parseYYYYMM "2025-11" = Some (mkYM 2025 11) /\ parseYYYYMM "2026-02" = Some (mkYM 2026 2)
  /\ (buildMonthRange (GoTime.date 2025 6 15 9 0) "2025-11" "2026-02"
      = range_spec (mkYM 2025 11) (mkYM 2026 2)
     /\ buildMonthRange (GoTime.date 2025 6 15 9 0) "2025-11" ""
        = range_spec (mkYM 2025 11) (addMonths (mkYM 2025 11) 1)
     /\ buildMonthRange (GoTime.date 2025 6 15 9 0) "" "2026-02"
        = range_spec (current_month (GoTime.date 2025 6 15 9 0)) (mkYM 2026 2)).
Proof.
  split; [reflexivity|]. split; [reflexivity|].
  apply (buildMonthRange_spec (GoTime.date 2025 6 15 9 0) "2025-11" "2026-02"); reflexivity.
Defined.
End MonthProofs.

(** ** Menu choices and page header *)
Module CLIProofs.
Import GoMonths GoCLI Readers Checks.

(** what [parseChoice] accepts: [0] for "new" when zero is allowed, reported as
    [-1], or a number [i] in [1..max], reported as the index [i - 1]; a text
    that scans no number is refused *)
Theorem parseChoice_iff (scanned : option Z) (max : Z) (allowZero : bool) (r : Z) :
  parseChoice scanned max allowZero = Some r
  <-> (allowZero = true /\ scanned = Some 0 /\ r = -1)
      \/ (scanned = Some (r + 1) /\ 0 <= r < max).
Proof.
  unfold parseChoice. split.
  - destruct (allowZero && ((match scanned with Some i => i | None => -1 end) =? 0)) eqn:Ez.
    + intros H; inversion H; subst r. left.
      apply andb_prop in Ez as [-> Ez]. apply Z.eqb_eq in Ez.
      destruct scanned as [i|]; [subst i; auto | discriminate].
    + destruct ((match scanned with Some i => i | None => -1 end <? 1)
                || (max <? match scanned with Some i => i | None => -1 end)) eqn:Er;
        [discriminate|].
      intros H; inversion H; subst r. right.
      apply orb_false_iff in Er as [E1 E2]. apply Z.ltb_ge in E1, E2.
      destruct scanned as [i|]; [|lia]. split; [f_equal; lia | lia].
  - intros [(-> & -> & ->) | (-> & Hr)]; [reflexivity|].
    replace (allowZero && (r + 1 =? 0)) with false
      by (symmetry; apply andb_false_iff; right; apply Z.eqb_neq; lia).
    replace ((r + 1 <? 1) || (max <? r + 1)) with false
      by (symmetry; apply orb_false_iff; split; apply Z.ltb_ge; lia).
    f_equal. lia.
Qed.

Lemma match_kanji_nondigit (c : ascii) (s : string) :
  is_digit c = false -> match_kanji (String c s) = None.
Proof. intros H. unfold match_kanji, digits4, digit1. rewrite H. reflexivity. Qed.

Lemma find_first_skip_gen (f : string -> option (Z * Z)) (p s : string) :
  (forall c x, is_digit c = false -> f (String c x) = None) ->
  no_digit p = true -> find_first f (p ++ s) = find_first f s.
Proof.
  intros Hf. induction p as [|c p IH]; [reflexivity|]. unfold no_digit. simpl.
  intros H. apply andb_prop in H as [Hc Hp]. apply negb_true_iff in Hc.
  rewrite Hf by exact Hc. exact (IH Hp).
Qed.

Lemma find_first_skip (p s : string) :
  no_digit p = true -> find_first match_kanji (p ++ s) = find_first match_kanji s.
Proof. apply find_first_skip_gen. exact match_kanji_nondigit. Qed.

Lemma match_dash_nondigit (c : ascii) (s : string) :
  is_digit c = false -> match_dash (String c s) = None.
Proof. intros H. unfold match_dash, digits4, digit1. rewrite H. reflexivity. Qed.

Lemma drop_prefix_app (p r : string) : drop_prefix p (p ++ r) = Some r.
Proof.
  induction p as [|c p IH]; [reflexivity|]. simpl. rewrite Ascii.eqb_refl. exact IH.
Qed.

Lemma match_kanji_year (y : Z) (r : string) :
  0 <= y <= 9999 ->
  match_kanji (Dec.fmt_int y 4 ++ nen ++ r)
  = match digit1 r with
    | None => None
    | Some (a, r1) =>
        match (match digit1 r1 with
               | Some (b, r2) =>
                   match drop_prefix tsuki r2 with
                   | Some _ => Some (a * 10 + b)
                   | None => None
                   end
               | None => None
               end) with
        | Some m => Some (y, m)
        | None =>
            match drop_prefix tsuki r1 with
            | Some _ => Some (y, a)
            | None => None
            end
        end
    end.
Proof.
  intros Hy.
  destruct (MonthProofs.four_shape_spec y Hy) as (a & b & c & d & -> & Ha & Hb & Hc & Hd & Hv).
  unfold match_kanji.
  change (String a (String b (String c (String d ""))) ++ nen ++ r)
    with (String a (String b (String c (String d (nen ++ r))))).
  rewrite (MonthProofs.digits4_digits a b c d _ Ha Hb Hc Hd), Hv. cbv beta iota.
  rewrite drop_prefix_app. reflexivity.
Qed.

Lemma find_first_hit (f : string -> option (Z * Z)) (s : string) (r : Z * Z) :
  f s = Some r -> find_first f s = Some r.
Proof. destruct s; simpl; intros ->; reflexivity. Qed.

(** a header such as [2025年6月] or [2025年06月], after any text without
    digits, gives [parseYearMonth] its year and month *)
Theorem parseYearMonth_kanji (p q : string) (y m : Z) (w : nat) :
  no_digit p = true -> 0 <= y <= 9999 -> 1 <= m <= 12 -> (w = 1 \/ w = 2)%nat ->
  parseYearMonth (p ++ Dec.fmt_int y 4 ++ nen ++ Dec.fmt_int m w ++ tsuki ++ q) = (y, m).
Proof.
  intros Hp Hy Hm Hw. unfold parseYearMonth.
  rewrite find_first_skip by exact Hp.
  rewrite (find_first_hit _ _ (y, m)); [reflexivity|].
  rewrite match_kanji_year by exact Hy.
  assert (m = 1 \/ m = 2 \/ m = 3 \/ m = 4 \/ m = 5 \/ m = 6 \/ m = 7 \/ m = 8 \/ m = 9
          \/ m = 10 \/ m = 11 \/ m = 12) as Hc by lia.
  destruct Hw as [-> | ->]; repeat destruct Hc as [-> | Hc]; try reflexivity; subst; reflexivity.
Qed.

Lemma all_chars_trim_left (f : ascii -> bool) (s : string) :
  all_chars f s = true -> all_chars f (Str.trim_left s) = true.
Proof.
  induction s as [|c s IH]; [reflexivity|]. simpl. intros H.
  destruct (Str.is_space c); [apply andb_prop in H as [_ H]; exact (IH H) | exact H].
Qed.

Lemma all_chars_rev_app (f : ascii -> bool) (a b : string) :
  all_chars f a = true -> all_chars f b = true -> all_chars f (Str.rev_app a b) = true.
Proof.
  revert b. induction a as [|c a IH]; intros b Ha Hb; [exact Hb|]. simpl in *.
  apply andb_prop in Ha as [Hc Ha]. apply IH; [exact Ha|]. simpl. rewrite Hc, Hb. reflexivity.
Qed.

Lemma no_digit_find (f : string -> option (Z * Z)) (s : string) :
  (forall c x, is_digit c = false -> f (String c x) = None) -> f "" = None ->
  no_digit s = true -> find_first f s = None.
Proof.
  intros Hf He H. rewrite <- (StrFacts.string_app_nil s).
  rewrite (find_first_skip_gen f s "" Hf H). simpl. rewrite He. reflexivity.
Qed.

(** a page header without any digit gives no year, and the shifts are dated
    in the current year *)
Theorem parseShifts_year_fallback (now : Z) (header : string) :
  no_digit header = true -> parseShifts_year now header = GoTime.year_of now.
Proof.
  intros H.
  assert (Ht : no_digit (Str.trim_space header) = true).
  { unfold no_digit, Str.trim_space in *.
    apply all_chars_rev_app; [|reflexivity]. apply all_chars_trim_left.
    apply all_chars_rev_app; [|reflexivity]. apply all_chars_trim_left. exact H. }
  unfold parseShifts_year, parseYearMonth.
  rewrite (no_digit_find match_kanji _ match_kanji_nondigit eq_refl Ht).
  rewrite (no_digit_find match_dash _ match_dash_nondigit eq_refl Ht).
  reflexivity.
Qed.

Lemma parseYearMonth_kanji_witness :
  no_digit "シフト表 " = true /\ 0 <= 2025 <= 9999 /\ 1 <= 6 <= 12 /\ (1 = 1 \/ 1 = 2)%nat
  /\ parseYearMonth ("シフト表 " ++ Dec.fmt_int 2025 4 ++ nen ++ Dec.fmt_int 6 1 ++ tsuki
                     ++ " (提出済み)") = (2025, 6).
Proof.
  split; [reflexivity|]. split; [lia|]. split; [lia|]. split; [left; reflexivity|].
  apply (parseYearMonth_kanji "シフト表 " " (提出済み)" 2025 6 1);
    [reflexivity | lia | lia | left; reflexivity].
Defined.

Lemma parseShifts_year_fallback_witness :
  no_digit "シフト表" = true
  /\ parseShifts_year (GoTime.date 2025 6 15 9 0) "シフト表" = GoTime.year_of (GoTime.date 2025 6 15 9 0).
Proof.
  split; [reflexivity|]. apply (parseShifts_year_fallback (GoTime.date 2025 6 15 9 0) "シフト表").
  reflexivity.
Defined.

End CLIProofs.

(** ** iOS app: result, sync window, bulk delete, Google body *)
Module CivilStarts.
Import GoMonths Readers UidProofs MonthProofs.

Lemma month_start_doe (yoe m : Z) :
  0 <= yoe < 400 -> 1 <= m <= 12 ->
  0 <= GoTime.doe_of_civil yoe m 1 < 146097
  /\ GoTime.civil_of_doe (GoTime.doe_of_civil yoe m 1) = (yoe, m, 1).
Proof.
  intros Hy Hm.
  assert (H : month_start_ok yoe = true)
    by (apply (forall_from_spec _ 0 (Z.to_nat 400)); [vm_compute; reflexivity | rewrite Z2Nat.id; lia]).
  unfold month_start_ok in H.
  pose proof (forall_from_spec _ 1 12 H m ltac:(lia)) as Hm'. cbv beta zeta in Hm'.
  destruct (GoTime.civil_of_doe (GoTime.doe_of_civil yoe m 1)) as [[a b] c].
  apply andb_prop in Hm' as [H1 H2]. apply andb_prop in H1 as [H0 H1].
  apply andb_prop in H2 as [H2 H5]. apply andb_prop in H2 as [H3 H4].
  apply Z.leb_le in H0. apply Z.ltb_lt in H1. apply Z.eqb_eq in H3, H4, H5. subst.
  split; [lia | reflexivity].
Qed.

Lemma civil_from_days_start (y m : Z) :
  1 <= m <= 12 -> GoTime.civil_from_days (GoTime.days_from_civil y m 1) = (y, m, 1).
Proof.
  intros Hm. unfold GoTime.days_from_civil, GoTime.civil_from_days.
  set (y' := if m <=? 2 then y - 1 else y).
  set (era := y' / 400).
  assert (Hyoe : 0 <= y' - era * 400 < 400)
    by (unfold era; pose proof (Z.mod_pos_bound y' 400 ltac:(lia)); rewrite Z.mod_eq in * by lia; lia).
  destruct (month_start_doe (y' - era * 400) m Hyoe Hm) as [Hb Hc].
  replace (era * 146097 + GoTime.doe_of_civil (y' - era * 400) m 1 - 719468 + 719468)
    with (GoTime.doe_of_civil (y' - era * 400) m 1 + era * 146097) by lia.
  rewrite Z.div_add by lia. rewrite Z.mod_add by lia.
  rewrite Z.div_small, Z.mod_small by exact Hb. rewrite Hc. simpl.
  f_equal. f_equal. unfold y'. destruct (m <=? 2); lia.
Qed.

Lemma civil_month_start (ym : yearMonth) :
  1 <= Month ym <= 12 -> GoTime.civil (month_start ym) = (Year ym, Month ym, 1).
Proof.
  intros Hm. unfold month_start, GoTime.civil, GoTime.date.
  rewrite (Z.div_small (Month ym - 1) 12), (Z.mod_small (Month ym - 1) 12) by lia.
  replace (Year ym + 0) with (Year ym) by lia.
  replace (Month ym - 1 + 1) with (Month ym) by lia.
  replace ((GoTime.days_from_civil (Year ym) (Month ym) 1 + (1 - 1)) * 1440 + 0 * 60 + 0)
    with (GoTime.days_from_civil (Year ym) (Month ym) 1 * 1440) by lia.
  rewrite Z.div_mul by lia. apply civil_from_days_start, Hm.
Qed.

Lemma month_start_mod (ym : yearMonth) : month_start ym mod 1440 = 0.
Proof.
  unfold month_start, GoTime.date.
  replace ((GoTime.days_from_civil (Year ym + (Month ym - 1) / 12) ((Month ym - 1) mod 12 + 1) 1
            + (1 - 1)) * 1440 + 0 * 60 + 0)
    with ((GoTime.days_from_civil (Year ym + (Month ym - 1) / 12) ((Month ym - 1) mod 12 + 1) 1)
          * 1440) by lia.
  apply Z.mod_mul. lia.
Qed.

End CivilStarts.

Module AppProofs.
Import ProofDefs CalendarService AppSide GoMonths Readers MonthProofs CivilStarts.

Lemma startOfMonth_eq (now : Z) : startOfMonth now = month_start (current_month now).
Proof.
  unfold startOfMonth, current_month, month_start.
  destruct (GoTime.civil now) as [[y m] d]. reflexivity.
Qed.

Lemma addingMonths_start (k : Z) (ym : yearMonth) :
  1 <= Month ym <= 12 ->
  addingMonths k (month_start ym) = month_start (of_index (ym_index ym + k)).
Proof.
  intros Hm. unfold addingMonths. rewrite civil_month_start by exact Hm.
  rewrite month_start_mod, Z.add_0_r. cbv beta iota.
  rewrite norm_month_index.
  replace (Year ym * 12 + (Month ym + k - 1)) with (ym_index ym + k) by (unfold ym_index; lia).
  reflexivity.
Qed.

Lemma of_index_eq (i : Z) (ym : yearMonth) :
  1 <= Month ym <= 12 -> ym_index ym = i -> of_index i = ym.
Proof. intros Hm <-. apply of_index_index, Hm. Qed.

(** the iOS app fetches the pages of the previous, the current and the next
    month, and its default sync window runs from the first day of the
    previous month to the first day of the month after next: it covers
    exactly the fetched months *)
Theorem fetched_months_in_window (now : Z) :
  let cur := current_month now in
  fetch_months now
  = map (fun k => let ym := of_index (ym_index cur + k) in (Year ym, Month ym)) [-1; 0; 1]
  /\ defaultSyncRange now
     = (month_start (of_index (ym_index cur - 1)), month_start (of_index (ym_index cur + 2))).
Proof.
  intros cur. pose proof (current_month_valid now) as Hv. split.
  - unfold fetch_months, cur, current_month in *.
    destruct (GoTime.civil now) as [[y m] d]. cbn [Year Month] in Hv.
    cbn [map].
    rewrite Z.add_0_r, (of_index_index (mkYM y m) Hv). cbn [Year Month].
    destruct (Z.eqb_spec m 1) as [->|H1]; [|destruct (Z.eqb_spec m 12) as [->|H12]].
    + rewrite (of_index_eq _ (mkYM (y - 1) 12)), (of_index_eq _ (mkYM y 2));
        cbn; try reflexivity; unfold ym_index; cbn; lia.
    + rewrite (of_index_eq _ (mkYM y 11)), (of_index_eq _ (mkYM (y + 1) 1));
        cbn; try reflexivity; unfold ym_index; cbn; lia.
    + rewrite (of_index_eq _ (mkYM y (m - 1))), (of_index_eq _ (mkYM y (m + 1)));
        cbn; try reflexivity; unfold ym_index; cbn; lia.
  - unfold defaultSyncRange. rewrite startOfMonth_eq. fold cur.
    rewrite !addingMonths_start by exact Hv. reflexivity.
Qed.


Lemma join_head (sep p : string) (ps : list string) :
  exists rest, join sep (p :: ps) = p ++ rest.
Proof.
  unfold join. revert p. induction ps as [|x ps IH]; intros p.
  - exists "". symmetry. apply StrFacts.string_app_nil.
  - cbn [fold_left]. destruct (IH (p ++ sep ++ x)) as [rest ->].
    exists ((sep ++ x) ++ rest). rewrite !StrFacts.str_app_assoc. reflexivity.
Qed.

(** [summary] says "変更なし" exactly when [hasChanges] is false *)
Theorem summary_no_change (r : SyncResult) :
  summary r = no_change <-> hasChanges r = false.
Proof.
  unfold summary, hasChanges.
  destruct (0 <? added r), (0 <? updated r), (0 <? deleted r); cbn [List.app orb];
    try (split; reflexivity);
    (split; [|discriminate]);
    match goal with
    | |- join _ (?p :: ?ps) = _ -> _ =>
        destruct (join_head ", " p ps) as [rest ->]; intros H; discriminate H
    end.
Qed.

Lemma bind_inv {A B} (m : M A) (k : A -> M B) (s : store) (b : B) (s'' : store) :
  bind m k s = Done b s'' -> exists a s', m s = Done a s' /\ k a s' = Done b s''.
Proof.
  unfold bind. destruct (m s) as [a s'|w s']; [|discriminate]. intros H. eauto.
Qed.

Lemma foldM_inv {A B} (P : A -> Prop) (f : A -> B -> M A) (l : list B) :
  (forall a b s a' s', In b l -> P a -> f a b s = Done a' s' -> P a') ->
  forall a s r s', P a -> foldM f l a s = Done r s' -> P r.
Proof.
  intros Hf. induction l as [|b l IH]; intros a s r s' Ha H.
  - cbn in H. unfold ret in H. inversion H; subst. exact Ha.
  - cbn [foldM] in H. apply bind_inv in H as (a1 & s1 & H1 & H2).
    apply (IH (fun a b s a' s' Hb => Hf a b s a' s' (or_intror Hb)) a1 s1 r s').
    + exact (Hf a b s a1 s1 (or_introl eq_refl) Ha H1).
    + exact H2.
Qed.

Lemma ret_inv {A} (a b : A) (s s' : store) : ret a s = Done b s' -> b = a /\ s' = s.
Proof. unfold ret. intros H. inversion H. auto. Qed.

Lemma delete_one_counted (fails : write -> bool) (now : Z) (desired : list string)
    (existing : list EKEvent) :
  forall r e s r' s', In e (to_delete now desired existing) -> counted r ->
  delete_one fails r e s = Done r' s' -> counted r'.
Proof.
  intros r e s r' s' He Hr H. unfold delete_one in H.
  apply bind_inv in H as (u & s1 & _ & H). apply ret_inv in H as [-> _].
  unfold to_delete in He. apply filter_In in He as [_ He].
  destruct (extractShiftUID e) as [u'|]; [|discriminate].
  destruct Hr as (H1 & H2 & H3). unfold counted. cbn.
  rewrite length_app. cbn. lia.
Qed.

Lemma upsert_one_counted (fails : write -> bool) (now : Z) (existing : list EKEvent)
    (uids : list string) :
  forall r sh s r' s', counted r ->
  upsert_one fails now existing uids r sh s = Done r' s' -> counted r'.
Proof.
  intros r sh s r' s' Hr H. unfold upsert_one in H.
  destruct Hr as (H1 & H2 & H3).
  destruct (existsb (String.eqb (uid sh)) uids).
  - destruct (find (has_uid (uid sh)) existing) as [ev|].
    + apply bind_inv in H as (e & s1 & _ & H).
      destruct (needsUpdate e sh).
      * apply bind_inv in H as (u & s2 & _ & H). apply ret_inv in H as [-> _].
        unfold counted. cbn. rewrite length_app. cbn. lia.
      * apply ret_inv in H as [-> _]. unfold counted. auto.
    + apply ret_inv in H as [-> _]. unfold counted. auto.
  - apply bind_inv in H as (e & s1 & _ & H).
    apply bind_inv in H as (u & s2 & _ & H). apply ret_inv in H as [-> _].
    unfold counted. cbn. rewrite length_app. cbn. lia.
Qed.

Lemma syncShifts_counted (fails : write -> bool) (shifts : list Shift) (sS sE now : Z)
    (s : store) (r : SyncResult) (s' : store) :
  syncShifts fails shifts sS sE now s = Done r s' -> counted r.
Proof.
  unfold syncShifts. intros H.
  apply bind_inv in H as (fetched & s1 & _ & H).
  apply bind_inv in H as (existing & s2 & _ & H).
  apply bind_inv in H as (r1 & s3 & H1 & H).
  apply bind_inv in H as (r2 & s4 & H2 & H).
  apply bind_inv in H as (again & s5 & _ & H).
  apply bind_inv in H as (u & s6 & _ & H). apply ret_inv in H as [-> _].
  refine (foldM_inv counted _ _ _ r1 s3 r2 s4 _ H2).
  { intros a b s0 a' s0' _. apply upsert_one_counted. }
  refine (foldM_inv counted _ _ _ emptyResult s2 r1 s3 _ H1).
  { apply delete_one_counted. }
  unfold counted. cbn. auto.
Qed.

Lemma nonempty_filter {A} (p : A -> bool) (l : list A) : nonempty (filter p l) = existsb p l.
Proof.
  induction l as [|x l IH]; [reflexivity|]. cbn. destruct (p x); [reflexivity|exact IH].
Qed.

Lemma notifiable_counted (today : Z) (r : SyncResult) :
  counted r ->
  hasNotifiableChanges today r
  = existsb (fun sh => startOfMonth today <=? start sh)
            (addedShifts r ++ updatedShifts r ++ deletedShifts r).
Proof.
  intros (H1 & H2 & H3). unfold hasNotifiableChanges, futureChanges.
  rewrite !nonempty_filter, !existsb_app.
  destruct (existsb _ (addedShifts r)), (existsb _ (updatedShifts r)),
    (existsb _ (deletedShifts r)); try reflexivity. cbn.
  destruct (addedShifts r), (updatedShifts r), (deletedShifts r); try reflexivity.
  unfold hasChanges. rewrite H1, H2, H3. reflexivity.
Qed.

(** a finished iCloud sync reports counters equal to the lengths of its lists
    of added, updated and deleted shifts, and asks for a notification exactly
    when one of those shifts starts on or after the first day of the current
    month *)
Theorem syncShifts_notifiable (fails : write -> bool) (shifts : list Shift)
    (sS sE now today : Z) (s : store) (r : SyncResult) (s' : store) :
  syncShifts fails shifts sS sE now s = Done r s' ->
  counted r
  /\ hasNotifiableChanges today r
     = existsb (fun sh => startOfMonth today <=? start sh)
               (addedShifts r ++ updatedShifts r ++ deletedShifts r).
Proof.
  intros H. pose proof (syncShifts_counted _ _ _ _ _ _ _ _ H) as Hc.
  split; [exact Hc | apply notifiable_counted, Hc].
Qed.

Lemma syncShifts_notifiable_witness :
  let e0 := mkEvent 0 (Some "バイト") 29141640 29142120 (Some "StoreA")
                    (Some (shift_notes EventKitSamples.sh)) None in
  let r := mkResult 1 0 0 [EventKitSamples.sh] [] [] in
  syncShifts EventKitSamples.never [EventKitSamples.sh] 29000000 29300000 29100000
             (mkStore [] 0 []) = Done r (mkStore [stamp 29100000 e0] 1 [WSave e0])
  /\ (counted r
      /\ hasNotifiableChanges 29100000 r
         = existsb (fun sh => startOfMonth 29100000 <=? start sh)
                   (addedShifts r ++ updatedShifts r ++ deletedShifts r)).
Proof.
  intros e0 r. split; [vm_compute; reflexivity|].
  apply (syncShifts_notifiable EventKitSamples.never [EventKitSamples.sh]
           29000000 29300000 29100000 29100000 (mkStore [] 0 []) r
           (mkStore [stamp 29100000 e0] 1 [WSave e0])).
  vm_compute; reflexivity.
Defined.

Lemma removes_in_window (fails : write -> bool) (l : list EKEvent) (s : store) :
  (forall e, fails (WRemove e) = false) ->
  foldM (fun _ e => remove fails e) l tt s
  = Done tt (mkStore (filter (EventKitChecks.not_in_ids l) (events s)) (next_id s)
                     (writes s ++ map WRemove l)%list).
Proof.
  intros Hf. revert s. induction l as [|d l IH]; intros s.
  - destruct s as [evs n ws]. cbn. unfold ret. rewrite app_nil_r, DedupProofs.filter_all
      by (intros; reflexivity). reflexivity.
  - cbn [foldM]. unfold bind at 1. unfold remove at 1, issue at 1. cbn [events next_id writes].
    rewrite Hf. rewrite IH. cbn [events next_id writes].
    rewrite Idempotence.filter_not_in_cons, <- app_assoc. reflexivity.
Qed.

Lemma not_in_window_ids (sS sE : Z) (evs : list EKEvent) :
  NoDup (map ev_id evs) ->
  filter (EventKitChecks.not_in_ids (filter (EventKitChecks.inwm sS sE) evs)) evs
  = filter (fun e => negb (EventKitChecks.inwm sS sE e)) evs.
Proof.
  intros Hn. apply filter_ext_in. intros x Hx. unfold EventKitChecks.not_in_ids. f_equal.
  destruct (EventKitChecks.inwm sS sE x) eqn:Ei.
  - apply existsb_exists. exists x. split; [apply filter_In; auto | apply Nat.eqb_refl].
  - apply not_true_iff_false. intros Hex. apply existsb_exists in Hex as (d & Hd & Heq).
    apply filter_In in Hd as [Hd Hdi]. apply Nat.eqb_eq in Heq.
    assert (x = d).
    { clear Ei Hdi. induction evs as [|y evs IH]; [destruct Hx|].
      cbn in Hn. apply NoDup_cons_iff in Hn as [Hy Hn].
      destruct Hx as [<-|Hx], Hd as [<-|Hd]; [reflexivity | | |exact (IH Hn Hx Hd)].
      - exfalso. apply Hy. rewrite Heq. apply in_map, Hd.
      - exfalso. apply Hy. rewrite <- Heq. apply in_map, Hx. }
    subst d. congruence.
Qed.

(** when no remove call fails, [deleteAllShiftEvents] removes from the
    calendar exactly the events of the search window carrying the
    [shift-uid:] marker, one remove call each, and keeps every other event *)
Theorem deleteAllShiftEvents_spec (fails : write -> bool) (sS sE : Z) (s : store) :
  (forall e, fails (WRemove e) = false) ->
  NoDup (map ev_id (events s)) ->
  deleteAllShiftEvents fails sS sE s
  = Done tt (mkStore (filter (fun e => negb (in_window sS sE e && has_marker e)) (events s))
                     (next_id s)
                     (writes s ++ map WRemove (filter (fun e => in_window sS sE e && has_marker e)
                                                      (events s)))%list).
Proof.
  intros Hf Hn. unfold deleteAllShiftEvents, bind at 1, getExistingShiftEvents at 1.
  rewrite removes_in_window by exact Hf. cbn [events next_id writes].
  pose proof (not_in_window_ids sS sE (events s) Hn) as E.
  unfold EventKitChecks.inwm in E. rewrite E. reflexivity.
Qed.

Lemma deleteAllShiftEvents_spec_witness :
  let inside := mkEvent 1 (Some "バイト") 29141640 29142120 (Some "StoreA")
                        (Some "shift-uid:shift-20250620-1000-1800-4c1f0a2e") None in
  let other := mkEvent 2 (Some "歯医者") 29141640 29142000 None None None in
  let s := mkStore [inside; other] 3 [] in
  (forall e, EventKitSamples.never (WRemove e) = false) /\ NoDup (map ev_id (events s))
  /\ deleteAllShiftEvents EventKitSamples.never 29000000 29300000 s
     = Done tt (mkStore (filter (fun e => negb (in_window 29000000 29300000 e && has_marker e))
                                (events s))
                        (next_id s)
                        (writes s ++ map WRemove (filter (fun e => in_window 29000000 29300000 e
                                                                   && has_marker e)
                                                         (events s)))%list).
Proof.
  intros inside other s. split; [intros; reflexivity|]. split; [vm_compute; repeat constructor; simpl; intuition discriminate|].
  apply (deleteAllShiftEvents_spec EventKitSamples.never 29000000 29300000 s).
  - intros; reflexivity.
  - vm_compute. repeat constructor; simpl; intuition discriminate.
Defined.

Lemma upto_newline_app (u r : string) :
  Str.contains u newline = false -> upto_newline (u ++ r) = u ++ upto_newline r.
Proof. intros H. unfold upto_newline. apply StrFacts.splitn2_nl_app, H. Qed.

(** the Google event description written for a shift is the text the iCloud
    path writes into the notes, and [extractShiftUID] of the Google path reads
    the shift's identifier back from it when the identifier has no line break *)
Theorem google_description_roundtrip (sh : Shift) (id : string) (summ : option string) :
  Str.contains (uid sh) newline = false ->
  eventBody_description sh = shift_notes sh
  /\ extractShiftUID_google (mkGoogleEvent id summ (Some (eventBody_description sh)))
     = Some (uid sh).
Proof.
  intros Hnl. unfold eventBody_description, shift_notes, extractShiftUID_google. cbn [g_description].
  destruct (String.eqb (memo sh) "").
  - rewrite StrFacts.string_app_nil. split; [reflexivity|].
    rewrite StrFacts.after_first_app.
    rewrite <- (StrFacts.string_app_nil (uid sh)) at 1. rewrite upto_newline_app by exact Hnl.
    change (upto_newline "") with "". rewrite StrFacts.string_app_nil. reflexivity.
  - split; [reflexivity|]. rewrite StrFacts.after_first_app, upto_newline_app by exact Hnl.
    change (upto_newline (newline ++ memo sh)) with "". rewrite StrFacts.string_app_nil.
    reflexivity.
Qed.

Lemma google_description_roundtrip_witness :
  Str.contains (uid EventKitSamples.sample_shift) newline = false
  /\ (eventBody_description EventKitSamples.sample_shift = shift_notes EventKitSamples.sample_shift
      /\ extractShiftUID_google
           (mkGoogleEvent "g1" (Some "バイト")
                          (Some (eventBody_description EventKitSamples.sample_shift)))
         = Some (uid EventKitSamples.sample_shift)).
Proof.
  split; [vm_compute; reflexivity|].
  apply (google_description_roundtrip EventKitSamples.sample_shift "g1" (Some "バイト")).
  vm_compute; reflexivity.
Defined.
End AppProofs.

(** ** The desired set of the CalDAV sync *)

Module DesiredProofs.
Import GoMain GoCalDAV ProofDefs.

Lemma desired_snoc (l : list shift) (x : shift) :
  desired_entries (l ++ [x]) = step (desired_entries l) x.
Proof. unfold desired_entries. rewrite fold_left_app. reflexivity. Qed.

Lemma step_keeps (acc : list (string * shift)) (x : shift) (e : string * shift) :
  In e acc -> In e (step acc x).
Proof.
  unfold step. intros H. destruct (Start x =? End x); [exact H|].
  destruct (existsb _ acc); [exact H|]. apply in_or_app. left. exact H.
Qed.

Lemma desired_sound (l : list shift) (u : string) (s : shift) :
  In (u, s) (desired_entries l) -> u = makeShiftUID s /\ In s l /\ Start s <> End s.
Proof.
  induction l as [|x l IH] using rev_ind; [intros []|].
  rewrite desired_snoc. unfold step.
  destruct (Z.eqb_spec (Start x) (End x)) as [Hx|Hx].
  - intros H. destruct (IH H) as (? & ? & ?). split; [auto|]. split; [apply in_or_app; auto | auto].
  - destruct (existsb _ _).
    + intros H. destruct (IH H) as (? & ? & ?). split; [auto|]. split; [apply in_or_app; auto | auto].
    + intros H. apply in_app_or in H as [H|[H|[]]].
      * destruct (IH H) as (? & ? & ?). split; [auto|]. split; [apply in_or_app; auto | auto].
      * inversion H; subst. split; [reflexivity|]. split; [apply in_or_app; right; left; reflexivity | exact Hx].
Qed.

Lemma desired_complete (l : list shift) (s : shift) :
  In s l -> Start s <> End s -> In (makeShiftUID s) (map fst (desired_entries l)).
Proof.
  induction l as [|x l IH] using rev_ind; [intros []|].
  intros Hin Hs. rewrite desired_snoc.
  apply in_app_or in Hin as [Hin|[->|[]]].
  - pose proof (IH Hin Hs) as H. apply in_map_iff in H as [e [He1 He2]].
    apply in_map_iff. exists e. split; [exact He1 | apply step_keeps, He2].
  - unfold step. destruct (Z.eqb_spec (Start s) (End s)) as [E|_]; [contradiction|].
    destruct (existsb (fun e => String.eqb (fst e) (makeShiftUID s)) (desired_entries l)) eqn:Ee.
    + apply existsb_exists in Ee as [e [He Ee]]. apply String.eqb_eq in Ee.
      rewrite <- Ee. apply in_map, He.
    + rewrite map_app. apply in_or_app. right. left. reflexivity.
Qed.

Lemma desired_nodup (l : list shift) : NoDup (map fst (desired_entries l)).
Proof.
  induction l as [|x l IH] using rev_ind; [constructor|].
  rewrite desired_snoc. unfold step.
  destruct (Start x =? End x); [exact IH|].
  destruct (existsb (fun e => String.eqb (fst e) (makeShiftUID x)) (desired_entries l)) eqn:Ee;
    [exact IH|].
  rewrite map_app. simpl. apply NoDup_app; [exact IH | repeat constructor; auto |].
  intros u Hu [<-|[]]. apply in_map_iff in Hu as [e [He1 He2]].
  assert (existsb (fun e => String.eqb (fst e) (makeShiftUID x)) (desired_entries l) = true)
    by (apply existsb_exists; exists e; split; [exact He2 | apply String.eqb_eq, He1]).
  congruence.
Qed.

(** the desired set of [syncShiftsToCalDAV] holds each identifier once, and
    an entry [(uid, s)] for exactly the shifts [s] that do not start when they
    end and are the first such shift of the list with [makeShiftUID s = uid] *)
Theorem desired_entries_spec (shifts : list shift) (u : string) (s : shift) :
  NoDup (map fst (desired_entries shifts))
  /\ (In (u, s) (desired_entries shifts)
      <-> exists pre post, shifts = (pre ++ s :: post)%list /\ Start s <> End s
          /\ u = makeShiftUID s
          /\ Forall (fun s' => Start s' = End s' \/ makeShiftUID s' <> u) pre).
Proof.
  split; [apply desired_nodup|].
  induction shifts as [|x l IH] using rev_ind.
  - split; [intros []|]. intros (pre & post & E & _). destruct pre; discriminate E.
  - rewrite desired_snoc. split.
    + intros H. unfold step in H.
      destruct (Z.eqb_spec (Start x) (End x)) as [Hx|Hx];
        [| destruct (existsb (fun e => String.eqb (fst e) (makeShiftUID x)) (desired_entries l)) eqn:Ee].
      1,2: destruct (proj1 IH H) as (pre & post & -> & Hs & Hu & Hf);
           exists pre, (post ++ [x])%list; rewrite <- app_assoc; auto.
      apply in_app_or in H as [H|[H|[]]].
      * destruct (proj1 IH H) as (pre & post & -> & Hs & Hu & Hf).
        exists pre, (post ++ [x])%list. rewrite <- app_assoc. auto.
      * inversion H; subst u s. exists l, []. split; [reflexivity|]. split; [exact Hx|].
        split; [reflexivity|]. apply Forall_forall. intros s' Hs'.
        destruct (Z.eq_dec (Start s') (End s')) as [E|E]; [left; exact E|right].
        intros Heq. pose proof (desired_complete l s' Hs' E) as Hc.
        apply in_map_iff in Hc as [e [He1 He2]].
        assert (existsb (fun e => String.eqb (fst e) (makeShiftUID x)) (desired_entries l) = true)
          by (apply existsb_exists; exists e; split; [exact He2 | apply String.eqb_eq; congruence]).
        congruence.
    + intros (pre & post & E & Hs & Hu & Hf).
      destruct post as [|y post _] using rev_ind.
      * apply app_inj_tail in E as [-> ->]. unfold step.
        destruct (Z.eqb_spec (Start s) (End s)) as [E|_]; [contradiction|].
        destruct (existsb (fun e => String.eqb (fst e) (makeShiftUID s)) (desired_entries pre)) eqn:Ee.
        -- exfalso. apply existsb_exists in Ee as [[u' s'] [He Ee]]. apply String.eqb_eq in Ee.
           cbn [fst] in Ee. subst u'.
           destruct (desired_sound pre _ _ He) as (Hu' & Hin & Hs').
           rewrite Forall_forall in Hf. destruct (Hf s' Hin) as [H|H]; [contradiction|].
           apply H. rewrite Hu. symmetry. exact Hu'.
        -- apply in_or_app. right. left. subst u. reflexivity.
      * rewrite app_comm_cons, app_assoc in E. apply app_inj_tail in E as [-> ->].
        apply step_keeps. apply (proj2 IH). exists pre, post. auto.
Qed.

End DesiredProofs.

(** ** Convergence of the CalDAV sync *)

Module ConvergeProofs.
Import GoMain GoCalDAV Checks StrFacts UrlFacts UidChars ListingProofs DesiredProofs ProofDefs.

Lemma str_length_app (a b : string) : length (a ++ b) = (length a + length b)%nat.
Proof. induction a as [|c a IH]; simpl; [reflexivity|]. rewrite IH. reflexivity. Qed.

Lemma str_app_inv_l (a x y : string) : a ++ x = a ++ y -> x = y.
Proof. induction a as [|c a IH]; simpl; [auto|]. intros H. injection H. exact IH. Qed.

Lemma str_app_inv_r (s x y : string) : x ++ s = y ++ s -> x = y.
Proof.
  revert y. induction x as [|c x IH]; intros [|d y] H; simpl in *; try reflexivity.
  - exfalso. apply (f_equal length) in H. simpl in H. rewrite str_length_app in H. lia.
  - exfalso. apply (f_equal length) in H. simpl in H. rewrite str_length_app in H. lia.
  - injection H as -> H. f_equal. exact (IH y H).
Qed.

Lemma event_url_inj (base u v : string) : event_url base u = event_url base v -> u = v.
Proof.
  unfold event_url. intros H. apply str_app_inv_l in H. apply str_app_inv_l in H.
  exact (str_app_inv_r _ _ _ H).
Qed.

Lemma filter_compose {A} (f g : A -> bool) (l : list A) :
  filter f (filter g l) = filter (fun x => g x && f x) l.
Proof.
  induction l as [|x l IH]; simpl; [reflexivity|].
  destruct (g x); simpl; [destruct (f x); simpl|]; rewrite IH; reflexivity.
Qed.

Section Converge.
Variables (cal base : string).
(** the listing names each resource [base/u.ics] of a tool identifier [u] by [u] *)
Hypothesis Hname : forall u, Str.has_prefix "shift-" u = true -> all_chars uid_char u = true ->
  response_uid cal (mkResponse (url_path (event_url base u)) false) = Some u.

Lemma listing_members (sv : server) :
  tool_only base sv -> propfind_fails sv = false ->
  exists L, listShiftEventUIDs cal sv = Some L
  /\ forall u, In u L <-> exists x, In (event_url base u, x) (resources sv).
Proof.
  intros Ht Hp. unfold listShiftEventUIDs. rewrite Hp. eexists. split; [reflexivity|].
  intros u. split.
  - intros H. apply uids_of_sound in H as [[]|(r & Hr & E)].
    destruct Hr as [<- | Hr]; [rewrite collection_no_uid in E; discriminate|].
    apply in_map_iff in Hr as [[k x] [<- Hk]].
    destruct (Ht _ Hk) as (u' & Hp' & Hu' & Hk'). cbn [fst] in Hk'. subst k. cbv beta in E. cbn [fst] in E.
    rewrite (Hname u' Hp' Hu') in E. injection E as <-. eauto.
  - intros [x Hx]. destruct (Ht _ Hx) as (u' & Hp' & Hu' & Hk'). cbn [fst] in Hk'.
    apply event_url_inj in Hk'. subst u'.
    apply (uids_of_complete cal u _ (mkResponse (url_path (event_url base u)) false)).
    + right. apply in_map_iff. exists (event_url base u, x). auto.
    + exact (Hname u Hp' Hu').
Qed.

Variable net : method -> string -> http_result.
Hypothesis Hdel : forall u, exists c, net DELETE u = Status c /\ (c = 200 \/ c = 204 \/ c = 404).
Hypothesis Hput : forall u, exists c, net PUT u = Status c /\ (c = 200 \/ c = 201 \/ c = 204).

Lemma delete_one_srv (st : state) (u : string) :
  srv (delete_one net base st u) = remove_res (event_url base u) (srv st).
Proof.
  unfold delete_one. destruct (Hdel (base ++ "/" ++ u ++ ".ics")) as (c & -> & Hc).
  replace (negb (c =? 200) && negb (c =? 204) && negb (c =? 404))%bool with false
    by (destruct Hc as [-> | [-> | ->]]; reflexivity).
  reflexivity.
Qed.

Lemma deletes_srv (us : list string) (st : state) :
  srv (fold_left (delete_one net base) us st)
  = mkServer (filter (fun r => negb (existsb (fun u => String.eqb (fst r) (event_url base u)) us))
                     (resources (srv st)))
             (propfind_fails (srv st)).
Proof.
  revert st. induction us as [|u us IH]; intros st; simpl.
  - rewrite DedupProofs.filter_all by (intros; reflexivity). destruct (srv st); reflexivity.
  - rewrite IH, delete_one_srv. unfold remove_res. cbn [resources propfind_fails]. f_equal.
    rewrite filter_compose. apply filter_ext. intros r.
    destruct (String.eqb (fst r) (event_url base u)); reflexivity.
Qed.

Lemma put_one_srv (st : state) (e : string * shift) :
  srv (put_one net base st e) = put_res (event_url base (fst e)) (snd e) (srv st).
Proof.
  destruct e as [u s]. unfold put_one. destruct (Hput (base ++ "/" ++ u ++ ".ics")) as (c & -> & Hc).
  replace (negb (c =? 200) && negb (c =? 201) && negb (c =? 204))%bool with false
    by (destruct Hc as [-> | [-> | ->]]; reflexivity).
  reflexivity.
Qed.

Lemma put_res_in (url : string) (s : shift) (sv : server) (k : string) (x : shift) :
  In (k, x) (resources (put_res url s sv))
  <-> (In (k, x) (resources sv) /\ k <> url) \/ (k = url /\ x = s).
Proof.
  unfold put_res. cbn [resources].
  destruct (existsb (fun r => String.eqb (fst r) url) (resources sv)) eqn:E.
  - rewrite in_map_iff. split.
    + intros [[k' x'] [Hr Hin]]. cbn [fst] in Hr.
      destruct (String.eqb_spec k' url) as [-> | Hne].
      * injection Hr as <- <-. right. auto.
      * injection Hr as -> ->. left. auto.
    + intros [[Hin Hne]|[-> ->]].
      * exists (k, x). cbn [fst]. destruct (String.eqb_spec k url); [contradiction|]. auto.
      * apply existsb_exists in E as [[k' x'] [Hin Ek]]. cbn [fst] in Ek.
        apply String.eqb_eq in Ek. subst k'. exists (url, x'). cbn [fst].
        rewrite String.eqb_refl. auto.
  - split.
    + intros H. apply in_app_or in H as [H|[H|[]]].
      * left. split; [exact H|]. intros ->.
        assert (existsb (fun r => String.eqb (fst r) url) (resources sv) = true)
          by (apply existsb_exists; exists (url, x); cbn; rewrite String.eqb_refl; auto).
        congruence.
      * injection H as -> ->. auto.
    + intros [[H _]|[-> ->]]; apply in_or_app; [left; exact H | right; left; reflexivity].
Qed.

Lemma puts_in (E : list (string * shift)) (st : state) (k : string) (x : shift) :
  NoDup (map fst E) ->
  In (k, x) (resources (srv (fold_left (put_one net base) E st)))
  <-> (In (k, x) (resources (srv st)) /\ ~ In k (map (fun e => event_url base (fst e)) E))
      \/ (exists u, In (u, x) E /\ k = event_url base u).
Proof.
  revert st. induction E as [|[u s] E IH]; intros st Hn; cbn [fold_left map fst In].
  - split; [intros H; left; auto | intros [[H _]|(u & [] & _)]; exact H].
  - inversion Hn as [|? ? Hu Hn']; subst.
    rewrite (IH _ Hn'), put_one_srv, put_res_in. cbn [fst snd].
    split.
    + intros [[[[Hin Hne]|[-> ->]] Hnot]|(u' & Hin & ->)].
      * left. split; [exact Hin|]. intros [Heq|Hk]; [congruence | exact (Hnot Hk)].
      * right. exists u. auto.
      * right. exists u'. auto.
    + intros [[Hin Hnot]|(u' & [Hin|Hin] & ->)].
      * left. split; [left; split; [exact Hin|] | ]; intros Hk; apply Hnot; auto.
      * injection Hin as -> ->. left. split; [right; auto|].
        intros Hk. apply in_map_iff in Hk as [[u2 s2] [Ek Hk]]. cbn [fst] in Ek.
        apply event_url_inj in Ek. apply Hu. apply in_map_iff. exists (u2, s2); cbn [fst]; split; [congruence|exact Hk].
      * right. exists u'. auto.
Qed.

End Converge.

Lemma puts_pf (net : method -> string -> http_result) (base : string)
    (E : list (string * shift)) (st : state) :
  propfind_fails (srv (fold_left (put_one net base) E st)) = propfind_fails (srv st).
Proof.
  revert st. induction E as [|[u s] E IH]; intros st; cbn [fold_left]; [reflexivity|].
  rewrite IH. unfold put_one.
  destruct (net PUT _) as [|c]; [reflexivity|].
  destruct (_ && _)%bool; reflexivity.
Qed.

Lemma shape_http (scheme host path trail : string) :
  url_shape_ok scheme host path trail = true ->
  Str.has_prefix "http" (scheme ++ "://" ++ host ++ path ++ trail) = true.
Proof.
  unfold url_shape_ok. intros H. repeat (apply andb_prop in H as [H _]).
  apply orb_prop in H as [H|H]; apply String.eqb_eq in H; subst scheme;
    [apply has_prefix_app|].
  exact (has_prefix_app "http" ("s" ++ "://" ++ host ++ path ++ trail)).
Qed.

(** The CalDAV sync run converges. With a well-formed calendar URL
    ([scheme://host path], the host possibly with a port such as [:443]), a
    collection holding only this tool's event resources, a PROPFIND that
    answers, and DELETE and PUT requests that all succeed, syncShiftsToCalDAV
    returns no error. Afterwards the collection holds exactly one resource per
    desired identity, at [base/uid.ics], with that identity's shift. Listing
    the collection again returns exactly the desired identities. *)
Theorem syncShiftsToCalDAV_converges (net : method -> string -> http_result)
    (scheme host path trail : string) (shifts : list shift) (st : state) :
  url_shape_ok scheme host path trail = true ->
  (forall url, exists c, net DELETE url = Status c /\ (c = 200 \/ c = 204 \/ c = 404)) ->
  (forall url, exists c, net PUT url = Status c /\ (c = 200 \/ c = 201 \/ c = 204)) ->
  propfind_fails (srv st) = false ->
  tool_only (trim_right_slash (scheme ++ "://" ++ host ++ path ++ trail)) (srv st) ->
  let cal := scheme ++ "://" ++ host ++ path ++ trail in
  let base := trim_right_slash cal in
  let '(err, st') := syncShiftsToCalDAV net shifts cal st in
  err = None
  /\ (forall k x, In (k, x) (resources (srv st'))
        <-> exists u, In (u, x) (desired_entries shifts) /\ k = event_url base u)
  /\ exists L, listShiftEventUIDs cal (srv st') = Some L
     /\ forall u, In u L <-> In u (map fst (desired_entries shifts)).
Proof.
  intros Hok Hd Hp Hpf Ht cal base. change (tool_only base (srv st)) in Ht.
  assert (Hname : forall u, Str.has_prefix "shift-" u = true -> all_chars uid_char u = true ->
            response_uid cal (mkResponse (url_path (event_url base u)) false) = Some u)
    by (intros u Hu1 Hu2; exact (response_uid_of_event_url scheme host path trail u Hok Hu1 Hu2)).
  destruct (listing_members cal base Hname (srv st) Ht Hpf) as (L & HL & HLm).
  unfold syncShiftsToCalDAV. fold cal. rewrite (shape_http _ _ _ _ Hok : Str.has_prefix "http" cal = true). cbn [negb].
  fold base. rewrite HL. cbv zeta.
  set (D := desired_entries shifts).
  set (toDelete := filter (fun u => negb (existsb (String.eqb u) (map fst D))) L).
  set (st1 := fold_left (delete_one net base) toDelete st).
  set (st2 := fold_left (put_one net base) D st1).
  assert (HD : NoDup (map fst D)) by apply desired_nodup.
  assert (Hres : forall k x, In (k, x) (resources (srv st2))
            <-> exists u, In (u, x) D /\ k = event_url base u).
  { intros k x. unfold st2. rewrite (puts_in base net Hp D st1 k x HD).
    split; [intros [[Hin Hnot]|H]; [exfalso|exact H] | intros H; right; exact H].
    unfold st1 in Hin. rewrite (deletes_srv base net Hd) in Hin. cbn [resources] in Hin.
    apply filter_In in Hin as [Hin Hkeep].
    destruct (Ht _ Hin) as (u & Hu1 & Hu2 & Hk). cbn [fst] in Hk, Hkeep. subst k.
    destruct (existsb (String.eqb u) (map fst D)) eqn:Eu.
    - apply existsb_exists in Eu as [u' [Hu' Eu']]. apply String.eqb_eq in Eu'. subst u'.
      apply in_map_iff in Hu' as [[u2 s2] [E2 Hin2]]. cbn [fst] in E2. subst u2.
      apply Hnot. apply in_map_iff. exists (u, s2). auto.
    - assert (Hdel : In u toDelete).
      { apply filter_In. split; [apply HLm; eauto | rewrite Eu; reflexivity]. }
      assert (existsb (fun u0 => String.eqb (event_url base u) (event_url base u0)) toDelete = true)
        by (apply existsb_exists; exists u; split; [exact Hdel | apply String.eqb_refl]).
      rewrite H in Hkeep. discriminate. }
  split; [reflexivity|]. split; [exact Hres|].
  assert (Ht2 : tool_only base (srv st2)).
  { intros [k x] Hin. apply Hres in Hin as (u & Hin & ->).
    apply desired_sound in Hin as (-> & _ & _).
    destruct (makeShiftUID_chars x) as [Hu1 Hu2]. eauto. }
  assert (Hpf2 : propfind_fails (srv st2) = false).
  { unfold st2. rewrite puts_pf. unfold st1. rewrite (deletes_srv base net Hd). exact Hpf. }
  destruct (listing_members cal base Hname (srv st2) Ht2 Hpf2) as (L2 & HL2 & HLm2).
  exists L2. split; [exact HL2|]. intros u. rewrite HLm2. split.
  - intros [x Hx]. apply Hres in Hx as (u' & Hin & E). apply event_url_inj in E. subst u'.
    apply in_map_iff. exists (u, x). auto.
  - intros Hu. apply in_map_iff in Hu as [[u' x] [E Hin]]. cbn [fst] in E. subst u'.
    exists x. apply Hres. eauto.
Qed.

Lemma syncShiftsToCalDAV_converges_witness :
  let stale := makeShiftUID (GoSamples.at_store "StoreB") in
  let cal := "https" ++ "://" ++ "p42-caldav.icloud.com:443" ++ "/123/calendars/home" ++ "/" in
  let st := mkState (mkServer [(event_url (trim_right_slash cal) stale, GoSamples.at_store "StoreB")]
                              false) [] in
  url_shape_ok "https" "p42-caldav.icloud.com:443" "/123/calendars/home" "/" = true
  /\ (forall url, exists c, GoSamples.all_ok 200 DELETE url = Status c
                            /\ (c = 200 \/ c = 204 \/ c = 404))
  /\ (forall url, exists c, GoSamples.all_ok 200 PUT url = Status c
                            /\ (c = 200 \/ c = 201 \/ c = 204))
  /\ propfind_fails (srv st) = false
  /\ tool_only (trim_right_slash cal) (srv st)
  /\ let '(err, st') := syncShiftsToCalDAV (GoSamples.all_ok 200)
                          [GoSamples.june1; GoSamples.june20] cal st in
     err = None
     /\ (forall k x, In (k, x) (resources (srv st'))
           <-> exists u, In (u, x) (desired_entries [GoSamples.june1; GoSamples.june20])
                         /\ k = event_url (trim_right_slash cal) u)
     /\ exists L, listShiftEventUIDs cal (srv st') = Some L
        /\ forall u, In u L <-> In u (map fst (desired_entries [GoSamples.june1; GoSamples.june20])).
Proof.
  intros stale cal st.
  assert (Hok : url_shape_ok "https" "p42-caldav.icloud.com:443" "/123/calendars/home" "/" = true)
    by reflexivity.
  assert (Hto : tool_only (trim_right_slash cal) (srv st)).
  { intros r [<- | []]. destruct (makeShiftUID_chars (GoSamples.at_store "StoreB")) as [H1 H2].
    exists stale. split; [exact H1|]. split; [exact H2|reflexivity]. }
  split; [exact Hok|]. split; [intros; exists 200; split; [reflexivity|left; reflexivity]|].
  split; [intros; exists 200; split; [reflexivity|left; reflexivity]|].
  split; [reflexivity|]. split; [exact Hto|].
  exact (syncShiftsToCalDAV_converges (GoSamples.all_ok 200) "https" "p42-caldav.icloud.com:443"
           "/123/calendars/home" "/" [GoSamples.june1; GoSamples.june20] st Hok
           (fun _ => ex_intro _ 200 (conj eq_refl (or_introl eq_refl)))
           (fun _ => ex_intro _ 200 (conj eq_refl (or_introl eq_refl)))
           eq_refl Hto).
Defined.

End ConvergeProofs.

(** ** The delete-all mode *)

Module DeleteProofs.
Import GoMain GoCalDAV Checks UidChars UrlFacts ListingProofs ConvergeProofs GoDelete ProofDefs.

Lemma filter_all_false {A} (f : A -> bool) (l : list A) :
  (forall x, In x l -> f x = false) -> filter f l = [].
Proof.
  induction l as [|x l IH]; intros H; simpl; [reflexivity|].
  rewrite (H x (or_introl eq_refl)). apply IH. intros y Hy. exact (H y (or_intror Hy)).
Qed.

(** deleteShiftEventsFromCalendar empties a collection of this tool's event
    resources. With a well-formed calendar URL ([scheme://host path], the host
    possibly with a port such as [:443]), a PROPFIND that answers and
    DELETE requests that all succeed, it stops with "none found" exactly when
    the collection is empty. Afterwards the collection holds no resource, and
    listing it again returns no identity. *)
Theorem deleteShiftEventsFromCalendar_empties (net : method -> string -> http_result)
    (scheme host path trail : string) (st : state) :
  url_shape_ok scheme host path trail = true ->
  (forall url, exists c, net DELETE url = Status c /\ (c = 200 \/ c = 204 \/ c = 404)) ->
  propfind_fails (srv st) = false ->
  tool_only (trim_right_slash (scheme ++ "://" ++ host ++ path ++ trail)) (srv st) ->
  let cal := scheme ++ "://" ++ host ++ path ++ trail in
  let '(o, st') := deleteShiftEventsFromCalendar net cal st in
  (o = NoneFound <-> resources (srv st) = [])
  /\ resources (srv st') = []
  /\ listShiftEventUIDs cal (srv st') = Some [].
Proof.
  intros Hok Hd Hpf Ht cal. set (base := trim_right_slash cal).
  change (tool_only base (srv st)) in Ht.
  assert (Hname : forall u, Str.has_prefix "shift-" u = true -> all_chars uid_char u = true ->
            response_uid cal (mkResponse (url_path (event_url base u)) false) = Some u)
    by (intros u Hu1 Hu2; exact (response_uid_of_event_url scheme host path trail u Hok Hu1 Hu2)).
  destruct (listing_members cal base Hname (srv st) Ht Hpf) as (L & HL & HLm).
  assert (Hall : forall st', resources (srv st') = [] -> propfind_fails (srv st') = false ->
                 listShiftEventUIDs cal (srv st') = Some []).
  { intros st' H1 H2. unfold listShiftEventUIDs, propfind_responses, uids_of.
    rewrite H2, H1. cbn [map fold_left]. rewrite collection_no_uid. reflexivity. }
  assert (Hempty : L = [] <-> resources (srv st) = []).
  { split.
    - intros ->. destruct (resources (srv st)) as [|[k x] rs] eqn:E; [reflexivity|].
      exfalso. destruct (Ht (k, x)) as (u & _ & _ & Hk); [try rewrite E; left; reflexivity|].
      cbn [fst] in Hk. subst k. apply (proj2 (HLm u)). exists x. try rewrite E. left. reflexivity.
    - intros E. destruct L as [|u L]; [reflexivity|]. exfalso.
      destruct (proj1 (HLm u) (or_introl eq_refl)) as [x Hx]. rewrite E in Hx. exact Hx. }
  unfold deleteShiftEventsFromCalendar. rewrite HL.
  destruct L as [|u0 L0].
  - assert (E : resources (srv st) = []) by (apply Hempty; reflexivity).
    split; [tauto|]. split; [exact E | exact (Hall st E Hpf)].
  - assert (Hd' : resources (srv (fold_left (delete_one net base) (u0 :: L0) st)) = []).
    { rewrite (deletes_srv base net Hd). cbn [resources]. apply filter_all_false.
      intros [k x] Hin. destruct (Ht _ Hin) as (u & _ & _ & Hk). cbn [fst] in Hk. subst k.
      cbn [fst].
      assert (Hu : In u (u0 :: L0)) by (apply HLm; eauto).
      assert (existsb (fun u' => String.eqb (event_url base u) (event_url base u')) (u0 :: L0) = true)
        by (apply existsb_exists; exists u; split; [exact Hu | apply String.eqb_refl]).
      rewrite H. reflexivity. }
    split; [split; [discriminate | intros E; apply Hempty in E; discriminate]|].
    split; [exact Hd'|]. apply Hall; [exact Hd'|].
    rewrite (deletes_srv base net Hd). exact Hpf.
Qed.

Lemma deleteShiftEventsFromCalendar_empties_witness :
  let stale := makeShiftUID (GoSamples.at_store "StoreB") in
  let cal := "https" ++ "://" ++ "p42-caldav.icloud.com:443" ++ "/123/calendars/home" ++ "/" in
  let st := mkState (mkServer [(event_url (trim_right_slash cal) stale, GoSamples.at_store "StoreB")]
                              false) [] in
  url_shape_ok "https" "p42-caldav.icloud.com:443" "/123/calendars/home" "/" = true
  /\ (forall url, exists c, GoSamples.all_ok 204 DELETE url = Status c
                            /\ (c = 200 \/ c = 204 \/ c = 404))
  /\ propfind_fails (srv st) = false
  /\ tool_only (trim_right_slash cal) (srv st)
  /\ let '(o, st') := deleteShiftEventsFromCalendar (GoSamples.all_ok 204) cal st in
     (o = NoneFound <-> resources (srv st) = [])
     /\ resources (srv st') = []
     /\ listShiftEventUIDs cal (srv st') = Some [].
Proof.
  intros stale cal st.
  assert (Hok : url_shape_ok "https" "p42-caldav.icloud.com:443" "/123/calendars/home" "/" = true)
    by reflexivity.
  assert (Hto : tool_only (trim_right_slash cal) (srv st)).
  { intros r [<- | []]. destruct (makeShiftUID_chars (GoSamples.at_store "StoreB")) as [H1 H2].
    exists stale. split; [exact H1|]. split; [exact H2|reflexivity]. }
  split; [exact Hok|]. split; [intros; exists 204; split; [reflexivity|right; left; reflexivity]|].
  split; [reflexivity|]. split; [exact Hto|].
  exact (deleteShiftEventsFromCalendar_empties (GoSamples.all_ok 204) "https" "p42-caldav.icloud.com:443"
           "/123/calendars/home" "/" st Hok
           (fun _ => ex_intro _ 204 (conj eq_refl (or_intror (or_introl eq_refl))))
           eq_refl Hto).
Defined.

End DeleteProofs.

(** ** Notification text and sync history *)

Module NotifyProofs.
Import CalendarService AppSide AppNotify AppProofs SortDefs.

Lemma summary_changed (r : SyncResult) : hasChanges r = true -> summary r <> no_change.
Proof.
  unfold summary, hasChanges.
  destruct (0 <? added r), (0 <? updated r), (0 <? deleted r); cbn [List.app orb];
    try discriminate;
    match goal with
    | |- _ -> join _ (?p :: ?ps) <> _ =>
        destruct (join_head ", " p ps) as [rest ->]; intros _ H; discriminate H
    end.
Qed.

Lemma summary_no_change_iff (r : SyncResult) :
  summary r = no_change <-> hasChanges r = false.
Proof.
  destruct (hasChanges r) eqn:H; [|split; [reflexivity|]].
  - split; [intros E; exfalso; exact (summary_changed r H E)|discriminate].
  - intros _. unfold hasChanges in H. unfold summary.
    destruct (0 <? added r), (0 <? updated r), (0 <? deleted r); try discriminate H.
    reflexivity.
Qed.

Lemma lines_not_no_change (icon rest : string) (ls : list string) :
  (icon = "🆕" \/ icon = "📝" \/ icon = "🗑️") ->
  join newline ((icon ++ rest) :: ls) <> no_change.
Proof.
  intros Hi. destruct (join_head newline (icon ++ rest) ls) as [tail ->].
  destruct Hi as [-> | [-> | ->]]; discriminate.
Qed.

Lemma added_lines_nil (ds dw tr : Shift -> string) (fa : list Shift) :
  added_lines ds dw tr fa = [] <-> fa = [].
Proof.
  destruct fa as [|x fa]; [split; reflexivity|]. split; [|discriminate].
  unfold added_lines. destruct (Nat.leb _ 2); discriminate.
Qed.

Lemma detailed_changed (ds dw tr : Shift -> string) (now : Z) (r : SyncResult) :
  detailedSummary ds dw tr now r = no_change
  <-> let '(fa, fu, fd) := futureChanges now r in fa = [] /\ fu = [] /\ fd = [].
Proof.
  unfold detailedSummary. destruct (futureChanges now r) as [[fa fu] fd].
  destruct fa as [|a fa].
  - destruct fu as [|u fu].
    + destruct fd as [|d fd]; cbn [added_lines List.app map].
      * split; auto.
      * split; [|intros (_ & _ & H); discriminate].
        intros H. exfalso. unfold shift_line in H.
        refine (lines_not_no_change "🗑️" _ _ _ H). auto.
    + cbn [added_lines List.app map]. split; [|intros (_ & H & _); discriminate].
      intros H. exfalso. unfold shift_line in H.
      refine (lines_not_no_change "📝" _ _ _ H). auto.
  - split; [|intros (H & _); discriminate]. intros H. exfalso.
    unfold added_lines in H. destruct (Nat.leb _ 2); cbn [map List.app] in H.
    + unfold shift_line in H. refine (lines_not_no_change "🆕" _ _ _ H). auto.
    + refine (lines_not_no_change "🆕" (" " ++ _) _ _ H). auto.
Qed.

(** The notification body is "変更なし" exactly when there is nothing to
    notify: [notificationBody] returns "変更なし" if and only if
    [hasNotifiableChanges] is false, whatever the date formatters print. *)
Theorem notificationBody_no_change (ds dw tr : Shift -> string) (now : Z) (r : SyncResult) :
  notificationBody ds dw tr now r = no_change <-> hasNotifiableChanges now r = false.
Proof.
  unfold notificationBody.
  destruct (String.eqb_spec (detailedSummary ds dw tr now r) no_change) as [E|E];
    cbn [negb].
  - apply detailed_changed in E. unfold hasNotifiableChanges.
    destruct (futureChanges now r) as [[fa fu] fd]. destruct E as (-> & -> & ->).
    cbn [nonempty orb].
    destruct (nonempty (addedShifts r) || nonempty (updatedShifts r)
              || nonempty (deletedShifts r))%bool; [split; reflexivity|].
    destruct (hasChanges r) eqn:Hc; [|split; reflexivity].
    split; [|discriminate]. intros H. exfalso. exact (summary_changed r Hc H).
  - split; [intros H; contradiction|]. intros H. exfalso. apply E.
    apply detailed_changed. unfold hasNotifiableChanges in H.
    destruct (futureChanges now r) as [[fa fu] fd].
    destruct fa, fu, fd; cbn [nonempty orb] in H; try discriminate H. auto.
Qed.

(** what a history holds before [addEntry]: the decoded list, or none *)
Lemma getHistory_perm (sort : list SyncLogEntry -> list SyncLogEntry)
    (Hperm : forall l, Permutation (sort l) l) (stored : option (list SyncLogEntry)) :
  Permutation (getHistory sort stored) (match stored with None => [] | Some l => l end).
Proof. destruct stored; [apply Hperm | constructor]. Qed.

(** [addEntry] keeps the history bounded: the new list starts with the new
    entry, holds at most 20 entries, and otherwise only entries that were
    stored before. While fewer than 20 were stored, none is dropped. *)
Theorem addEntry_bounded (sort : list SyncLogEntry -> list SyncLogEntry)
    (Hperm : forall l, Permutation (sort l) l)
    (entry : SyncLogEntry) (stored : option (list SyncLogEntry)) :
  let old := match stored with None => [] | Some l => l end in
  exists hist, addEntry sort entry stored = Some (entry :: hist)
  /\ List.length (entry :: hist) = Nat.min (S (List.length old)) maxEntries
  /\ incl hist old
  /\ ((List.length old < maxEntries)%nat -> Permutation hist old).
Proof.
  intros old. pose proof (getHistory_perm sort Hperm stored) as HP. fold old in HP.
  pose proof (Permutation_length HP) as HL.
  unfold addEntry. cbn [List.length].
  destruct (Nat.ltb_spec maxEntries (S (List.length (getHistory sort stored)))) as [Hlt|Hge].
  - exists (firstn (pred maxEntries) (getHistory sort stored)). split; [reflexivity|].
    split; [|split].
    + cbn [Datatypes.length]. rewrite length_firstn. unfold maxEntries in *. cbn [pred]. lia.
    + intros e He. apply (Permutation_in _ HP).
      rewrite <- (firstn_skipn (pred maxEntries) (getHistory sort stored)).
      apply in_or_app. left. exact He.
    + unfold maxEntries in *. lia.
  - exists (getHistory sort stored). split; [reflexivity|]. split; [|split].
    + cbn [List.length]. unfold maxEntries in *. lia.
    + intros e He. exact (Permutation_in _ HP He).
    + intros _. exact HP.
Qed.

Lemma insert_by_date_perm (e : SyncLogEntry) (l : list SyncLogEntry) :
  Permutation (insert_by_date e l) (e :: l).
Proof.
  induction l as [|x l IH]; simpl; [reflexivity|].
  destruct (le_date x <? le_date e); [reflexivity|].
  rewrite IH. apply perm_swap.
Qed.

Lemma sort_by_date_perm (l : list SyncLogEntry) : Permutation (sort_by_date l) l.
Proof.
  induction l as [|x l IH]; simpl; [reflexivity|].
  rewrite insert_by_date_perm. apply perm_skip, IH.
Qed.

Lemma addEntry_bounded_witness :
  let e k := success k (100 * k) manual 1 0 0 in
  let old := map e (map Z.of_nat (seq 1 20)) in
  (forall l, Permutation (sort_by_date l) l)
  /\ exists hist, addEntry sort_by_date (e 21) (Some old) = Some (e 21 :: hist)
     /\ List.length (e 21 :: hist) = Nat.min (S (List.length old)) maxEntries
     /\ incl hist old
     /\ ((List.length old < maxEntries)%nat -> Permutation hist old).
Proof.
  intros e old. split; [exact sort_by_date_perm|].
  exact (addEntry_bounded sort_by_date sort_by_date_perm (e 21) (Some old)).
Defined.

Lemma addEntry_head (sort : list SyncLogEntry -> list SyncLogEntry)
    (entry : SyncLogEntry) (stored : option (list SyncLogEntry)) :
  exists hist, addEntry sort entry stored = Some (entry :: hist).
Proof.
  unfold addEntry. destruct (Nat.ltb _ _).
  - exists (firstn (pred maxEntries) (getHistory sort stored)). reflexivity.
  - exists (getHistory sort stored). reflexivity.
Qed.

Lemma shortDescription_changed (s : SyncResultSummary) :
  shortDescription s = no_change <-> summary_hasChanges s = false.
Proof.
  unfold shortDescription. destruct (summary_hasChanges s) eqn:H; cbn [negb];
    [|split; reflexivity].
  split; [|discriminate]. unfold summary_hasChanges in H.
  destruct (0 <? s_added s), (0 <? s_updated s), (0 <? s_deleted s);
    cbn [List.app orb] in *; try discriminate H;
    match goal with
    | |- join _ (?p :: ?ps) = _ -> _ =>
        destruct (join_head " " p ps) as [rest ->]; intros E; discriminate E
    end.
Qed.

(** The history entry [logSuccess] records for a sync result is marked as a
    success, and its short description is "変更なし" exactly when the
    result's [summary] is. The entry [logFailure] records is marked as a
    failure, carries the error text, and its short description is "変更なし". *)
Theorem logged_entry_description (sort : list SyncLogEntry -> list SyncLogEntry)
    (id date : Z) (source : SyncSource) (r : SyncResult) (msg : string)
    (stored : option (list SyncLogEntry)) :
  (exists e hist, logSuccess sort id date source r stored = Some (e :: hist)
     /\ le_success e = true
     /\ (shortDescription (le_result e) = no_change <-> summary r = no_change))
  /\ (exists e hist, logFailure sort id date source msg stored = Some (e :: hist)
     /\ le_success e = false /\ le_errorMessage e = Some msg
     /\ shortDescription (le_result e) = no_change).
Proof.
  split.
  - destruct (addEntry_head sort (success id date source (added r) (updated r) (deleted r))
                              stored) as [hist H].
    exists (success id date source (added r) (updated r) (deleted r)), hist.
    split; [exact H|].
    split; [reflexivity|]. cbn [success le_result].
      rewrite shortDescription_changed, summary_no_change_iff.
      unfold summary_hasChanges, hasChanges. cbn [s_added s_updated s_deleted]. reflexivity.
  - destruct (addEntry_head sort (failure id date source msg) stored) as [hist H].
    exists (failure id date source msg), hist.
    split; [exact H|]. split; [reflexivity|]. split; reflexivity.
Qed.

End NotifyProofs.
